(** * transcribe_audio.py: a shallow embedding and its verified properties

    The development follows the layout of [transcribe_audio.py]:

    - Python's [str] operations used by the script (strip, replace, split,
      lower, slicing, [in], startswith) and the four regular expressions
      it applies;
    - [pathlib.Path]'s [name], [suffix] and [stem] for POSIX paths;
    - the configuration tables and the two extension helpers;
    - [generate_descriptive_filename];
    - the transcript clean-up at the end of [transcribe_audio];
    - the effectful pipeline ([transcribe_audio], [save_transcript],
      [main]) in an exception-and-trace monad over an explicit world.

    Text model.  A Python [str] is a sequence of code points; here it is a
    [list ascii], one [ascii] per code point, so the texts covered are the
    ones whose code points are below 256 (Latin-1).  The character classes
    below are CPython's Unicode classes restricted to that range.

    Library model.  Paths are POSIX paths, with [suffix] and [stem] as
    CPython 3.4 to 3.13 compute them.  The environment is the one left by
    [load_dotenv()], which runs when the script is loaded.  The API client
    is a function of the world: what it answers is not the script's
    business, what the script does with the answer is. *)

From Stdlib Require Import List Ascii Bool Arith NArith Lia.
From Stdlib Require Import ListSet.
From Stdlib Require String.
Import ListNotations.
Import String.StringSyntax.
Delimit Scope string_scope with string.
Bind Scope string_scope with String.string.

Set Implicit Arguments.

(** ** Characters and strings *)

Definition str := list ascii.

(** A string literal of the source, as a [str]. *)
Definition py (s : String.string) : str := String.list_ascii_of_string s.
Arguments py s%_string.

Definition code (c : ascii) : N := N_of_ascii c.

Definition between (lo hi n : N) : bool := ((lo <=? n) && (n <=? hi))%N.

Definition chr_eqb (a b : ascii) : bool := Ascii.eqb a b.

(** [str.isspace], [\s]: TAB..CR, FS..US and space, NEL and NBSP. *)
Definition is_space (c : ascii) : bool :=
  let n := code c in
  between 9 13 n || between 28 32 n || (n =? 133)%N || (n =? 160)%N.

(** [[A-Za-z]] *)
Definition is_ascii_letter (c : ascii) : bool :=
  let n := code c in between 65 90 n || between 97 122 n.

(** [str.isalpha] on one character. *)
Definition is_alpha (c : ascii) : bool :=
  let n := code c in
  between 65 90 n || between 97 122 n
  || (n =? 170)%N || (n =? 181)%N || (n =? 186)%N
  || between 192 214 n || between 216 246 n || between 248 255 n.

(** [\d]: decimal digits. *)
Definition is_decimal (c : ascii) : bool := between 48 57 (code c).

(** Characters with a numeric value: digits, superscripts, fractions. *)
Definition is_numeric (c : ascii) : bool :=
  let n := code c in
  between 48 57 n || between 178 179 n || (n =? 185)%N || between 188 190 n.

(** [\w]: alphanumeric or underscore. *)
Definition is_word (c : ascii) : bool :=
  is_alpha c || is_numeric c || chr_eqb c "_".

(** [str.lower] on one character.  On Latin-1 text [str.lower] maps
    character to character; outside that range it can add a code point,
    so what is proved of [lower] on words that are not ASCII speaks of
    Latin-1 text only. *)
Definition lower_char (c : ascii) : ascii :=
  let n := code c in
  if between 65 90 n || between 192 214 n || between 216 222 n
  then ascii_of_N (n + 32) else c.

Definition lower (s : str) : str := map lower_char s.

(** [word.isalpha()] *)
Definition isalpha (s : str) : bool :=
  match s with [] => false | _ => forallb is_alpha s end.

Fixpoint str_eqb (a b : str) : bool :=
  match a, b with
  | [], [] => true
  | x :: a', y :: b' => chr_eqb x y && str_eqb a' b'
  | _, _ => false
  end.

Fixpoint drop_while (p : ascii -> bool) (s : str) : str :=
  match s with
  | [] => []
  | c :: s' => if p c then drop_while p s' else s
  end.

Fixpoint take_while (p : ascii -> bool) (s : str) : str :=
  match s with
  | [] => []
  | c :: s' => if p c then c :: take_while p s' else []
  end.

Definition lstrip (s : str) : str := drop_while is_space s.
Definition rstrip (s : str) : str := rev (drop_while is_space (rev s)).

(** [s.strip()] *)
Definition strip (s : str) : str := rstrip (lstrip s).

(** [s.startswith(p)] *)
Fixpoint startswith (p s : str) : bool :=
  match p, s with
  | [], _ => true
  | x :: p', y :: s' => chr_eqb x y && startswith p' s'
  | _ :: _, [] => false
  end.

(** [sub in s] *)
Fixpoint contains (sub s : str) : bool :=
  startswith sub s ||
  match s with
  | [] => false
  | _ :: s' => contains sub s'
  end.

(** [s.endswith(p)] *)
Definition endswith (p s : str) : bool := startswith (rev p) (rev s).

(** A left-to-right substitution scan.  [m s] is the length of the match
    that starts at the head of [s], if there is one; matched text is
    replaced by [new], and the scan resumes after the match.  [skip] counts
    the characters of the current match still to be dropped.  Every
    pattern of the script matches at least one character. *)
Fixpoint scan_sub (m : str -> option nat) (new : str) (skip : nat) (s : str)
  : str :=
  match s with
  | [] => []
  | c :: s' =>
    match skip with
    | S k => scan_sub m new k s'
    | O =>
      match m s with
      | Some (S k) => new ++ scan_sub m new k s'
      | _ => c :: scan_sub m new 0 s'
      end
    end
  end.

Definition match_literal (old : str) (s : str) : option nat :=
  if startswith old s then Some (length old) else None.

(** [s.replace(old, new)]: every non-overlapping occurrence, leftmost
    first.  With an empty [old] Python puts [new] around every
    character. *)
Definition replace (old new s : str) : str :=
  match old with
  | [] => new ++ flat_map (fun c => c :: new) s
  | _ :: _ => scan_sub (match_literal old) new 0 s
  end.

(** [s.split(sep)] for a one-character separator: the fields between the
    separators, empty ones included. *)
Fixpoint split_on (sep : ascii) (s : str) : list str :=
  match s with
  | [] => [[]]
  | c :: s' =>
    if chr_eqb c sep then [] :: split_on sep s'
    else match split_on sep s' with
         | [] => [[c]]
         | f :: fs => (c :: f) :: fs
         end
  end.

(** [s.split()]: the maximal runs of non-whitespace characters. *)
Fixpoint split_ws_go (cur : str) (s : str) : list str :=
  match s with
  | [] => match cur with [] => [] | _ => [rev cur] end
  | c :: s' =>
    if is_space c
    then match cur with
         | [] => split_ws_go [] s'
         | _ => rev cur :: split_ws_go [] s'
         end
    else split_ws_go (c :: cur) s'
  end.

Definition split_ws (s : str) : list str := split_ws_go [] s.

(** [sep.join(l)] *)
Fixpoint join (sep : str) (l : list str) : str :=
  match l with
  | [] => []
  | [x] => x
  | x :: l' => x ++ sep ++ join sep l'
  end.

(** Decimal rendering, as [str(n)] and [{n}] do it. *)
Definition digit_char (d : N) : ascii := ascii_of_N (48 + d).

Fixpoint dec_digits (fuel : nat) (n : N) (acc : str) : str :=
  match fuel with
  | O => acc
  | S f =>
    let acc' := digit_char (n mod 10) :: acc in
    if (n / 10 =? 0)%N then acc' else dec_digits f (n / 10)%N acc'
  end.

Definition str_of_N (n : N) : str := dec_digits (S (N.size_nat n)) n [].
Definition str_of_nat (n : nat) : str := str_of_N (N.of_nat n).

(** [w] decimal digits, zero padded: [%02d], [%m], [%H] and the like. *)
Fixpoint dec_fixed (w : nat) (n : N) : str :=
  match w with
  | O => []
  | S w' => dec_fixed w' (n / 10)%N ++ [digit_char (n mod 10)]
  end.

Definition nl : ascii := "010"%char.
Definition cr : ascii := "013"%char.

(** [d.get(key)] on a dict written as its list of items. *)
Fixpoint dict_get (A : Type) (key : str) (d : list (str * A)) : option A :=
  match d with
  | [] => None
  | (k, v) :: d' => if str_eqb key k then Some v else dict_get key d'
  end.

(** [key in d] *)
Definition dict_mem (A : Type) (key : str) (d : list (str * A)) : bool :=
  match dict_get key d with Some _ => true | None => false end.

Definition dict_keys (A : Type) (d : list (str * A)) : list str := map fst d.

(** ** pathlib on POSIX paths *)

(** The components of a path: empty and [.] components are dropped. *)
Definition path_parts (p : str) : list str :=
  filter (fun comp => negb (str_eqb comp []) && negb (str_eqb comp (py ".")))
         (split_on "/" p).

(** [Path(p).name]: the final component, [''] when there is none. *)
Definition path_name (p : str) : str := last (path_parts p) [].

(** [name.rfind(c)] *)
Fixpoint rfind_char (c : ascii) (s : str) : option nat :=
  match s with
  | [] => None
  | x :: s' =>
    match rfind_char c s' with
    | Some i => Some (S i)
    | None => if chr_eqb x c then Some 0 else None
    end
  end.

(** The position of the dot that starts the suffix:
    [i = name.rfind('.')] with [0 < i < len(name) - 1]. *)
Definition suffix_dot (name : str) : option nat :=
  match rfind_char "." name with
  | Some i => if (0 <? i) && (i <? length name - 1) then Some i else None
  | None => None
  end.

(** [Path(p).suffix] *)
Definition path_suffix (p : str) : str :=
  let name := path_name p in
  match suffix_dot name with
  | Some i => skipn i name
  | None => []
  end.

(** [Path(p).stem] *)
Definition path_stem (p : str) : str :=
  let name := path_name p in
  match suffix_dot name with
  | Some i => firstn i name
  | None => name
  end.

(** ** Configuration tables *)

Definition MODEL_OPTIONS : list (str * str) :=
  [ (py "flash", py "models/gemini-2.0-flash-exp");
    (py "pro", py "models/gemini-2.5-pro-exp-03-25") ].

Definition DEFAULT_MODEL : str := py "flash".

Definition TRANSCRIPTION_PROMPT : str :=
  py "Transcribe this audio exactly in its original language. Keep length. Add paragraph spacing. Remove filler. Fix typos."
  ++ [nl; nl] ++
  py "If there are multiple speakers, identify and label them as 'Speaker 1:', 'Speaker 2:', etc."
  ++ [nl; nl] ++
  py "Do not include any headers, titles, or additional text - only the transcription itself. NO MARKDOWN FORMATTING!!!"
  ++ [nl; nl] ++
  py "When transcribing, add line breaks between different paragraphs or distinct segments of speech to improve readability.".

Definition AUDIO_EXTENSIONS_TO_MIME : list (str * str) :=
  [ (py ".mp3", py "audio/mpeg");
    (py ".wav", py "audio/wav");
    (py ".ogg", py "audio/ogg");
    (py ".m4a", py "audio/mp4");
    (py ".mp4", py "audio/mp4");
    (py ".aac", py "audio/aac");
    (py ".webm", py "audio/webm") ].

Definition get_gemini_mime_type (file_path : str) : str :=
  let file_ext := lower (path_suffix file_path) in
  match dict_get file_ext AUDIO_EXTENSIONS_TO_MIME with
  | Some mime => mime
  | None => py "audio/mp4"
  end.

Definition is_audio_file (file_path : str) : bool :=
  let file_ext := lower (path_suffix file_path) in
  dict_mem file_ext AUDIO_EXTENSIONS_TO_MIME.

(** ** The regular expressions of [generate_descriptive_filename] *)

(** [Speaker \d+:\s*] at the head of [s].  The digit run and the
    whitespace run are greedy; giving back a digit never helps, since the
    colon would then have to match a digit. *)
Definition match_speaker_label (s : str) : option nat :=
  if startswith (py "Speaker ") s then
    let r := skipn 8 s in
    let ds := take_while is_decimal r in
    match ds, skipn (length ds) r with
    | _ :: _, c :: r' =>
      if chr_eqb c ":"
      then Some (8 + length ds + 1 + length (take_while is_space r'))
      else None
    | _, _ => None
    end
  else None.

(** [re.sub(r'Speaker \d+:\s*', '', s)] *)
Definition sub_speaker_labels (s : str) : str :=
  scan_sub match_speaker_label [] 0 s.

(** [\b[A-Za-z]{3,}\b] at the head of [s], where [prev] is the character
    before it.  The letter run is greedy.  A match needs a letter at the
    head, which is a word character, so the leading [\b] holds exactly
    when [prev] is absent or not a word character; after the whole run the
    trailing [\b] holds exactly when the next character is absent or not a
    word character, and after a shorter run it never holds, as a letter
    follows a letter. *)
Definition match_word (prev : option ascii) (s : str) : option nat :=
  let n := length (take_while is_ascii_letter s) in
  let before := match prev with Some p => is_word p | None => false end in
  let after := match skipn n s with c :: _ => is_word c | [] => false end in
  if negb before && (3 <=? n) && negb after then Some n else None.

(** [re.findall]: the matches from left to right, each search resuming
    where the previous match ended. *)
Fixpoint findall_go (prev : option ascii) (skip : nat) (s : str) : list str :=
  match s with
  | [] => []
  | c :: s' =>
    match skip with
    | S k => findall_go (Some c) k s'
    | O =>
      match match_word prev s with
      | Some (S k) => firstn (S k) s :: findall_go (Some c) k s'
      | _ => findall_go (Some c) 0 s'
      end
    end
  end.

(** [re.findall(r'\b[A-Za-z]{3,}\b', s)] *)
Definition findall_words (s : str) : list str := findall_go None 0 s.

(** [[^\w\s-]] at the head of [s]. *)
Definition match_unsafe_char (s : str) : option nat :=
  match s with
  | c :: _ =>
    if negb (is_word c || is_space c || chr_eqb c "-") then Some 1 else None
  | [] => None
  end.

Definition is_dash_or_space (c : ascii) : bool := chr_eqb c "-" || is_space c.

(** [[-\s]+] at the head of [s]: the whole run. *)
Definition match_dash_space_run (s : str) : option nat :=
  match length (take_while is_dash_or_space s) with
  | O => None
  | n => Some n
  end.

(** ** generate_descriptive_filename *)

Definition common_words : list str :=
  map py
    [ "the"; "and"; "are"; "you"; "for"; "not"; "with"; "have"; "this";
      "that"; "was"; "but"; "they"; "been"; "have"; "their"; "said";
      "each"; "which"; "she"; "how"; "will"; "can"; "what"; "when";
      "where"; "who"; "why"; "would"; "could"; "should"; "about"; "from";
      "into"; "over"; "after"; "before"; "during"; "through"; "above";
      "below"; "between"; "among" ]%string.

Definition str_in (w : str) (l : list str) : bool := existsb (str_eqb w) l.

(** A reading of the local clock, [datetime.now()]. *)
Record datetime : Type := mk_datetime {
  year : N; month : N; day : N;
  hour : N; minute : N; second : N
}.

(** [strftime("%Y%m%d_%H%M%S")], for years of four digits. *)
Definition strftime_compact (t : datetime) : str :=
  dec_fixed 4 (year t) ++ dec_fixed 2 (month t) ++ dec_fixed 2 (day t)
  ++ py "_" ++
  dec_fixed 2 (hour t) ++ dec_fixed 2 (minute t) ++ dec_fixed 2 (second t).

(** Lines 89 to 110: the words the description is made of, joined. *)
Definition raw_description (transcript_text : str) : str :=
  let text := strip transcript_text in
  let preview :=
    replace [cr] (py " ") (replace [nl] (py " ") (firstn 100 text)) in
  let preview := sub_speaker_labels preview in
  let words := findall_words preview in
  let meaningful_words :=
    map lower (filter (fun word => negb (str_in (lower word) common_words))
                      words) in
  match meaningful_words with
  | _ :: _ => join (py "_") (firstn 4 meaningful_words)
  | [] =>
    let first_words := firstn 3 (split_ws text) in
    join (py "_") (map lower (filter isalpha first_words))
  end.

(** Lines 113 to 122: cleaning, truncation and the fallback. *)
Definition clean_description (description : str) : str :=
  let description := scan_sub match_unsafe_char [] 0 description in
  let description := scan_sub match_dash_space_run (py "_") 0 description in
  let description :=
    if 50 <? length description then firstn 50 description
    else description in
  match description with
  | [] => py "transcript"
  | _ :: _ => description
  end.

(** The description component of the file name. *)
Definition describe (transcript_text : str) : str :=
  clean_description (raw_description transcript_text).

(** [now] is the clock reading taken at line 125. *)
Definition generate_descriptive_filename
  (transcript_text original_filename : str) (now : datetime) : str :=
  let description := describe transcript_text in
  let timestamp := strftime_compact now in
  let original_name := path_stem original_filename in
  description ++ py "_" ++ original_name ++ py "_" ++ timestamp ++ py ".md".

(** ** The transcript clean-up of transcribe_audio (lines 212 to 234) *)

Definition transcription_header : str := py "# Transcription" ++ [nl; nl].
Definition greeting_okay : str := py "Okay, here is the transcription:" ++ [nl].
Definition greeting_heres : str := py "Here's the transcription:" ++ [nl].

(** Lines 213 to 216. *)
Definition strip_boilerplate (transcript : str) : str :=
  let transcript := replace transcription_header [] transcript in
  let transcript := replace greeting_okay [] transcript in
  let transcript := replace greeting_heres [] transcript in
  strip transcript.

(** [f"Speaker {i}:"] and [f"**Speaker {i}:**"] *)
Definition speaker_label (i : nat) : str :=
  py "Speaker " ++ str_of_nat i ++ py ":".
Definition bold_speaker_label (i : nat) : str :=
  py "**Speaker " ++ str_of_nat i ++ py ":**".

(** [line.strip().startswith(('Speaker ', '**Speaker '))] *)
Definition is_label_line (line : str) : bool :=
  let l := strip line in
  startswith (py "Speaker ") l || startswith (py "**Speaker ") l.

(** The inner loop, [for i in range(1, 10)], on one line. *)
Definition add_line_speakers (line : str) (labels : set nat) : set nat :=
  fold_left
    (fun acc i =>
       if contains (speaker_label i) line
          || contains (bold_speaker_label i) line
       then set_add Nat.eq_dec i acc else acc)
    (seq 1 9) labels.

(** Lines 219 to 224: the set of speaker numbers found. *)
Definition speaker_labels (transcript : str) : set nat :=
  fold_left
    (fun acc line =>
       if is_label_line line then add_line_speakers line acc else acc)
    (split_on nl transcript) (empty_set nat).

(** Lines 229 to 232. *)
Definition collapse_single_speaker (transcript : str) : str :=
  if length (speaker_labels transcript) =? 1 then
    let transcript := replace (py "**Speaker 1:**") [] transcript in
    let transcript := replace (py "Speaker 1:") [] transcript in
    strip transcript
  else transcript.

(** What [transcribe_audio] does to the text it extracted. *)
Definition normalize_transcript (transcript : str) : str :=
  collapse_single_speaker (strip_boilerplate transcript).

(** ** The world outside the script *)

(** The exceptions that occur, each with its [str(e)]. *)
Inductive exn : Type :=
| FileNotFoundError (msg : str)
| ValueError (msg : str)
| KeyError (msg : str)
| OSError (msg : str)
| ApiError (msg : str).

Definition exn_str (e : exn) : str :=
  match e with
  | FileNotFoundError m | ValueError m | KeyError m | OSError m
  | ApiError m => m
  end.

(** The part of a [generate_content] response that the script reads. *)
Record safety_rating : Type := mk_rating {
  category : str;
  probability : str
}.

(** [part_text] is [None] when the part has no [text] attribute. *)
Record part : Type := mk_part { part_text : option str }.

Record content : Type := mk_content { parts : list part }.

(** [cand_content] is [None] when [candidate.content] is falsy. *)
Record candidate : Type := mk_candidate {
  cand_content : option content;
  safety_ratings : list safety_rating
}.

(** [text] is what the [response.text] accessor does: [inl t] returns
    [t], [inr msg] raises [ValueError(msg)]. *)
Record response : Type := mk_response {
  candidates : list candidate;
  text : str + str
}.

Record world : Type := mk_world {
  (** [Path(p).exists()] *)
  path_exists : str -> bool;
  (** [open(p, 'rb').read()] *)
  open_read : str -> exn + list Byte.byte;
  (** [os.getenv(name)] *)
  getenv : str -> option str;
  (** [model.generate_content] for a model name, the prompt, the MIME
      type and the encoded audio *)
  generate_content : str -> str -> str -> str -> exn + response;
  (** the successive readings of [datetime.now()] *)
  clock : nat -> datetime;
  (** [Path(d).mkdir(parents=True, exist_ok=True)] *)
  mkdir : str -> option exn;
  (** [Path(p).stat().st_size] *)
  stat_size : str -> exn + N;
  (** [open(p, 'w').write(text)] *)
  open_write : str -> str -> option exn
}.

Inductive log_level : Type := INFO | WARNING | ERROR.

(** What the script does to the outside, in order. *)
Inductive event : Type :=
| EvExists (path : str)
| EvReadFile (path : str)
| EvGetenv (name : str)
| EvGenerate (model_name mime_type data : str)
| EvClock
| EvMkdir (dir : str)
| EvStat (path : str)
| EvWriteFile (path text : str)
| EvPrint (line : str)
| EvLog (level : log_level) (msg : str).

Record state : Type := mk_state {
  trace : list event;
  ticks : nat
}.

Definition initial_state : state := mk_state [] 0.

Inductive outcome (A : Type) : Type :=
| Returned (a : A)
| Raised (e : exn).
Arguments Returned {A} a.
Arguments Raised {A} e.

(** Computations that read the world, extend the trace and may raise. *)
Definition M (A : Type) : Type := world -> state -> outcome A * state.

Definition ret {A} (a : A) : M A := fun _ st => (Returned a, st).

Definition raise {A} (e : exn) : M A := fun _ st => (Raised e, st).

Definition bind {A B} (m : M A) (k : A -> M B) : M B :=
  fun w st =>
    match m w st with
    | (Returned a, st') => k a w st'
    | (Raised e, st') => (Raised e, st')
    end.

Notation "x <- m ;; k" := (bind m (fun x => k))
  (at level 61, m at next level, right associativity).
Notation "m ;; k" := (bind m (fun _ => k))
  (at level 61, right associativity).

(** [try: m except Exception as e: h e] *)
Definition try_except {A} (m : M A) (h : exn -> M A) : M A :=
  fun w st =>
    match m w st with
    | (Returned a, st') => (Returned a, st')
    | (Raised e, st') => h e w st'
    end.

Definition emit (e : event) : M unit :=
  fun _ st => (Returned tt, mk_state (trace st ++ [e]) (ticks st)).

Definition ask {A} (f : world -> A) : M A := fun w st => (Returned (f w), st).

Definition lift {A} (r : exn + A) : M A :=
  match r with inl e => raise e | inr a => ret a end.

Fixpoint for_each {A} (l : list A) (body : A -> M unit) : M unit :=
  match l with
  | [] => ret tt
  | x :: l' => body x ;; for_each l' body
  end.

(** [print(line)] on a console that takes the line: an encoding error
    of the console is not part of the model. *)
Definition print (line : str) : M unit := emit (EvPrint line).
Definition log (level : log_level) (msg : str) : M unit :=
  emit (EvLog level msg).

(** [Path(p).exists()], when it answers: the errors it passes on (a
    name that is too long, a directory that cannot be searched) are not
    part of the model. *)
Definition exists_ (p : str) : M bool :=
  emit (EvExists p) ;; ask (fun w => path_exists w p).

Definition read_file (p : str) : M (list Byte.byte) :=
  emit (EvReadFile p) ;; r <- ask (fun w => open_read w p) ;; lift r.

Definition os_getenv (name : str) : M (option str) :=
  emit (EvGetenv name) ;; ask (fun w => getenv w name).

Definition call_generate_content (model_name prompt mime_type data : str)
  : M response :=
  emit (EvGenerate model_name mime_type data) ;;
  r <- ask (fun w => generate_content w model_name prompt mime_type data) ;;
  lift r.

Definition datetime_now : M datetime :=
  fun w st =>
    (Returned (clock w (ticks st)),
     mk_state (trace st ++ [EvClock]) (S (ticks st))).

Definition do_mkdir (d : str) : M unit :=
  emit (EvMkdir d) ;;
  r <- ask (fun w => mkdir w d) ;;
  match r with Some e => raise e | None => ret tt end.

Definition do_stat_size (p : str) : M N :=
  emit (EvStat p) ;; r <- ask (fun w => stat_size w p) ;; lift r.

Definition write_file (p text : str) : M unit :=
  emit (EvWriteFile p text) ;;
  r <- ask (fun w => open_write w p text) ;;
  match r with Some e => raise e | None => ret tt end.

(** [d[key]] *)
Definition dict_index (key : str) (d : list (str * str)) : M str :=
  match dict_get key d with
  | Some v => ret v
  | None => raise (KeyError (py "'" ++ key ++ py "'"))
  end.

(** ** base64.b64encode *)

Definition b64_alphabet : str :=
  py "ABCDEFGHIJKLMNOPQRSTUVWXYZabcdefghijklmnopqrstuvwxyz0123456789+/".

Definition b64_char (n : N) : ascii := nth (N.to_nat n) b64_alphabet "="%char.

Fixpoint b64encode (data : list Byte.byte) : str :=
  match data with
  | [] => []
  | [a] =>
    let x := Byte.to_N a in
    [b64_char (x / 4); b64_char ((x mod 4) * 16); "="%char; "="%char]
  | [a; b] =>
    let x := Byte.to_N a in
    let y := Byte.to_N b in
    [b64_char (x / 4); b64_char ((x mod 4) * 16 + y / 16);
     b64_char ((y mod 16) * 4); "="%char]
  | a :: b :: c :: rest =>
    let x := Byte.to_N a in
    let y := Byte.to_N b in
    let z := Byte.to_N c in
    b64_char (x / 4) :: b64_char ((x mod 4) * 16 + y / 16)
    :: b64_char ((y mod 16) * 4 + z / 64) :: b64_char (z mod 64)
    :: b64encode rest
  end%N.

(** ** get_api_key *)

Definition missing_key_message : str :=
  py "GOOGLE_AI_API_KEY not found in environment variables. Please set it in .env file.".

(** [if not api_key]: an unset variable and an empty one are both
    missing. *)
Definition get_api_key : M str :=
  api_key <- os_getenv (py "GOOGLE_AI_API_KEY") ;;
  match api_key with
  | None | Some [] => raise (ValueError missing_key_message)
  | Some k => ret k
  end.

(** ** transcribe_audio *)

Definition blocked_message : str :=
  py "Transcription was blocked due to content restrictions or the audio format is not supported.".

(** [response.candidates and response.candidates[0].content and
    response.candidates[0].content.parts]: the parts, when all three are
    truthy. *)
Definition usable_parts (r : response) : option (list part) :=
  match candidates r with
  | [] => None
  | c :: _ =>
    match cand_content c with
    | None => None
    | Some ct =>
      match parts ct with
      | [] => None
      | ps => Some ps
      end
    end
  end.

(** The condition of line 189. *)
Definition is_blocked (r : response) : bool :=
  match usable_parts r with Some _ => false | None => true end.

(** Lines 190 to 194. *)
Definition report_blocked (r : response) : M str :=
  log WARNING (py "Response was blocked or empty. Checking safety ratings.") ;;
  match candidates r with
  | c :: _ =>
    for_each (safety_ratings c)
      (fun rating =>
         log WARNING (py "Safety rating: " ++ category rating ++ py ": "
                      ++ probability rating))
  | [] => ret tt
  end ;;
  raise (ValueError blocked_message).

(** The [for ... else] of lines 203 to 208: the first part with a
    non-empty text. *)
Fixpoint first_part_text (ps : list part) : option str :=
  match ps with
  | [] => None
  | p :: ps' =>
    match part_text p with
    | Some (c :: t) => Some (c :: t)
    | _ => first_part_text ps'
    end
  end.

(** Lines 197 to 210. *)
Definition extract_text (r : response) : M str :=
  match text r with
  | inl t => ret t
  | inr msg =>
    log WARNING (py "Error accessing response.text: " ++ msg) ;;
    match usable_parts r with
    | Some ps =>
      match first_part_text ps with
      | Some t => ret t
      | None =>
        raise (ValueError (py "Could not extract transcription from response."))
      end
    | None =>
      raise (ValueError (py "Transcription response was empty or blocked."))
    end
  end.

(** Line 143: [MODEL_OPTIONS.get(model_key, MODEL_OPTIONS[DEFAULT_MODEL])].
    The default is an argument of [get], so it is looked up first. *)
Definition model_name_for (model_key : str) : M str :=
  default_name <- dict_index DEFAULT_MODEL MODEL_OPTIONS ;;
  ret (match dict_get model_key MODEL_OPTIONS with
       | Some name => name
       | None => default_name
       end).

(** The body of the [try] block, lines 135 to 234. *)
Definition transcribe_audio_body (audio_path model_key : str) : M str :=
  found <- exists_ audio_path ;;
  if negb found then
    raise (FileNotFoundError (py "Audio file not found: " ++ audio_path))
  else if negb (is_audio_file audio_path) then
    raise (ValueError (py "File is not a supported audio format: "
                       ++ audio_path))
  else
    model_name <- model_name_for model_key ;;
    log INFO (py "Using model: " ++ model_name) ;;
    audio_data <- read_file audio_path ;;
    log INFO (py "Loaded audio file: " ++ audio_path ++ py " ("
              ++ str_of_nat (length audio_data) ++ py " bytes)") ;;
    let mime_type := get_gemini_mime_type audio_path in
    log INFO (py "MIME type: " ++ mime_type) ;;
    let audio_base64 := b64encode audio_data in
    _ <- get_api_key ;;
    log INFO (py "Sending to Gemini for transcription...") ;;
    response <- call_generate_content model_name TRANSCRIPTION_PROMPT
                  mime_type audio_base64 ;;
    if is_blocked response then report_blocked response
    else
      transcript <- extract_text response ;;
      let transcript := strip_boilerplate transcript in
      log INFO (py "Speakers detected: "
                ++ str_of_nat (length (speaker_labels transcript))) ;;
      ret (collapse_single_speaker transcript).

Definition transcribe_audio (audio_path model_key : str) : M str :=
  try_except (transcribe_audio_body audio_path model_key)
    (fun e =>
       log ERROR (py "Error transcribing audio: " ++ exn_str e) ;;
       raise e).

(** ** save_transcript *)

(** The root of a POSIX path: exactly two leading slashes are kept. *)
Definition path_root (p : str) : str :=
  match p with
  | "/"%char :: "/"%char :: "/"%char :: _ => py "/"
  | "/"%char :: "/"%char :: _ => py "//"
  | "/"%char :: _ => py "/"
  | _ => []
  end.

(** [str(Path(p))] *)
Definition path_str (p : str) : str :=
  match path_root p, path_parts p with
  | [], [] => py "."
  | root, ps => root ++ join (py "/") ps
  end.

(** [str(Path(d) / f)] *)
Definition path_join (d f : str) : str :=
  match path_root f with
  | _ :: _ => path_str f
  | [] =>
    match path_root d, path_parts d ++ path_parts f with
    | [], [] => py "."
    | root, ps => root ++ join (py "/") ps
    end
  end.

(** [strftime('%Y-%m-%d %H:%M:%S')] *)
Definition strftime_iso (t : datetime) : str :=
  dec_fixed 4 (year t) ++ py "-" ++ dec_fixed 2 (month t) ++ py "-"
  ++ dec_fixed 2 (day t) ++ py " " ++
  dec_fixed 2 (hour t) ++ py ":" ++ dec_fixed 2 (minute t) ++ py ":"
  ++ dec_fixed 2 (second t).

(** [f"{size / (1024*1024):.2f}"]: hundredths of a MiB, ties to even.
    The division by a power of two is exact in floating point for the
    sizes below [2^53]. *)
Definition format_mib (size : N) : str :=
  let q := (size * 100 / 1048576)%N in
  let r := ((size * 100) mod 1048576)%N in
  let h := if (r <? 524288)%N then q
           else if (524288 <? r)%N then (q + 1)%N
           else if N.even q then q else (q + 1)%N in
  str_of_N (h / 100) ++ py "." ++ dec_fixed 2 (h mod 100).

Definition render_report (source_name transcribed size_mib transcript : str)
  : str :=
  py "# Audio Transcript" ++ [nl; nl] ++
  py "**Source File:** " ++ source_name ++ py "  " ++ [nl] ++
  py "**Transcribed:** " ++ transcribed ++ py "  " ++ [nl] ++
  py "**File Size:** " ++ size_mib ++ py " MB" ++ [nl; nl] ++
  py "---" ++ [nl; nl] ++
  transcript ++ [nl; nl] ++
  py "---" ++ [nl; nl] ++
  py "*Transcribed using Google AI Gemini*" ++ [nl].

Definition save_transcript (transcript original_audio_path output_dir : str)
  : M str :=
  try_except
    (do_mkdir (path_str output_dir) ;;
     now <- datetime_now ;;
     let filename :=
       generate_descriptive_filename transcript original_audio_path now in
     let output_file := path_join output_dir filename in
     transcribed <- datetime_now ;;
     size <- do_stat_size (path_str original_audio_path) ;;
     let transcript_content :=
       render_report (path_name original_audio_path)
                     (strftime_iso transcribed) (format_mib size)
                     transcript in
     write_file output_file transcript_content ;;
     log INFO (py "Transcript saved to: " ++ output_file) ;;
     ret output_file)
    (fun e =>
       log ERROR (py "Error saving transcript: " ++ exn_str e) ;;
       raise e).

(** ** main *)

(** The values argparse hands over, before the [choices] check. *)
Record args : Type := mk_args {
  audio_file : str;
  model : str;
  output : str;
  verbose : bool
}.

(** [choices=['flash', 'pro']] *)
Definition model_choices : list str := [py "flash"; py "pro"].

(** The console lines are given without the pictograph that opens some
    of them, which lies outside the text model. *)
Definition main_body (a : args) : M nat :=
  print (py "Audio Transcription Tool") ;;
  print (repeat "="%char 50) ;;
  print (py "Input file: " ++ audio_file a) ;;
  model_name <- dict_index (model a) MODEL_OPTIONS ;;
  print (py "Model: " ++ model_name) ;;
  print (py "Output directory: " ++ output a) ;;
  print [] ;;
  found <- exists_ (audio_file a) ;;
  if negb found then
    print (py "Error: Audio file not found: " ++ audio_file a) ;;
    ret 1
  else if negb (is_audio_file (audio_file a)) then
    print (py "Error: File is not a supported audio format.") ;;
    print (py "Supported formats: "
           ++ join (py ", ") (dict_keys AUDIO_EXTENSIONS_TO_MIME)) ;;
    ret 1
  else
    print (py "Transcribing audio (this may take a while)...") ;;
    transcript <- transcribe_audio (audio_file a) (model a) ;;
    output_file <- save_transcript transcript (audio_file a) (output a) ;;
    print (py "Transcription completed successfully!") ;;
    print (py "Transcript saved to: " ++ output_file) ;;
    print ([nl] ++ py "Preview (first 200 characters):") ;;
    print (repeat "-"%char 50) ;;
    let preview :=
      if 200 <? length transcript then firstn 200 transcript ++ py "..."
      else transcript in
    print preview ;;
    print (repeat "-"%char 50) ;;
    ret 0.

(** The exit status of the process: 2 when argparse rejects the model
    (outside the [try]), otherwise what [main] returns. *)
Definition main (a : args) : M nat :=
  if negb (str_in (model a) model_choices) then ret 2
  else
    try_except (main_body a)
      (fun e =>
         print (py "Error: " ++ exn_str e) ;;
         log ERROR (py "Transcription failed: " ++ exn_str e) ;;
         ret 1).

(** Running from the initial state. *)
Definition run {A} (m : M A) (w : world) : outcome A * list event :=
  let (r, st) := m w initial_state in (r, trace st).

(** The events that reach the remote service. *)
Definition is_network (e : event) : bool :=
  match e with EvGenerate _ _ _ => true | _ => false end.

Definition is_file_read (e : event) : bool :=
  match e with EvReadFile _ => true | _ => false end.

Definition is_file_write (e : event) : bool :=
  match e with EvWriteFile _ _ => true | _ => false end.

(** The events that only [save_transcript] produces. *)
Definition is_save_step (e : event) : bool :=
  match e with
  | EvMkdir _ | EvClock | EvStat _ | EvWriteFile _ _ => true
  | _ => false
  end.

(** ** Notions the properties are stated with *)

(** Comparison of two extensions without regard to case. *)
Definition same_ignoring_case (a b : str) : bool :=
  str_eqb (lower a) (lower b).

(** The supported input extensions as the documentation lists them. *)
Definition documented_extensions : list str :=
  map py [".mp3"; ".wav"; ".ogg"; ".m4a"; ".mp4"; ".aac"; ".webm"]%string.

(** Characters that are safe in a file name on every platform: word
    characters, the hyphen and the dot. *)
Definition filesystem_safe (c : ascii) : bool :=
  is_word c || chr_eqb c "-" || chr_eqb c ".".

(** The three phrases removed by lines 213 to 215. *)
Definition boilerplate_phrases : list str :=
  [transcription_header; greeting_okay; greeting_heres].

(** [spelled_across rest s]: [rest] is read at the head of [s] when whole
    [Speaker 1:] labels standing in the way are skipped. *)
Inductive spelled_across : str -> str -> Prop :=
| sa_done (s : str) : spelled_across [] s
| sa_char (c : ascii) (rest s : str) :
    spelled_across rest s -> spelled_across (c :: rest) (c :: s)
| sa_skip (c : ascii) (rest s : str) :
    spelled_across (c :: rest) s ->
    spelled_across (c :: rest) (py "Speaker 1:" ++ s).

(** The text holds a [Speaker 1:] label cut in pieces by [Speaker 1:]
    labels, as [Speaker Speaker 1:1:] does: somewhere in it, at a place
    where no label stands as one piece, the label is read across
    labels. *)
Definition joined_label (s : str) : Prop :=
  exists a b,
    s = a ++ b /\
    startswith (py "Speaker 1:") b = false /\
    spelled_across (py "Speaker 1:") b.

(** The test of line 223 for speaker [i]. *)
Definition mentions (i : nat) (line : str) : bool :=
  contains (speaker_label i) line || contains (bold_speaker_label i) line.

(** Some line of the text passes the test of line 221 and carries the
    label of speaker [i]. *)
Definition has_label_line (i : nat) (transcript : str) : bool :=
  existsb (fun line => is_label_line line && mentions i line)
          (split_on nl transcript).

(** The beginnings of the label: [S], [Sp], ..., [Speaker 1]. *)
Definition label_beginnings : list str :=
  map (fun n => firstn n (py "Speaker 1:")) (seq 1 9).

(** No [Speaker 1:] label of the text directly follows the beginning of
    one. *)
Definition labels_stand_apart (s : str) : bool :=
  forallb (fun x => negb (contains (x ++ py "Speaker 1:") s))
          label_beginnings.

(** The speakers, among 1 to 9, whose label stands on such a line. *)
Definition speakers_at_line_start (transcript : str) : list nat :=
  filter (fun i => has_label_line i transcript) (seq 1 9).

(** [os.getenv('GOOGLE_AI_API_KEY')] is unset or empty. *)
Definition api_key_missing (w : world) : bool :=
  match getenv w (py "GOOGLE_AI_API_KEY") with
  | None | Some [] => true
  | Some (_ :: _) => false
  end.

(** The response has no candidate, or its first candidate has no content
    or a content without parts. *)
Definition no_candidate_or_no_parts (r : response) : Prop :=
  candidates r = [] \/
  exists c cs,
    candidates r = c :: cs /\
    (cand_content c = None \/
     exists ct, cand_content c = Some ct /\ parts ct = []).

(** What [[^\w\s-]] lets through. *)
Definition kept_char (c : ascii) : bool :=
  is_word c || is_space c || chr_eqb c "-".

(** [hasattr(part, 'text') and part.text], the test of line 204. *)
Definition has_text (p : part) : bool :=
  match part_text p with
  | Some (_ :: _) => true
  | _ => false
  end.

(** The safety ratings that lines 191 to 193 log. *)
Definition logged_ratings (r : response) : list safety_rating :=
  match candidates r with
  | c :: _ => safety_ratings c
  | [] => []
  end.

(** The line logged for one safety rating. *)
Definition rating_line (rating : safety_rating) : str :=
  py "Safety rating: " ++ category rating ++ py ": " ++ probability rating.

(** What [main] prints before it looks at the input file. *)
Definition main_banner (a : args) (model_name : str) : list event :=
  [ EvPrint (py "Audio Transcription Tool");
    EvPrint (repeat "="%char 50);
    EvPrint (py "Input file: " ++ audio_file a);
    EvPrint (py "Model: " ++ model_name);
    EvPrint (py "Output directory: " ++ output a);
    EvPrint [] ].

(** What [main] does between the banner and the call of
    [transcribe_audio], on a supported file that exists. *)
Definition main_opening (a : args) (model_name : str) : list event :=
  main_banner a model_name
  ++ [ EvExists (audio_file a);
       EvPrint (py "Transcribing audio (this may take a while)...") ].

(** Lines 336 and 337: what the handler of [main] prints and logs. *)
Definition main_failure_lines (e : exn) : list event :=
  [ EvPrint (py "Error: " ++ exn_str e);
    EvLog ERROR (py "Transcription failed: " ++ exn_str e) ].

(** Lines 323 to 331: the closing lines of a successful run. *)
Definition main_success_lines (transcript output_file : str) : list event :=
  [ EvPrint (py "Transcription completed successfully!");
    EvPrint (py "Transcript saved to: " ++ output_file);
    EvPrint ([nl] ++ py "Preview (first 200 characters):");
    EvPrint (repeat "-"%char 50);
    EvPrint (if 200 <? length transcript
             then firstn 200 transcript ++ py "..."
             else transcript);
    EvPrint (repeat "-"%char 50) ].

(** What [transcribe_audio] does, on a supported file that exists and
    can be read, up to the moment it asks for the key. *)
Definition events_to_key (audio_path model_name : str)
  (audio_data : list Byte.byte) : list event :=
  [ EvExists audio_path;
    EvLog INFO (py "Using model: " ++ model_name);
    EvReadFile audio_path;
    EvLog INFO (py "Loaded audio file: " ++ audio_path ++ py " ("
                ++ str_of_nat (length audio_data) ++ py " bytes)");
    EvLog INFO (py "MIME type: " ++ get_gemini_mime_type audio_path);
    EvGetenv (py "GOOGLE_AI_API_KEY") ].

(** The request itself. *)
Definition events_of_request (audio_path model_name : str)
  (audio_data : list Byte.byte) : list event :=
  [ EvLog INFO (py "Sending to Gemini for transcription...");
    EvGenerate model_name (get_gemini_mime_type audio_path)
               (b64encode audio_data) ].

(** A small world to run the pipeline in: every path is there or none is,
    a file holds four bytes, the key is [key] and the service answers
    [api]. *)
Definition sample_clock : datetime := mk_datetime 2024 3 7 9 5 1.

Definition sample_world (present : bool) (key : option str)
  (api : exn + response) : world :=
  mk_world (fun _ => present)
           (fun _ => inr [Byte.x52; Byte.x49; Byte.x46; Byte.x46])
           (fun _ => key)
           (fun _ _ _ _ => api)
           (fun _ => sample_clock)
           (fun _ => None)
           (fun _ => inr 4%N)
           (fun _ _ => None).

(** An answer of the service with one candidate and one part. *)
Definition sample_response (t : str) : response :=
  mk_response [mk_candidate (Some (mk_content [mk_part (Some t)])) []] (inl t).

Definition sample_args : args :=
  mk_args (py "talk.mp3") (py "flash") (py "transcripts") false.

Definition outcome_of {A} (x : outcome A * list event) : outcome A := fst x.
Definition events_of {A} (x : outcome A * list event) : list event := snd x.

(** Lines 89 to 95: the preview the words are taken from. *)
Definition preview_of (transcript_text : str) : str :=
  sub_speaker_labels
    (replace [cr] (py " ")
       (replace [nl] (py " ") (firstn 100 (strip transcript_text)))).

(** Lines 98 to 101: the meaningful words of the preview. *)
Definition meaningful_words (transcript_text : str) : list str :=
  map lower
      (filter (fun word => negb (str_in (lower word) common_words))
              (findall_words (preview_of transcript_text))).

(** [[a-z_]] *)
Definition is_lower_or_underscore (c : ascii) : bool :=
  between 97 122 (code c) || chr_eqb c "_".

(** The directory part of a path: nothing, or something that ends in a
    slash. *)
Definition is_dir_prefix (pre : str) : Prop :=
  pre = [] \/ exists dir, pre = dir ++ py "/".

(** A final component of a path: not empty, not [.], without a slash. *)
Definition is_proper_name (name : str) : Prop :=
  name <> [] /\ name <> py "." /\ ~ In "/"%char name.

(** A clock reading whose fields fit the widths of the time stamp, as
    every reading of [datetime.now()] does. *)
Definition fits_stamp (t : datetime) : bool :=
  ((year t <? 10000) && (month t <? 100) && (day t <? 100)
   && (hour t <? 100) && (minute t <? 100) && (second t <? 100))%N.

(** [a] is [b] with some characters deleted. *)
Inductive subsequence : str -> str -> Prop :=
| sub_nil : subsequence [] []
| sub_keep (c : ascii) (a b : str) :
    subsequence a b -> subsequence (c :: a) (c :: b)
| sub_drop (c : ascii) (a b : str) :
    subsequence a b -> subsequence a (c :: b).

(** ** Proof automation for the pipeline *)

(** Unfolds the monad and the pipeline, leaving the questions asked of
    the world and the pure helpers in place. *)
Ltac run_pipeline :=
  cbv beta iota zeta delta
    [ run main main_body transcribe_audio transcribe_audio_body
      save_transcript try_except bind ret raise emit ask lift
      print log exists_ read_file os_getenv call_generate_content
      datetime_now do_mkdir do_stat_size write_file dict_index get_api_key
      model_name_for extract_text outcome_of events_of
      initial_state trace ticks fst snd audio_file model output verbose
      negb ];
  try change (dict_get DEFAULT_MODEL MODEL_OPTIONS)
        with (Some (py "models/gemini-2.0-flash-exp"));
  cbv beta iota;
  cbn [app].

(** Unfolds [main] and the monad, leaving [transcribe_audio] and
    [save_transcript] folded. *)
Ltac run_main :=
  cbv beta iota zeta delta
    [ run main main_body try_except bind ret raise emit ask lift
      print log exists_ dict_index outcome_of events_of
      initial_state trace ticks fst snd audio_file model output verbose
      negb ];
  cbn [app].

(** Runs the pipeline, answering the questions asked of the world with
    the equations at hand. *)
Ltac run_with_facts :=
  repeat (progress (run_pipeline;
                    repeat match goal with
                           | H : _ = _ |- _ => rewrite H
                           end)).

(** * Properties *)

Unset Implicit Arguments.

(** ** The definitions at work *)

Example character_classes :
  let codes p := map N.to_nat (map code (filter p (map ascii_of_nat (seq 0 256)))) in
  codes is_space = seq 9 5 ++ seq 28 5 ++ [133; 160] /\
  codes is_decimal = seq 48 10 /\
  codes is_ascii_letter = seq 65 26 ++ seq 97 26 /\
  codes is_alpha
  = seq 65 26 ++ seq 97 26 ++ [170; 181; 186] ++ seq 192 23 ++ seq 216 31
    ++ seq 248 8 /\
  codes is_word
  = seq 48 10 ++ seq 65 26 ++ [95] ++ seq 97 26 ++ [170; 178; 179; 181; 185; 186]
    ++ seq 188 3 ++ seq 192 23 ++ seq 216 31 ++ seq 248 8 /\
  codes (fun c => negb (chr_eqb (lower_char c) c))
  = seq 65 26 ++ seq 192 23 ++ seq 216 7 /\
  lower (py "Speaker ONE") = py "speaker one".
Proof. repeat split; vm_compute; reflexivity. Qed.

Example path_examples :
  map (fun p => (path_name p, path_suffix p, path_stem p))
      [py "a/b.mp3"; py "a/b.tar.gz"; py ".bashrc"; py "a/b/"; py "foo."]
  = [ (py "b.mp3", py ".mp3", py "b");
      (py "b.tar.gz", py ".gz", py "b.tar");
      (py ".bashrc", [], py ".bashrc");
      (py "b", [], py "b");
      (py "foo.", [], py "foo.") ].
Proof. reflexivity. Qed.

Example mime_examples :
  map get_gemini_mime_type [py "a.MP3"; py "b.m4a"; py "c.webm"; py "d.flac"]
  = [py "audio/mpeg"; py "audio/mp4"; py "audio/webm"; py "audio/mp4"].
Proof. reflexivity. Qed.

Example replace_examples :
  replace (py "ab") (py "X") (py "cabab abb") = py "cXX Xb" /\
  replace [] (py "-") (py "abc") = py "-a-b-c-" /\
  replace (py "aa") [] (py "aaa") = py "a".
Proof. repeat split; reflexivity. Qed.

Example split_examples :
  split_on "/" (py "a//b/") = [py "a"; []; py "b"; []] /\
  split_ws (py "  a  bc d ") = [py "a"; py "bc"; py "d"].
Proof. split; reflexivity. Qed.

Example findall_examples :
  findall_words (py "well-known re_use abc_def the cat's x2y foo")
  = [py "well"; py "known"; py "the"; py "cat"; py "foo"].
Proof. reflexivity. Qed.

Example b64encode_example :
  b64encode (map byte_of_ascii (py "hello world!?")) = py "aGVsbG8gd29ybGQhPw==".
Proof. reflexivity. Qed.

Example format_mib_examples :
  map format_mib [0; 131072; 393216; 1234567; 999999999]%N
  = [py "0.00"; py "0.12"; py "0.38"; py "1.18"; py "953.67"].
Proof. reflexivity. Qed.

(** The end-to-end scenario of the documentation. *)
Example weather_scenario :
  let t := normalize_transcript
             (py "Speaker 1: Hello there, this is a test recording about the weather today.") in
  t = py "Hello there, this is a test recording about the weather today." /\
  generate_descriptive_filename t (py "audio/memo.m4a") sample_clock
  = py "hello_there_test_recording_memo_20240307_090501.md".
Proof. split; vm_compute; reflexivity. Qed.

(** A successful run: the transcript is normalized, saved and shown. *)
Example successful_run :
  let r := mk_response
             [mk_candidate (Some (mk_content [mk_part (Some (py "Speaker 1: Good morning."))])) []]
             (inl (py "Speaker 1: Good morning.")) in
  let x := run (main sample_args)
               (sample_world true (Some (py "secret")) (inr r)) in
  outcome_of x = Returned 0 /\
  filter is_file_write (events_of x)
  = [ EvWriteFile
        (py "transcripts/good_morning_talk_20240307_090501.md")
        (render_report (py "talk.mp3") (py "2024-03-07 09:05:01")
                       (py "0.00") (py "Good morning.")) ].
Proof. split; vm_compute; reflexivity. Qed.

(** ** Characters, equality tests and prefixes *)

Lemma chr_eqb_eq (a b : ascii) : chr_eqb a b = true <-> a = b.
Proof. unfold chr_eqb. apply Ascii.eqb_eq. Qed.

Lemma chr_eqb_refl (a : ascii) : chr_eqb a a = true.
Proof. apply chr_eqb_eq. reflexivity. Qed.

Lemma chr_eqb_neq (a b : ascii) : chr_eqb a b = false <-> a <> b.
Proof. unfold chr_eqb. apply Ascii.eqb_neq. Qed.

Lemma str_eqb_eq (a b : str) : str_eqb a b = true <-> a = b.
Proof.
  revert b. induction a as [|x a IH]; intros [|y b]; simpl;
    try (split; [discriminate | discriminate]); try tauto.
  rewrite andb_true_iff, chr_eqb_eq, IH.
  split; [intros [-> ->]; reflexivity | intros H; inversion H; auto].
Qed.

Lemma str_eqb_refl (a : str) : str_eqb a a = true.
Proof. apply str_eqb_eq. reflexivity. Qed.

Lemma startswith_iff (p s : str) :
  startswith p s = true <-> exists r, s = p ++ r.
Proof.
  revert s. induction p as [|x p IH]; intros s; simpl.
  - split; [intros _; exists s; reflexivity | reflexivity].
  - destruct s as [|y s].
    + split; [discriminate | intros [r H]; discriminate].
    + rewrite andb_true_iff, chr_eqb_eq, IH. split.
      * intros [-> [r ->]]. exists r. reflexivity.
      * intros [r H]. inversion H. split; [reflexivity | exists r; reflexivity].
Qed.

Lemma startswith_app (p r : str) : startswith p (p ++ r) = true.
Proof. apply startswith_iff. exists r. reflexivity. Qed.

Lemma startswith_app_r (p s r : str) :
  startswith p s = true -> startswith p (s ++ r) = true.
Proof.
  rewrite !startswith_iff. intros [q ->]. exists (q ++ r).
  now rewrite app_assoc.
Qed.

Lemma startswith_head (x y : ascii) (p s : str) :
  x <> y -> startswith (x :: p) (y :: s) = false.
Proof. intros H. simpl. apply chr_eqb_neq in H. now rewrite H. Qed.

Lemma contains_cons (sub : str) (c : ascii) (s : str) :
  contains sub (c :: s) = startswith sub (c :: s) || contains sub s.
Proof. reflexivity. Qed.

Lemma contains_iff (sub s : str) :
  contains sub s = true <-> exists a b, s = a ++ sub ++ b.
Proof.
  induction s as [|c s IH].
  - simpl. rewrite orb_false_r, startswith_iff. split.
    + intros [r H]. exists [], r. exact H.
    + intros [a [b H]]. destruct a as [|x a]; [|discriminate].
      exists b. exact H.
  - rewrite contains_cons, orb_true_iff, startswith_iff, IH. split.
    + intros [[r H] | [a [b H]]].
      * exists [], r. exact H.
      * exists (c :: a), b. now rewrite H.
    + intros [[|x a] [b H]].
      * left. exists b. exact H.
      * right. inversion H. exists a, b. reflexivity.
Qed.

Lemma contains_app_l (sub a b : str) :
  contains sub a = true -> contains sub (a ++ b) = true.
Proof.
  rewrite !contains_iff. intros [x [y ->]]. exists x, (y ++ b).
  now rewrite <- !app_assoc.
Qed.

Lemma contains_app_r (sub a b : str) :
  contains sub b = true -> contains sub (a ++ b) = true.
Proof.
  rewrite !contains_iff. intros [x [y ->]]. exists (a ++ x), y.
  now rewrite <- !app_assoc.
Qed.

Lemma contains_absent_app (sub a b : str) :
  contains sub (a ++ b) = false ->
  contains sub a = false /\ contains sub b = false.
Proof.
  intros H. split.
  - destruct (contains sub a) eqn:E; [|reflexivity].
    now rewrite (contains_app_l _ _ b E) in H.
  - destruct (contains sub b) eqn:E; [|reflexivity].
    now rewrite (contains_app_r _ a _ E) in H.
Qed.

Lemma contains_trans (x y s : str) :
  contains x y = true -> contains y s = true -> contains x s = true.
Proof.
  rewrite !contains_iff. intros [a [b ->]] [c [d ->]].
  exists (c ++ a), (b ++ d). now rewrite <- !app_assoc.
Qed.

(** A text in which a character of [sub] never occurs has no occurrence
    of [sub]. *)
Lemma contains_missing_char (c : ascii) (sub s : str) :
  In c sub -> ~ In c s -> contains sub s = false.
Proof.
  intros Hc Hs. destruct (contains sub s) eqn:E; [|reflexivity].
  apply contains_iff in E. destruct E as [a [b ->]].
  exfalso. apply Hs. apply in_or_app. right. apply in_or_app. now left.
Qed.

(** ** The substitution scan and [replace] *)

Lemma skipn_length_app (A : Type) (a b : list A) : skipn (length a) (a ++ b) = b.
Proof. induction a as [|x a IH]; simpl; auto. Qed.

Lemma scan_sub_skip (m : str -> option nat) (new : str) (k : nat) (s : str) :
  scan_sub m new k s = scan_sub m new 0 (skipn k s).
Proof.
  revert k. induction s as [|c s IH]; intros [|k]; try reflexivity.
  simpl. apply IH.
Qed.

Lemma scan_sub_Forall (P : ascii -> Prop) (m : str -> option nat)
      (new : str) (k : nat) (s : str) :
  Forall P new -> Forall P s -> Forall P (scan_sub m new k s).
Proof.
  intros Hnew. revert k. induction s as [|c s IH]; intros k Hs; simpl.
  - constructor.
  - inversion Hs as [|? ? Hc Hs']; subst.
    destruct k as [|k]; [|now apply IH].
    destruct (m (c :: s)) as [[|j]|].
    + constructor; [assumption | now apply IH].
    + apply Forall_app. split; [assumption | now apply IH].
    + constructor; [assumption | now apply IH].
Qed.

Lemma replace_nil (old new : str) : old <> [] -> replace old new [] = [].
Proof. destruct old; [congruence | reflexivity]. Qed.

Lemma replace_match (old new r : str) :
  old <> [] -> replace old new (old ++ r) = new ++ replace old new r.
Proof.
  destruct old as [|o old]; [congruence | intros _].
  unfold replace. change ((o :: old) ++ r) with (o :: (old ++ r)).
  cbn [scan_sub]. unfold match_literal at 1.
  change (o :: old ++ r) with ((o :: old) ++ r).
  rewrite startswith_app. cbn [length].
  rewrite scan_sub_skip, skipn_length_app. reflexivity.
Qed.

Lemma replace_no_match (old new : str) (c : ascii) (s : str) :
  old <> [] -> startswith old (c :: s) = false ->
  replace old new (c :: s) = c :: replace old new s.
Proof.
  destruct old as [|o old]; [congruence | intros _ H].
  unfold replace. cbn [scan_sub]. unfold match_literal at 1.
  now rewrite H.
Qed.

Lemma replace_absent (old new s : str) :
  old <> [] -> contains old s = false -> replace old new s = s.
Proof.
  intros Hold. induction s as [|c s IH]; intros H.
  - now apply replace_nil.
  - rewrite contains_cons in H. apply orb_false_iff in H.
    destruct H as [H1 H2]. rewrite replace_no_match by assumption.
    now rewrite IH.
Qed.

Lemma replace_Forall (P : ascii -> Prop) (old new s : str) :
  old <> [] -> Forall P new -> Forall P s -> Forall P (replace old new s).
Proof.
  destruct old as [|o old]; [congruence | intros _ Hn Hs].
  unfold replace. now apply scan_sub_Forall.
Qed.

(** A phrase whose first character occurs nowhere else in it cannot
    overlap a later copy of itself. *)
Lemma no_overlap (c : ascii) (p a r : str) :
  ~ In c p -> a <> [] -> length a <= length p ->
  startswith (c :: p) (a ++ c :: r) = false.
Proof.
  intros Hc Ha Hlen.
  destruct (startswith (c :: p) (a ++ c :: r)) eqn:E; [|reflexivity].
  exfalso. apply startswith_iff in E. destruct E as [q E].
  destruct a as [|x a]; [congruence|].
  simpl in E. inversion E as [[Hx E']]. subst x. clear E Ha.
  simpl in Hlen. apply Hc.
  assert (H : forall (p a : str), length a < length p ->
            forall q, a ++ c :: r = p ++ q -> In c p).
  { clear. induction p as [|y p IH]; intros a Hl q H; simpl in Hl; [lia|].
    destruct a as [|x a]; simpl in H; inversion H; subst.
    - now left.
    - right. eapply (IH a); [simpl in Hl; lia | eassumption]. }
  eapply (H p a); [lia | eassumption].
Qed.

(** The leftmost occurrence of such a phrase is cut out wherever it
    stands, and the scan goes on behind it. *)
Lemma replace_first_occurrence (c : ascii) (p new a b : str) :
  ~ In c p -> contains (c :: p) a = false ->
  replace (c :: p) new (a ++ (c :: p) ++ b)
  = a ++ new ++ replace (c :: p) new b.
Proof.
  intros Hc. induction a as [|x a IH]; intros Ha.
  - change ([] ++ (c :: p) ++ b) with ((c :: p) ++ b).
    rewrite replace_match by discriminate. reflexivity.
  - rewrite contains_cons in Ha. apply orb_false_iff in Ha.
    destruct Ha as [Hhd Htl].
    change ((x :: a) ++ (c :: p) ++ b) with (x :: (a ++ (c :: p) ++ b)).
    rewrite replace_no_match; [now rewrite IH | discriminate |].
    destruct (Nat.le_gt_cases (length (x :: a)) (length p)) as [Hl | Hl].
    + change (x :: a ++ (c :: p) ++ b) with ((x :: a) ++ c :: (p ++ b)).
      apply no_overlap; [assumption | discriminate | assumption].
    + destruct (startswith (c :: p) (x :: a ++ (c :: p) ++ b)) eqn:E;
        [|reflexivity].
      exfalso. apply startswith_iff in E. destruct E as [q E].
      assert (Hpre : startswith (c :: p) (x :: a) = true).
      { apply startswith_iff.
        exists (skipn (length (c :: p)) (x :: a)).
        rewrite <- (firstn_skipn (length (c :: p)) (x :: a)) at 1.
        f_equal.
        change (x :: a ++ (c :: p) ++ b) with ((x :: a) ++ (c :: p) ++ b) in E.
        apply (f_equal (firstn (length (c :: p)))) in E.
        rewrite firstn_app in E.
        replace (length (c :: p) - length (x :: a)) with 0 in E
          by (simpl in *; lia).
        rewrite firstn_O, app_nil_r in E. rewrite E.
        rewrite firstn_app, Nat.sub_diag, firstn_O, app_nil_r.
        now rewrite firstn_all. }
      congruence.
Qed.

(** ** [strip] *)

Lemma drop_while_split (p : ascii -> bool) (s : str) :
  exists a, s = a ++ drop_while p s.
Proof.
  induction s as [|c s [a IH]]; simpl.
  - exists []. reflexivity.
  - destruct (p c).
    + exists (c :: a). simpl. now rewrite <- IH.
    + exists []. reflexivity.
Qed.

Lemma drop_while_fixed (p : ascii -> bool) (s : str) :
  match s with [] => True | c :: _ => p c = false end ->
  drop_while p s = s.
Proof. destruct s as [|c s]; simpl; [reflexivity | now intros ->]. Qed.

Lemma drop_while_head (p : ascii -> bool) (s : str) :
  match drop_while p s with [] => True | c :: _ => p c = false end.
Proof.
  induction s as [|c s IH]; simpl; [exact I|].
  destruct (p c) eqn:E; [exact IH | exact E].
Qed.

Lemma drop_while_idem (p : ascii -> bool) (s : str) :
  drop_while p (drop_while p s) = drop_while p s.
Proof. apply drop_while_fixed, drop_while_head. Qed.

Lemma drop_while_Forall (P : ascii -> Prop) (p : ascii -> bool) (s : str) :
  Forall P s -> Forall P (drop_while p s).
Proof.
  intros H. destruct (drop_while_split p s) as [a E].
  rewrite E in H. now apply Forall_app in H.
Qed.

Lemma strip_Forall (P : ascii -> Prop) (s : str) :
  Forall P s -> Forall P (strip s).
Proof.
  intros H. unfold strip, rstrip, lstrip.
  apply Forall_rev, drop_while_Forall, Forall_rev, drop_while_Forall, H.
Qed.

(** A stripped text starts and ends with a character that is not
    whitespace, so stripping it again changes nothing. *)
Lemma strip_idem (s : str) : strip (strip s) = strip s.
Proof.
  unfold strip, rstrip, lstrip.
  set (x := drop_while is_space s).
  set (y := drop_while is_space (rev x)).
  assert (Hx : match x with [] => True | c :: _ => is_space c = false end)
    by apply drop_while_head.
  assert (Hy : drop_while is_space (rev y) = rev y).
  { apply drop_while_fixed.
    destruct (drop_while_split is_space (rev x)) as [a E]. fold y in E.
    apply (f_equal (@rev ascii)) in E.
    rewrite rev_involutive, rev_app_distr in E.
    destruct (rev y) as [|c r]; [exact I|].
    rewrite E in Hx. exact Hx. }
  rewrite Hy, rev_involutive. unfold y at 1.
  now rewrite drop_while_idem.
Qed.

(** ** Deleting characters *)

Lemma subsequence_refl (s : str) : subsequence s s.
Proof. induction s; constructor; assumption. Qed.

Lemma subsequence_nil (s : str) : subsequence [] s.
Proof. induction s; constructor; assumption. Qed.

Lemma subsequence_trans (a b c : str) :
  subsequence a b -> subsequence b c -> subsequence a c.
Proof.
  intros Hab Hbc. revert a Hab.
  induction Hbc as [|x b c Hbc IH|x b c Hbc IH]; intros a Hab.
  - exact Hab.
  - inversion Hab; subst.
    + constructor. now apply IH.
    + apply sub_drop. now apply IH.
  - apply sub_drop. now apply IH.
Qed.

Lemma subsequence_app (a b c d : str) :
  subsequence a b -> subsequence c d -> subsequence (a ++ c) (b ++ d).
Proof.
  induction 1; intros Hcd; simpl; try constructor; auto.
Qed.

Lemma subsequence_rev (a b : str) :
  subsequence a b -> subsequence (rev a) (rev b).
Proof.
  induction 1 as [|c a b H IH|c a b H IH]; simpl.
  - constructor.
  - apply subsequence_app; [exact IH | apply subsequence_refl].
  - rewrite <- (app_nil_r (rev a)).
    apply subsequence_app; [exact IH | apply subsequence_nil].
Qed.

Lemma subsequence_length (a b : str) :
  subsequence a b -> length a <= length b.
Proof. induction 1; simpl; lia. Qed.

Lemma drop_while_subsequence (p : ascii -> bool) (s : str) :
  subsequence (drop_while p s) s.
Proof.
  induction s as [|c s IH]; simpl; [constructor|].
  destruct (p c); [now apply sub_drop | apply subsequence_refl].
Qed.

Lemma strip_subsequence (s : str) : subsequence (strip s) s.
Proof.
  unfold strip, rstrip, lstrip.
  apply subsequence_trans with (b := drop_while is_space s);
    [|apply drop_while_subsequence].
  rewrite <- (rev_involutive (drop_while is_space s)) at 2.
  apply subsequence_rev, drop_while_subsequence.
Qed.

Lemma scan_sub_subsequence (m : str -> option nat) (k : nat) (s : str) :
  subsequence (scan_sub m [] k s) s.
Proof.
  revert k. induction s as [|c s IH]; intros k; simpl; [constructor|].
  destruct k as [|k]; [|apply sub_drop, IH].
  destruct (m (c :: s)) as [[|j]|]; simpl.
  - apply sub_keep, IH.
  - apply sub_drop, IH.
  - apply sub_keep, IH.
Qed.

Lemma replace_subsequence (old s : str) : subsequence (replace old [] s) s.
Proof.
  destruct old as [|o old]; simpl.
  - induction s as [|c s IH]; simpl; constructor; assumption.
  - apply scan_sub_subsequence.
Qed.

(** ** The clean-up of the transcript *)

Lemma boilerplate_unbordered (p : str) :
  In p boilerplate_phrases ->
  exists c r, p = c :: r /\ ~ In c r.
Proof.
  intros [<- | [<- | [<- | []]]];
    eexists; eexists; (split; [reflexivity|]);
    intros H; repeat (destruct H as [H | H]; [discriminate H|]); exact H.
Qed.

Lemma boilerplate_absent_fixed (s : str) :
  (forall q, In q boilerplate_phrases -> contains q s = false) ->
  strip_boilerplate s = strip s.
Proof.
  intros H. unfold strip_boilerplate.
  rewrite (replace_absent transcription_header),
          (replace_absent greeting_okay),
          (replace_absent greeting_heres);
    try discriminate; try reflexivity; apply H; simpl; auto.
Qed.

Lemma bold_label_contains_plain (s : str) :
  contains (py "Speaker 1:") s = false ->
  contains (py "**Speaker 1:**") s = false.
Proof.
  intros H. destruct (contains (py "**Speaker 1:**") s) eqn:E; [|reflexivity].
  rewrite (contains_trans (py "Speaker 1:") (py "**Speaker 1:**") s) in H;
    [discriminate | reflexivity | exact E].
Qed.

Lemma collapse_stripped (s : str) :
  strip s = s -> strip (collapse_single_speaker s) = collapse_single_speaker s.
Proof.
  intros H. unfold collapse_single_speaker.
  destruct (length (speaker_labels s) =? 1); [apply strip_idem | exact H].
Qed.

Lemma normalize_stripped (t : str) :
  strip (normalize_transcript t) = normalize_transcript t.
Proof.
  unfold normalize_transcript. apply collapse_stripped.
  unfold strip_boilerplate. apply strip_idem.
Qed.

Lemma boilerplate_cut (p a b : str) :
  In p boilerplate_phrases ->
  contains p (a ++ b) = false ->
  replace p [] (a ++ p ++ b) = a ++ b.
Proof.
  intros Hp Hab.
  destruct (boilerplate_unbordered p Hp) as [c [r [-> Hc]]].
  destruct (contains_absent_app _ _ _ Hab) as [Ha Hb].
  rewrite (replace_first_occurrence c r [] a b Hc Ha).
  rewrite replace_absent by (discriminate || assumption).
  reflexivity.
Qed.

(** C4, as stated, fails: a header in the middle of the raw text is not a
    prefix of it and is removed all the same. *)
Lemma boilerplate_removed_mid_text :
  let t := py "Hello" ++ [nl] ++ transcription_header ++ py "World" in
  startswith transcription_header t = false /\
  contains transcription_header t = true /\
  normalize_transcript t = py "Hello" ++ [nl] ++ py "World" /\
  contains transcription_header (normalize_transcript t) = false.
Proof. repeat split; vm_compute; reflexivity. Qed.

(** C4, amended: a boilerplate phrase is removed wherever it stands in the
    raw text, as a prefix or not.  For a text [a ++ p ++ b] with [p] one
    of the three phrases and no other boilerplate around it, lines 213 to
    216 return [a ++ b], stripped, and the whole clean-up treats the text
    as it treats [a ++ b]. *)
Theorem boilerplate_removed_anywhere (p a b : str) :
  In p boilerplate_phrases ->
  (forall q, In q boilerplate_phrases -> contains q (a ++ b) = false) ->
  (forall q, In q boilerplate_phrases -> q <> p ->
             contains q (a ++ p ++ b) = false) ->
  strip_boilerplate (a ++ p ++ b) = strip (a ++ b) /\
  normalize_transcript (a ++ p ++ b) = normalize_transcript (a ++ b).
Proof.
  intros Hp Hrest Hother.
  assert (Hcut : strip_boilerplate (a ++ p ++ b) = strip (a ++ b)).
  { assert (Hh : In transcription_header boilerplate_phrases) by (simpl; auto).
    assert (Ho : In greeting_okay boilerplate_phrases) by (simpl; auto).
    assert (Hg : In greeting_heres boilerplate_phrases) by (simpl; auto).
    unfold strip_boilerplate.
    destruct Hp as [<- | [<- | [<- | []]]].
    - rewrite boilerplate_cut by auto.
      rewrite (replace_absent greeting_okay),
              (replace_absent greeting_heres);
        try discriminate; auto.
    - rewrite (replace_absent transcription_header);
        [| discriminate | apply Hother; [exact Hh | discriminate]].
      rewrite boilerplate_cut by auto.
      rewrite (replace_absent greeting_heres);
        try discriminate; auto.
    - rewrite (replace_absent transcription_header);
        [| discriminate | apply Hother; [exact Hh | discriminate]].
      rewrite (replace_absent greeting_okay);
        [| discriminate | apply Hother; [exact Ho | discriminate]].
      rewrite boilerplate_cut by auto. reflexivity. }
  split; [exact Hcut|].
  unfold normalize_transcript.
  now rewrite Hcut, boilerplate_absent_fixed.
Qed.

Lemma boilerplate_removed_anywhere_witness :
  strip_boilerplate
    ((py "Hello" ++ [nl]) ++ transcription_header ++ py "World")
  = strip ((py "Hello" ++ [nl]) ++ py "World").
Proof.
  apply (boilerplate_removed_anywhere
           transcription_header (py "Hello" ++ [nl]) (py "World")).
  - simpl. auto.
  - intros q [<- | [<- | [<- | []]]]; vm_compute; reflexivity.
  - intros q [<- | [<- | [<- | []]]] Hq;
      solve [vm_compute; reflexivity | exfalso; apply Hq; reflexivity].
Defined.

(** C3, as stated, fails: cutting the inner label out of
    [Speaker Speaker 1:1:] joins the rest into a new label, which only a
    second pass removes. *)
Lemma normalization_not_idempotent :
  let t := py "Speaker Speaker 1:1: hi" in
  normalize_transcript t = py "Speaker 1: hi" /\
  normalize_transcript (normalize_transcript t) = py "hi" /\
  normalize_transcript (normalize_transcript t) <> normalize_transcript t.
Proof. repeat split; vm_compute; [reflexivity .. | discriminate]. Qed.

(** C3, amended: normalization is idempotent on every text whose
    normalized form holds none of the three boilerplate phrases and, when
    exactly one speaker is detected in it, no [Speaker 1:] label; a second
    pass then finds nothing to remove. *)
Theorem normalize_idempotent_when_settled (t : str) :
  let u := normalize_transcript t in
  (forall q, In q boilerplate_phrases -> contains q u = false) ->
  (length (speaker_labels u) = 1 -> contains (py "Speaker 1:") u = false) ->
  normalize_transcript u = u.
Proof.
  intros u Hboiler Hlabel.
  assert (Hu : strip u = u) by apply normalize_stripped.
  unfold normalize_transcript at 1.
  rewrite boilerplate_absent_fixed by exact Hboiler.
  rewrite Hu. unfold collapse_single_speaker.
  destruct (length (speaker_labels u) =? 1) eqn:E; [|reflexivity].
  apply Nat.eqb_eq in E. specialize (Hlabel E).
  rewrite (replace_absent (py "**Speaker 1:**"));
    [| discriminate | now apply bold_label_contains_plain].
  rewrite (replace_absent (py "Speaker 1:"));
    [exact Hu | discriminate | exact Hlabel].
Qed.

Lemma normalize_idempotent_when_settled_witness :
  let t := py "Speaker 1: hello there" in
  normalize_transcript (normalize_transcript t) = normalize_transcript t.
Proof.
  apply (normalize_idempotent_when_settled (py "Speaker 1: hello there")).
  - intros q [<- | [<- | [<- | []]]]; vm_compute; reflexivity.
  - intros _. vm_compute. reflexivity.
Defined.

(** ** Speaker detection *)

Lemma fold_add_In (line : str) (l : list nat) (acc : set nat) (i : nat) :
  In i (fold_left
          (fun acc i =>
             if contains (speaker_label i) line
                || contains (bold_speaker_label i) line
             then set_add Nat.eq_dec i acc else acc) l acc)
  <-> In i acc \/ (In i l /\ mentions i line = true).
Proof.
  revert acc. induction l as [|x l IH]; intros acc; simpl.
  - tauto.
  - rewrite IH. fold (mentions x line).
    destruct (mentions x line) eqn:E.
    + rewrite set_add_iff. split.
      * intros [[-> | H] | [H1 H2]]; auto.
      * intros [H | [[-> | H1] H2]]; auto.
    + split.
      * intros [H | [H1 H2]]; auto.
      * intros [H | [[-> | H1] H2]]; auto. congruence.
Qed.

Lemma fold_add_NoDup (line : str) (l : list nat) (acc : set nat) :
  NoDup acc ->
  NoDup (fold_left
           (fun acc i =>
              if contains (speaker_label i) line
                 || contains (bold_speaker_label i) line
              then set_add Nat.eq_dec i acc else acc) l acc).
Proof.
  revert acc. induction l as [|x l IH]; intros acc H; simpl; [exact H|].
  apply IH. destruct (_ || _); [now apply set_add_nodup | exact H].
Qed.

Lemma add_line_speakers_In (line : str) (acc : set nat) (i : nat) :
  In i (add_line_speakers line acc)
  <-> In i acc \/ (In i (seq 1 9) /\ mentions i line = true).
Proof. apply fold_add_In. Qed.

Lemma scan_lines_In (lines : list str) (acc : set nat) (i : nat) :
  In i (fold_left
          (fun acc line =>
             if is_label_line line then add_line_speakers line acc else acc)
          lines acc)
  <-> In i acc \/
      exists line, In line lines /\ is_label_line line = true /\
                   In i (seq 1 9) /\ mentions i line = true.
Proof.
  revert acc. induction lines as [|l lines IH]; intros acc; simpl.
  - split; [auto | intros [H | [line [[] _]]]; exact H].
  - rewrite IH. destruct (is_label_line l) eqn:E.
    + rewrite add_line_speakers_In. split.
      * intros [[H | [H1 H2]] | [line [H1 H2]]]; auto.
        -- right. exists l. auto.
        -- right. exists line. auto.
      * intros [H | [line [[<- | H1] [H2 [H3 H4]]]]]; auto.
        right. exists line. auto.
    + split.
      * intros [H | [line [H1 H2]]]; auto. right. exists line. auto.
      * intros [H | [line [[<- | H1] [H2 H3]]]]; auto; [congruence|].
        right. exists line. auto.
Qed.

Lemma scan_lines_NoDup (lines : list str) (acc : set nat) :
  NoDup acc ->
  NoDup (fold_left
           (fun acc line =>
              if is_label_line line then add_line_speakers line acc else acc)
           lines acc).
Proof.
  revert acc. induction lines as [|l lines IH]; intros acc H; simpl; [exact H|].
  apply IH. destruct (is_label_line l); [now apply fold_add_NoDup | exact H].
Qed.

(** The speaker numbers found are the numbers 1 to 9 whose label, plain
    or bold, occurs on a line that starts with [Speaker ] or
    [**Speaker ] once stripped. *)
Lemma speaker_labels_In (t : str) (i : nat) :
  In i (speaker_labels t)
  <-> exists line, In line (split_on nl t) /\ is_label_line line = true /\
                   In i (seq 1 9) /\ mentions i line = true.
Proof.
  unfold speaker_labels. rewrite scan_lines_In. split.
  - intros [[] | H]. exact H.
  - auto.
Qed.

Lemma speaker_labels_NoDup (t : str) : NoDup (speaker_labels t).
Proof. apply scan_lines_NoDup. constructor. Qed.

Lemma two_members_length (l : list nat) (a b : nat) :
  NoDup l -> In a l -> In b l -> a <> b -> 2 <= length l.
Proof.
  intros Hnd Ha Hb Hab.
  destruct l as [|x [|y l]]; simpl in *; lia.
Qed.

Lemma one_member_length (l : list nat) (a : nat) :
  NoDup l -> In a l -> (forall b, In b l -> b = a) -> length l = 1.
Proof.
  intros Hnd Ha Hall.
  destruct l as [|x [|y l]]; simpl in *; try tauto.
  exfalso. inversion Hnd as [|? ? Hx _]; subst. apply Hx.
  rewrite (Hall x), (Hall y); auto. now left.
Qed.

(** ** Lines and labels *)

Lemma split_on_first (sep : ascii) (s : str) :
  exists f fs b, split_on sep s = f :: fs /\ s = f ++ b.
Proof.
  induction s as [|c s [f [fs [b [E1 E2]]]]]; simpl.
  - exists [], [], []. auto.
  - destruct (chr_eqb c sep).
    + exists [], (split_on sep s), (c :: s). auto.
    + rewrite E1. exists (c :: f), fs, b. split; [reflexivity|].
      simpl. now rewrite <- E2.
Qed.

(** Every line of a text is a piece of it. *)
Lemma split_on_piece (sep : ascii) (s line : str) :
  In line (split_on sep s) -> exists a b, s = a ++ line ++ b.
Proof.
  induction s as [|c s IH]; simpl.
  - intros [<- | []]. exists [], []. reflexivity.
  - destruct (chr_eqb c sep).
    + intros [<- | H].
      * exists [], (c :: s). reflexivity.
      * destruct (IH H) as [a [b ->]]. exists (c :: a), b. reflexivity.
    + destruct (split_on_first sep s) as [f [fs [b [E1 E2]]]].
      rewrite E1 in *. intros [<- | H].
      * exists [], b. simpl. now rewrite <- E2.
      * destruct (IH (or_intror H)) as [a [b' ->]].
        exists (c :: a), b'. reflexivity.
Qed.

Lemma contains_in_line (sep : ascii) (x s line : str) :
  In line (split_on sep s) -> contains x line = true -> contains x s = true.
Proof.
  intros Hl Hx. apply (contains_trans x line s Hx).
  apply contains_iff. now apply split_on_piece with (sep := sep).
Qed.

Lemma bold_label_mentions_plain (i : nat) (line : str) :
  mentions i line = true -> contains (speaker_label i) line = true.
Proof.
  unfold mentions. intros H. apply orb_true_iff in H.
  destruct H as [H | H]; [exact H|].
  apply (contains_trans _ (bold_speaker_label i) _); [|exact H].
  apply contains_iff. exists (py "**"), (py "**").
  unfold bold_speaker_label, speaker_label.
  change (py "**Speaker ") with (py "**" ++ py "Speaker ").
  change (py ":**") with (py ":" ++ py "**").
  now rewrite <- !app_assoc.
Qed.

Lemma has_label_line_detected (i : nat) (u : str) :
  In i (seq 1 9) -> has_label_line i u = true -> In i (speaker_labels u).
Proof.
  intros Hi H. apply speaker_labels_In.
  apply existsb_exists in H. destruct H as [line [Hl H]].
  apply andb_true_iff in H. destruct H as [H1 H2].
  exists line. auto.
Qed.

(** ** Cutting the [Speaker 1:] labels out *)

Lemma startswith_contains (p s : str) :
  startswith p s = true -> contains p s = true.
Proof. intros H. destruct s; simpl; rewrite H; reflexivity. Qed.

Lemma startswith_within (p a r : str) :
  length p <= length a -> startswith p (a ++ r) = startswith p a.
Proof.
  revert a. induction p as [|x p IH]; intros a Hl; [reflexivity|].
  destruct a as [|y a]; simpl in Hl; [lia|].
  simpl. rewrite IH by lia. reflexivity.
Qed.

Lemma plain_label_cut_match (r : str) :
  replace (py "Speaker 1:") [] (py "Speaker 1:" ++ r)
  = replace (py "Speaker 1:") [] r.
Proof. now rewrite replace_match by discriminate. Qed.

Lemma plain_label_cut_other (c : ascii) (s : str) :
  startswith (py "Speaker 1:") (c :: s) = false ->
  replace (py "Speaker 1:") [] (c :: s)
  = c :: replace (py "Speaker 1:") [] s.
Proof. intros H. apply replace_no_match; [discriminate | exact H]. Qed.

(** The letter [S] stands at the head of the label and nowhere else in
    it. *)
Lemma label_head_once : ~ In "S"%char (py "peaker 1:").
Proof. simpl. intuition discriminate. Qed.

Lemma label_tail_is_proper (x rest : str) :
  py "Speaker 1:" = x ++ "S"%char :: rest -> x = [].
Proof.
  intros E. destruct x as [|c x]; [reflexivity|]. exfalso.
  change (py "Speaker 1:") with ("S"%char :: py "peaker 1:") in E.
  injection E as _ E. apply label_head_once.
  assert (H := in_elt "S"%char x rest). rewrite <- E in H. exact H.
Qed.

(** What the cut text starts with is spelled across the labels of the
    text. *)
Lemma cut_text_spelled (n : nat) :
  forall s y, length s <= n ->
    startswith y (replace (py "Speaker 1:") [] s) = true ->
    spelled_across y s.
Proof.
  induction n as [|n IH]; intros s y Hn H.
  - destruct s; [|simpl in Hn; lia].
    destruct y; [constructor | discriminate H].
  - destruct y as [|d y]; [constructor|].
    destruct s as [|c s]; [discriminate H|].
    destruct (startswith (py "Speaker 1:") (c :: s)) eqn:E.
    + apply startswith_iff in E. destruct E as [r E]. rewrite E in *.
      rewrite plain_label_cut_match in H. apply sa_skip. apply IH; [|exact H].
      rewrite length_app in Hn. simpl in Hn. lia.
    + rewrite plain_label_cut_other in H by exact E.
      simpl in H. apply andb_true_iff in H. destruct H as [Hc H].
      apply chr_eqb_eq in Hc. subst d. apply sa_char. apply IH; [|exact H].
      simpl in Hn. lia.
Qed.

(** A piece of the label spelled across labels is at the head of the
    cut text. *)
Lemma spelled_in_cut_text (y s : str) :
  spelled_across y s ->
  (exists x, py "Speaker 1:" = x ++ y) ->
  (y = py "Speaker 1:" -> startswith (py "Speaker 1:") s = false) ->
  startswith y (replace (py "Speaker 1:") [] s) = true.
Proof.
  induction 1 as [s | c rest s Hs IH | c rest s Hs IH]; intros [x Hx] Hy.
  - reflexivity.
  - assert (E : startswith (py "Speaker 1:") (c :: s) = false).
    { destruct (startswith (py "Speaker 1:") (c :: s)) eqn:E; [|reflexivity].
      apply Hy.
      assert (Hc : c = "S"%char).
      { apply startswith_iff in E. destruct E as [r E].
        now injection E as -> _. }
      subst c. apply label_tail_is_proper in Hx as Hnil. subst x.
      now rewrite Hx. }
    rewrite plain_label_cut_other by exact E.
    simpl. rewrite chr_eqb_refl. apply IH.
    + exists (x ++ [c]). now rewrite <- app_assoc.
    + intros Hrest. exfalso. apply (f_equal (@length ascii)) in Hx.
      rewrite Hrest, length_app in Hx. simpl in Hx. lia.
  - rewrite plain_label_cut_match. apply IH; [now exists x|].
    intros Hrest. exfalso. specialize (Hy Hrest).
    now rewrite startswith_app in Hy.
Qed.

(** No label of the text reaches across an [S] that begins a piece. *)
Lemma cut_text_app (n : nat) :
  forall a b, length a <= n ->
    replace (py "Speaker 1:") [] (a ++ "S"%char :: b)
    = replace (py "Speaker 1:") [] a
      ++ replace (py "Speaker 1:") [] ("S"%char :: b).
Proof.
  induction n as [|n IH]; intros a b Hn.
  - destruct a; [reflexivity | simpl in Hn; lia].
  - destruct a as [|c a]; [reflexivity|].
    destruct (startswith (py "Speaker 1:") ((c :: a) ++ "S"%char :: b)) eqn:E.
    + assert (Ha : startswith (py "Speaker 1:") (c :: a) = true).
      { destruct (Nat.le_gt_cases (length (c :: a)) 9) as [Hl | Hl].
        - assert (F : startswith (py "Speaker 1:")
                                 ((c :: a) ++ "S"%char :: b) = false)
            by (apply (no_overlap "S"%char (py "peaker 1:") (c :: a) b);
                [apply label_head_once | discriminate | exact Hl]).
          congruence.
        - rewrite startswith_within in E by (simpl in *; lia). exact E. }
      apply startswith_iff in Ha. destruct Ha as [r Ha]. rewrite Ha.
      rewrite <- app_assoc, !plain_label_cut_match. apply IH.
      apply (f_equal (@length ascii)) in Ha. rewrite length_app in Ha.
      simpl in Ha, Hn. lia.
    + assert (Ha : startswith (py "Speaker 1:") (c :: a) = false).
      { destruct (startswith (py "Speaker 1:") (c :: a)) eqn:Ha;
          [|reflexivity].
        apply startswith_app_r with (r := "S"%char :: b) in Ha. congruence. }
      change ((c :: a) ++ "S"%char :: b) with (c :: (a ++ "S"%char :: b)) in *.
      rewrite !plain_label_cut_other by assumption.
      rewrite IH by (simpl in Hn; lia). reflexivity.
Qed.

(** A label is left in the cut text exactly when the text holds a label
    cut in pieces by labels. *)
Lemma label_left_iff_joined (v : str) :
  contains (py "Speaker 1:") (replace (py "Speaker 1:") [] v) = true
  <-> joined_label v.
Proof.
  split.
  - remember (length v) as n eqn:Hn. assert (Hl : length v <= n) by lia.
    clear Hn. revert v Hl.
    induction n as [|n IH]; intros v Hl H.
    + destruct v; [discriminate H | simpl in Hl; lia].
    + destruct v as [|c v]; [discriminate H|].
      destruct (startswith (py "Speaker 1:") (c :: v)) eqn:E.
      * apply startswith_iff in E. destruct E as [r E]. rewrite E in *.
        rewrite plain_label_cut_match in H.
        destruct (IH r) as [a [b [Hab [Hb Hsp]]]]; [|exact H|].
        { rewrite length_app in Hl. simpl in Hl. lia. }
        exists (py "Speaker 1:" ++ a), b.
        split; [now rewrite Hab, app_assoc | now split].
      * rewrite plain_label_cut_other in H by exact E.
        rewrite contains_cons in H. apply orb_true_iff in H.
        destruct H as [H | H].
        -- exists [], (c :: v). split; [reflexivity|]. split; [exact E|].
           apply (cut_text_spelled (length (c :: v))); [lia|].
           now rewrite plain_label_cut_other by exact E.
        -- destruct (IH v) as [a [b [Hab [Hb Hsp]]]];
             [simpl in Hl; lia | exact H |].
           exists (c :: a), b. split; [now rewrite Hab | now split].
  - intros [a [b [-> [Hb Hsp]]]].
    assert (Hcut : startswith (py "Speaker 1:")
                     (replace (py "Speaker 1:") [] b) = true).
    { apply spelled_in_cut_text; [exact Hsp | now exists [] | now intros _]. }
    assert (Hhead : exists b', b = "S"%char :: b').
    { inversion Hsp as [| c rest s Hs | c rest s Hs]; subst.
      - now eexists.
      - now rewrite startswith_app in Hb. }
    destruct Hhead as [b' ->].
    rewrite (cut_text_app (length a)) by lia.
    apply contains_app_r, startswith_contains, Hcut.
Qed.

(** ** Trimming keeps the labels *)

Lemma drop_while_keeps (p : ascii -> bool) (a : str) (c : ascii) (r : str) :
  p c = false -> exists a', drop_while p (a ++ c :: r) = a' ++ c :: r.
Proof.
  intros Hc. induction a as [|x a IH]; simpl.
  - rewrite Hc. now exists [].
  - destruct (p x); [exact IH | now exists (x :: a)].
Qed.

Lemma strip_piece (s : str) : exists a b, s = a ++ strip s ++ b.
Proof.
  unfold strip, rstrip, lstrip.
  destruct (drop_while_split is_space s) as [a Ha].
  destruct (drop_while_split is_space (rev (drop_while is_space s)))
    as [b Hb].
  exists a, (rev b). rewrite <- rev_app_distr, <- Hb, rev_involutive.
  exact Ha.
Qed.

Lemma contains_rev (p s : str) :
  contains p s = true -> contains (rev p) (rev s) = true.
Proof.
  intros H. apply contains_iff in H. destruct H as [a [b ->]].
  apply contains_iff. exists (rev b), (rev a).
  now rewrite !rev_app_distr, app_assoc.
Qed.

Lemma drop_while_keeps_piece (p : ascii -> bool) (c : ascii) (q s : str) :
  p c = false -> contains (c :: q) s = true ->
  contains (c :: q) (drop_while p s) = true.
Proof.
  intros Hc H. apply contains_iff in H. destruct H as [a [b ->]].
  change ((c :: q) ++ b) with (c :: (q ++ b)).
  destruct (drop_while_keeps p a c (q ++ b) Hc) as [a' ->].
  apply contains_iff. now exists a', b.
Qed.

Lemma strip_keeps_label (s : str) :
  contains (py "Speaker 1:") (strip s) = contains (py "Speaker 1:") s.
Proof.
  destruct (contains (py "Speaker 1:") s) eqn:E.
  - unfold strip, rstrip, lstrip.
    change (py "Speaker 1:") with (rev (rev (py "Speaker 1:"))).
    apply contains_rev.
    change (rev (py "Speaker 1:")) with (":"%char :: rev (py "Speaker 1")).
    apply drop_while_keeps_piece; [reflexivity|].
    change (":"%char :: rev (py "Speaker 1")) with (rev (py "Speaker 1:")).
    apply contains_rev.
    change (py "Speaker 1:") with ("S"%char :: py "peaker 1:").
    apply drop_while_keeps_piece; [reflexivity|]. exact E.
  - destruct (contains (py "Speaker 1:") (strip s)) eqn:F; [|reflexivity].
    destruct (strip_piece s) as [a [b Hs]].
    rewrite Hs in E. apply contains_absent_app in E. destruct E as [_ E].
    apply contains_absent_app in E. destruct E as [E _]. congruence.
Qed.

(** ** The speakers found *)

Lemma detected_iff (u : str) (i : nat) :
  In i (speaker_labels u) <-> In i (seq 1 9) /\ has_label_line i u = true.
Proof.
  rewrite speaker_labels_In. unfold has_label_line. rewrite existsb_exists.
  split.
  - intros [line [Hl [H1 [H2 H3]]]]. split; [exact H2|].
    exists line. split; [exact Hl|]. now rewrite H1, H3.
  - intros [H2 [line [Hl H]]]. apply andb_true_iff in H.
    destruct H as [H1 H3]. exists line. auto.
Qed.

Lemma same_members_length (l m : list nat) :
  NoDup l -> NoDup m -> (forall i, In i l <-> In i m) ->
  length l = length m.
Proof.
  intros Hl Hm H.
  apply Nat.le_antisymm; apply NoDup_incl_length; try assumption;
    intros i Hi; now apply H.
Qed.

Lemma detected_length (u : str) :
  length (speaker_labels u) = length (speakers_at_line_start u).
Proof.
  apply same_members_length.
  - apply speaker_labels_NoDup.
  - apply NoDup_filter, seq_NoDup.
  - intros i. rewrite detected_iff. unfold speakers_at_line_start.
    now rewrite filter_In.
Qed.

Lemma only_speaker_1_found (u : str) :
  (forall i, In i (seq 2 8) -> has_label_line i u = false) ->
  length (speaker_labels u) = if has_label_line 1 u then 1 else 0.
Proof.
  intros Hothers.
  assert (Hmem : forall i, In i (speaker_labels u) ->
                           i = 1 /\ has_label_line 1 u = true).
  { intros i Hi. apply detected_iff in Hi. destruct Hi as [Hr Hi].
    change (seq 1 9) with (1 :: seq 2 8) in Hr. destruct Hr as [<- | Hr].
    - now split.
    - rewrite (Hothers i Hr) in Hi. discriminate Hi. }
  destruct (has_label_line 1 u) eqn:E.
  - apply (one_member_length _ 1).
    + apply speaker_labels_NoDup.
    + apply detected_iff. split; [now left | exact E].
    + intros b Hb. now apply Hmem.
  - destruct (speaker_labels u) as [|i l]; [reflexivity|].
    destruct (Hmem i) as [_ H]; [now left | discriminate H].
Qed.

(** ** Cutting never lengthens *)

Lemma replace_not_longer (old s : str) :
  length (replace old [] s) <= length s.
Proof. apply subsequence_length, replace_subsequence. Qed.

Lemma replace_shrinks (o : ascii) (old : str) (n : nat) :
  forall s, length s <= n -> contains (o :: old) s = true ->
            length (replace (o :: old) [] s) < length s.
Proof.
  induction n as [|n IH]; intros s Hn H.
  - destruct s; [discriminate H | simpl in Hn; lia].
  - destruct s as [|c s]; [discriminate H|].
    destruct (startswith (o :: old) (c :: s)) eqn:E.
    + apply startswith_iff in E. destruct E as [r E]. rewrite E.
      rewrite replace_match by discriminate.
      pose proof (replace_not_longer (o :: old) r).
      rewrite !length_app. cbn [length app]. lia.
    + rewrite replace_no_match by (discriminate || exact E).
      rewrite contains_cons, E in H. cbn [orb] in H.
      cbn [length]. apply -> Nat.succ_lt_mono.
      apply IH; [simpl in Hn; lia | exact H].
Qed.

Lemma labels_cut_shorter (u : str) :
  contains (py "Speaker 1:") u = true ->
  length (strip (replace (py "Speaker 1:") []
                   (replace (py "**Speaker 1:**") [] u)))
  < length u.
Proof.
  intros H.
  set (v := replace (py "**Speaker 1:**") [] u).
  pose proof (subsequence_length _ _
                (strip_subsequence (replace (py "Speaker 1:") [] v))) as Hs.
  pose proof (replace_not_longer (py "Speaker 1:") v) as Hv.
  destruct (contains (py "**Speaker 1:**") u) eqn:E.
  - pose proof (replace_shrinks "*"%char (py "*Speaker 1:**") (length u) u
                  (Nat.le_refl _) E) as Hu.
    change ("*"%char :: py "*Speaker 1:**") with (py "**Speaker 1:**") in Hu.
    fold v in Hu. lia.
  - assert (Hvu : v = u) by (apply replace_absent; [discriminate | exact E]).
    pose proof (replace_shrinks "S"%char (py "peaker 1:") (length u) u
                  (Nat.le_refl _) H) as Hu.
    change ("S"%char :: py "peaker 1:") with (py "Speaker 1:") in Hu.
    rewrite Hvu in *. lia.
Qed.

Lemma spelled_first_skip (y s : str) :
  spelled_across y s ->
  startswith y s = true \/
  exists x y' s',
    y = x ++ y' /\ y' <> [] /\ s = x ++ py "Speaker 1:" ++ s'.
Proof.
  induction 1 as [s | c rest s Hs IH | c rest s Hs IH].
  - now left.
  - destruct IH as [IH | [x [y' [s' [-> [Hy ->]]]]]].
    + left. simpl. now rewrite chr_eqb_refl.
    + right. exists (c :: x), y', s'. auto.
  - right. exists [], (c :: rest), s. repeat split. discriminate.
Qed.

(** A joined label shows where it stands: a label directly follows the
    beginning of one. *)
Lemma joined_label_local (v : str) :
  joined_label v ->
  exists x, In x label_beginnings /\
            contains (x ++ py "Speaker 1:") v = true.
Proof.
  intros [a [b [-> [Hb Hsp]]]].
  destruct (spelled_first_skip _ _ Hsp) as [H | [x [y' [s' [Hx [Hy ->]]]]]];
    [congruence|].
  exists x. split.
  - assert (Hlen : length x + length y' = 10).
    { apply (f_equal (@length ascii)) in Hx. rewrite length_app in Hx.
      symmetry. exact Hx. }
    assert (Hx1 : x <> []).
    { intros ->. cbn [app] in Hb. now rewrite startswith_app in Hb. }
    assert (Hfirst : x = firstn (length x) (py "Speaker 1:")).
    { rewrite Hx.
      now rewrite firstn_app, Nat.sub_diag, firstn_O, app_nil_r, firstn_all. }
    rewrite Hfirst. unfold label_beginnings.
    apply in_map with (f := fun n => firstn n (py "Speaker 1:")).
    apply in_seq. destruct x; [now elim Hx1|]. destruct y'; [now elim Hy|].
    simpl in *. lia.
  - apply contains_iff. exists a, s'. now rewrite <- app_assoc.
Qed.

Lemma apart_not_joined (v : str) :
  labels_stand_apart v = true -> ~ joined_label v.
Proof.
  intros H Hj. destruct (joined_label_local v Hj) as [x [Hx Hc]].
  unfold labels_stand_apart in H. rewrite forallb_forall in H.
  specialize (H x Hx). rewrite Hc in H. discriminate H.
Qed.

(** C2, as stated, fails.  A label that never stands at the start of a
    line is not detected, so nothing is removed; cutting the inner label
    out of [Speaker Speaker 1:1:] leaves a label behind; and when the
    [Speaker 2:] label is not at a line start, only speaker 1 is detected
    and the [Speaker 1:] label is removed from a two-speaker text. *)
Lemma single_speaker_collapse_fails :
  normalize_transcript (py "He said Speaker 1: hello")
    = py "He said Speaker 1: hello" /\
  normalize_transcript (py "Speaker Speaker 1:1: hi") = py "Speaker 1: hi" /\
  normalize_transcript (py "Speaker 1: hi" ++ [nl] ++ py "then Speaker 2: bye")
    = py "hi" ++ [nl] ++ py "then Speaker 2: bye".
Proof. repeat split; vm_compute; reflexivity. Qed.

(** C2, amended.  Write [u] for the text after boilerplate removal and
    trimming, and call label line a line that starts, once stripped,
    with [Speaker ] or [**Speaker ].

    When no label line of [u] carries a label of a speaker 2 to 9, the
    output has no occurrence of [Speaker 1:] or [**Speaker 1:**] in
    exactly two cases: some label line carries a [Speaker 1:] label and
    [u], its bold labels cut out, holds no [Speaker 1:] label cut in
    pieces by [Speaker 1:] labels; or no label line carries one and [u]
    has no [Speaker 1:] at all.

    When a label line carries a [Speaker 1:] label and a label line a
    [Speaker 2:] label, the output is [u] itself: all labels stay.  More
    generally, when [u] has a [Speaker 1:] label, the output is [u]
    exactly when the number of speakers with a label line is not one. *)
Theorem single_speaker_collapse (t : str) :
  let u := strip_boilerplate t in
  let out := normalize_transcript t in
  ((forall i, In i (seq 2 8) -> has_label_line i u = false) ->
   (contains (py "Speaker 1:") out = false /\
    contains (py "**Speaker 1:**") out = false
    <-> if has_label_line 1 u
        then ~ joined_label (replace (py "**Speaker 1:**") [] u)
        else contains (py "Speaker 1:") u = false)) /\
  (has_label_line 1 u = true -> has_label_line 2 u = true -> out = u) /\
  (contains (py "Speaker 1:") u = true ->
   (out = u <-> length (speakers_at_line_start u) <> 1)).
Proof.
  intros u out. split; [|split].
  - intros Hothers. apply only_speaker_1_found in Hothers.
    unfold out, normalize_transcript, collapse_single_speaker. fold u.
    rewrite Hothers. destruct (has_label_line 1 u); cbn [Nat.eqb]; cbv zeta.
    + rewrite strip_keeps_label. split.
      * intros [H _] Hj. apply label_left_iff_joined in Hj. congruence.
      * intros Hj.
        assert (H : contains (py "Speaker 1:")
                      (replace (py "Speaker 1:") []
                         (replace (py "**Speaker 1:**") [] u)) = false).
        { destruct (contains _ _) eqn:E; [|reflexivity].
          exfalso. apply Hj. now apply label_left_iff_joined. }
        split; [exact H|]. apply bold_label_contains_plain.
        now rewrite strip_keeps_label.
    + split; [now intros [H _]|].
      intros H. split; [exact H | now apply bold_label_contains_plain].
  - intros H1 H2.
    assert (Hlen : 2 <= length (speaker_labels u)).
    { apply (two_members_length _ 1 2).
      - apply speaker_labels_NoDup.
      - apply has_label_line_detected; [simpl; auto | exact H1].
      - apply has_label_line_detected; [simpl; auto | exact H2].
      - discriminate. }
    unfold out, normalize_transcript, collapse_single_speaker. fold u.
    destruct (length (speaker_labels u) =? 1) eqn:E; [|reflexivity].
    apply Nat.eqb_eq in E. lia.
  - intros H. rewrite <- detected_length.
    unfold out, normalize_transcript, collapse_single_speaker. fold u.
    destruct (length (speaker_labels u) =? 1) eqn:E.
    + apply Nat.eqb_eq in E. split; [|intros Hn; now elim Hn].
      cbv zeta. intros Hout _.
      pose proof (labels_cut_shorter u H) as Hs. rewrite Hout in Hs. lia.
    + apply Nat.eqb_neq in E. split; [now intros _ | reflexivity].
Qed.

Lemma single_speaker_collapse_witness :
  (let t := py "Speaker 1: Meet at 10:30" ++ [nl] ++ py "  **Speaker 1:** again" in
   contains (py "Speaker 1:") (normalize_transcript t) = false /\
   contains (py "**Speaker 1:**") (normalize_transcript t) = false) /\
  (let t := py "Speaker 1: hi" ++ [nl] ++ py "Speaker 2: bye" in
   normalize_transcript t = strip_boilerplate t).
Proof.
  split.
  - destruct (single_speaker_collapse
                (py "Speaker 1: Meet at 10:30" ++ [nl]
                 ++ py "  **Speaker 1:** again")) as [H _].
    cbv zeta in *. apply H.
    + intros i Hi. simpl in Hi.
      repeat (destruct Hi as [<- | Hi]; [vm_compute; reflexivity|]).
      destruct Hi.
    + assert (E : has_label_line 1
                    (strip_boilerplate
                       (py "Speaker 1: Meet at 10:30" ++ [nl]
                        ++ py "  **Speaker 1:** again")) = true)
        by (vm_compute; reflexivity).
      rewrite E. apply apart_not_joined. vm_compute. reflexivity.
  - destruct (single_speaker_collapse
                (py "Speaker 1: hi" ++ [nl] ++ py "Speaker 2: bye"))
      as [_ [H _]].
    apply H; vm_compute; reflexivity.
Defined.

(** ** The description of a file name *)

Lemma unsafe_chars_removed (s : str) :
  Forall (fun c => kept_char c = true) (scan_sub match_unsafe_char [] 0 s).
Proof.
  induction s as [|c s IH]; simpl; [constructor|].
  fold (kept_char c). destruct (kept_char c) eqn:E; simpl.
  - constructor; assumption.
  - exact IH.
Qed.

Lemma runs_collapsed (s : str) (k : nat) :
  Forall (fun c => kept_char c = true) s ->
  Forall (fun c => is_word c = true)
         (scan_sub match_dash_space_run (py "_") k s).
Proof.
  revert k. induction s as [|c s IH]; intros k Hs; simpl; [constructor|].
  inversion Hs as [|? ? Hc Hs']; subst.
  destruct k as [|k]; [|now apply IH].
  unfold match_dash_space_run. simpl take_while.
  destruct (is_dash_or_space c) eqn:E; simpl length.
  - constructor; [reflexivity | now apply IH].
  - constructor; [|now apply IH].
    unfold kept_char in Hc. unfold is_dash_or_space in E.
    apply orb_false_iff in E. destruct E as [E1 E2].
    rewrite E1, E2, !orb_false_r in Hc. exact Hc.
Qed.

Lemma Forall_firstn_str (P : ascii -> Prop) (n : nat) (s : str) :
  Forall P s -> Forall P (firstn n s).
Proof.
  intros H. rewrite <- (firstn_skipn n s) in H.
  now apply Forall_app in H.
Qed.

Lemma clean_description_word (d : str) :
  Forall (fun c => is_word c = true) (clean_description d).
Proof.
  unfold clean_description.
  set (x := scan_sub match_dash_space_run (py "_") 0
              (scan_sub match_unsafe_char [] 0 d)).
  assert (Hx : Forall (fun c => is_word c = true) x)
    by apply runs_collapsed, unsafe_chars_removed.
  assert (Hy : Forall (fun c => is_word c = true)
                 (if 50 <? length x then firstn 50 x else x)).
  { destruct (50 <? length x); [now apply Forall_firstn_str | exact Hx]. }
  destruct (if 50 <? length x then firstn 50 x else x).
  - repeat constructor.
  - exact Hy.
Qed.

Lemma clean_description_length (d : str) :
  1 <= length (clean_description d) <= 50.
Proof.
  unfold clean_description.
  set (x := scan_sub match_dash_space_run (py "_") 0
              (scan_sub match_unsafe_char [] 0 d)).
  assert (Hy : length (if 50 <? length x then firstn 50 x else x) <= 50).
  { destruct (50 <? length x) eqn:E.
    - rewrite length_firstn. lia.
    - apply Nat.ltb_ge in E. exact E. }
  destruct (if 50 <? length x then firstn 50 x else x).
  - simpl. lia.
  - simpl in *. lia.
Qed.

(** *** Texts without letters *)

Lemma not_alpha_not_letter (c : ascii) :
  is_alpha c = false -> is_ascii_letter c = false.
Proof.
  unfold is_alpha, is_ascii_letter. intros H.
  do 6 (apply orb_false_iff in H; destruct H as [H _]). exact H.
Qed.

Lemma findall_go_no_letter (s : str) (prev : option ascii) (k : nat) :
  Forall (fun c => is_ascii_letter c = false) s -> findall_go prev k s = [].
Proof.
  revert prev k. induction s as [|c s IH]; intros prev k Hs; [reflexivity|].
  inversion Hs as [|? ? Hc Hs']; subst. simpl.
  destruct k as [|k]; [|now apply IH].
  unfold match_word. simpl take_while. rewrite Hc. simpl length.
  rewrite andb_false_r. simpl. now apply IH.
Qed.

Lemma split_ws_go_words (P : ascii -> Prop) (s cur w : str) :
  Forall P cur -> Forall P s -> In w (split_ws_go cur s) ->
  w <> [] /\ Forall P w.
Proof.
  revert cur. induction s as [|c s IH]; intros cur Hcur Hs Hw; simpl in Hw.
  - destruct cur as [|x cur]; [destruct Hw|].
    destruct Hw as [<- | []]. split.
    + intros E. apply (f_equal (@length ascii)) in E.
      rewrite length_rev in E. discriminate.
    + now apply Forall_rev.
  - inversion Hs as [|? ? Hc Hs']; subst.
    destruct (is_space c).
    + destruct cur as [|x cur].
      * apply (IH []); auto.
      * destruct Hw as [<- | Hw].
        -- split.
           ++ intros E. apply (f_equal (@length ascii)) in E.
              rewrite length_rev in E. discriminate.
           ++ now apply Forall_rev.
        -- apply (IH []); auto.
    + apply (IH (c :: cur)); auto.
Qed.

Lemma filter_none (A : Type) (f : A -> bool) (l : list A) :
  (forall x, In x l -> f x = false) -> filter f l = [].
Proof.
  induction l as [|x l IH]; intros H; simpl; [reflexivity|].
  rewrite (H x) by now left. apply IH. intros y Hy. apply H. now right.
Qed.

Lemma in_firstn (A : Type) (n : nat) (l : list A) (x : A) :
  In x (firstn n l) -> In x l.
Proof.
  intros H. rewrite <- (firstn_skipn n l). apply in_or_app. now left.
Qed.

(** A transcript without a single letter yields no word at all. *)
Lemma raw_description_no_letter (t : str) :
  Forall (fun c => is_alpha c = false) t -> raw_description t = [].
Proof.
  intros Ht. unfold raw_description.
  assert (Htext : Forall (fun c => is_alpha c = false) (strip t))
    by now apply strip_Forall.
  assert (Hwords :
    findall_words
      (sub_speaker_labels
         (replace [cr] (py " ") (replace [nl] (py " ") (firstn 100 (strip t)))))
    = []).
  { apply findall_go_no_letter.
    apply Forall_impl with (P := fun c => is_alpha c = false);
      [exact not_alpha_not_letter|].
    apply scan_sub_Forall; [constructor|].
    apply replace_Forall; [discriminate | repeat constructor |].
    apply replace_Forall; [discriminate | repeat constructor |].
    now apply Forall_firstn_str. }
  rewrite Hwords. cbn [filter map].
  rewrite filter_none; [reflexivity|].
  intros w Hw. apply in_firstn in Hw. unfold split_ws in Hw.
  destruct (split_ws_go_words (fun c => is_alpha c = false) (strip t) [] w)
    as [Hne Hall]; [constructor | exact Htext | exact Hw |].
  destruct w as [|c w]; [congruence|].
  inversion Hall as [|? ? Hc _]; subst. simpl. now rewrite Hc.
Qed.

(** ** Time stamps *)

Lemma digit_char_word (n : N) : is_word (digit_char (n mod 10)) = true.
Proof.
  assert (H : (n mod 10 < 10)%N) by (apply N.mod_lt; discriminate).
  revert H. generalize (n mod 10)%N. intros d H.
  assert (Hd : In d (map N.of_nat (seq 0 10))).
  { rewrite <- (N2Nat.id d). apply in_map. apply in_seq. lia. }
  simpl in Hd.
  repeat (destruct Hd as [<- | Hd]; [reflexivity|]). destruct Hd.
Qed.

Lemma dec_fixed_word (w : nat) (n : N) :
  Forall (fun c => is_word c = true) (dec_fixed w n).
Proof.
  revert n. induction w as [|w IH]; intros n; simpl; [constructor|].
  apply Forall_app. split; [apply IH|].
  constructor; [apply digit_char_word | constructor].
Qed.

Lemma dec_fixed_length (w : nat) (n : N) : length (dec_fixed w n) = w.
Proof.
  revert n. induction w as [|w IH]; intros n; simpl; [reflexivity|].
  rewrite length_app, IH. simpl. lia.
Qed.

Lemma strftime_compact_word (now : datetime) :
  Forall (fun c => is_word c = true) (strftime_compact now).
Proof.
  unfold strftime_compact.
  repeat first [ apply dec_fixed_word
               | apply Forall_app; split
               | apply Forall_cons; [reflexivity|]
               | apply Forall_nil ].
Qed.

Lemma strftime_compact_length (now : datetime) :
  length (strftime_compact now) = 15.
Proof.
  unfold strftime_compact. rewrite !length_app, !dec_fixed_length.
  reflexivity.
Qed.

Lemma digit_char_decimal (n : N) : is_decimal (digit_char (n mod 10)) = true.
Proof.
  assert (H : (n mod 10 < 10)%N) by (apply N.mod_lt; discriminate).
  revert H. generalize (n mod 10)%N. intros d H.
  assert (Hd : In d (map N.of_nat (seq 0 10))).
  { rewrite <- (N2Nat.id d). apply in_map. apply in_seq. lia. }
  simpl in Hd.
  repeat (destruct Hd as [<- | Hd]; [reflexivity|]). destruct Hd.
Qed.

Lemma dec_fixed_decimal (w : nat) (n : N) :
  forallb is_decimal (dec_fixed w n) = true.
Proof.
  revert n. induction w as [|w IH]; intros n; simpl; [reflexivity|].
  rewrite forallb_app, IH. simpl. now rewrite digit_char_decimal.
Qed.

Lemma strftime_compact_digits (now : datetime) :
  exists day_part clock_part,
    strftime_compact now = day_part ++ py "_" ++ clock_part /\
    length day_part = 8 /\ length clock_part = 6 /\
    forallb is_decimal day_part = true /\
    forallb is_decimal clock_part = true.
Proof.
  exists (dec_fixed 4 (year now) ++ dec_fixed 2 (month now)
          ++ dec_fixed 2 (day now)),
         (dec_fixed 2 (hour now) ++ dec_fixed 2 (minute now)
          ++ dec_fixed 2 (second now)).
  split; [unfold strftime_compact; now rewrite <- !app_assoc|].
  rewrite !length_app, !dec_fixed_length, !forallb_app, !dec_fixed_decimal.
  repeat split; reflexivity.
Qed.

(** ** Paths *)

Lemma last_In (A : Type) (l : list A) (d : A) : l <> [] -> In (last l d) l.
Proof.
  induction l as [|x l IH]; [congruence | intros _].
  destruct l as [|y l]; [now left|].
  right. apply IH. discriminate.
Qed.

(** The name of a path is a piece of the path. *)
Lemma path_name_piece (p : str) : exists a b, p = a ++ path_name p ++ b.
Proof.
  unfold path_name. destruct (path_parts p) as [|x l] eqn:E.
  - exists [], p. reflexivity.
  - assert (H : In (last (x :: l) []) (path_parts p)).
    { rewrite E. apply last_In. discriminate. }
    unfold path_parts in H. apply filter_In in H. destruct H as [H _].
    now apply split_on_piece in H.
Qed.

(** The stem is the name without its suffix. *)
Lemma path_name_stem_suffix (p : str) :
  path_name p = path_stem p ++ path_suffix p.
Proof.
  unfold path_stem, path_suffix.
  destruct (suffix_dot (path_name p)) as [i|].
  - symmetry. apply firstn_skipn.
  - now rewrite app_nil_r.
Qed.

Lemma path_stem_piece (p : str) : exists a b, p = a ++ path_stem p ++ b.
Proof.
  destruct (path_name_piece p) as [a [b E]].
  rewrite path_name_stem_suffix in E.
  exists a, (path_suffix p ++ b). now rewrite <- app_assoc in E.
Qed.

Lemma split_on_plain (n : nat) :
  split_on "/" (repeat "a"%char n) = [repeat "a"%char n].
Proof.
  induction n as [|n IH]; [reflexivity|].
  simpl. now rewrite IH.
Qed.

Lemma rfind_char_plain (n : nat) : rfind_char "." (repeat "a"%char n) = None.
Proof.
  induction n as [|n IH]; [reflexivity|].
  simpl. now rewrite IH.
Qed.

(** A name made of the letter [a] alone is its own stem. *)
Lemma path_stem_plain (n : nat) :
  path_stem (repeat "a"%char (S n)) = repeat "a"%char (S n).
Proof.
  unfold path_stem, path_name, path_parts, suffix_dot.
  rewrite split_on_plain. simpl filter. simpl last.
  change ("a"%char :: repeat "a"%char n) with (repeat "a"%char (S n)).
  now rewrite rfind_char_plain.
Qed.

(** ** generate_descriptive_filename *)

Lemma filename_parts (t p : str) (now : datetime) :
  generate_descriptive_filename t p now
  = (describe t ++ py "_") ++ path_stem p
    ++ (py "_" ++ strftime_compact now ++ py ".md").
Proof.
  unfold generate_descriptive_filename. now rewrite <- !app_assoc.
Qed.

Lemma filename_length (t p : str) (now : datetime) :
  length (generate_descriptive_filename t p now)
  = length (describe t) + length (path_stem p) + 20.
Proof.
  unfold generate_descriptive_filename.
  rewrite !length_app, strftime_compact_length. simpl. lia.
Qed.

Lemma word_is_safe (s : str) :
  Forall (fun c => is_word c = true) s ->
  Forall (fun c => filesystem_safe c = true) s.
Proof.
  apply Forall_impl. intros c H. unfold filesystem_safe. now rewrite H.
Qed.

(** C10: the stem of the original path, itself a piece of that path taken
    as it is, stands unchanged in the file name, between the description
    with its underscore and the underscore of the time stamp. *)
Theorem stem_embedded_verbatim (t p : str) (now : datetime) :
  generate_descriptive_filename t p now
  = (describe t ++ py "_") ++ path_stem p
    ++ (py "_" ++ strftime_compact now ++ py ".md") /\
  contains (path_stem p) (generate_descriptive_filename t p now) = true /\
  (exists a b, p = a ++ path_stem p ++ b) /\
  path_name p = path_stem p ++ path_suffix p.
Proof.
  split; [apply filename_parts|]. split.
  - apply contains_iff. eexists. eexists. apply filename_parts.
  - split; [apply path_stem_piece | apply path_name_stem_suffix].
Qed.

(** C1, as stated, fails: the stem goes into the name as it is, so the
    name has the characters of the stem, safe or not, and is as long as
    the stem makes it. *)
Lemma filename_neither_safe_nor_bounded :
  (let name :=
     generate_descriptive_filename
       (py "Hello there") (py "recordings/my talk: part 1?.mp3")
       (mk_datetime 2024 3 7 9 5 1) in
   name = py "hello_there_my talk: part 1?_20240307_090501.md" /\
   forallb filesystem_safe name = false) /\
  (forall bound, exists p,
      bound < length (generate_descriptive_filename
                        [] p (mk_datetime 2024 3 7 9 5 1))).
Proof.
  split.
  - split; vm_compute; reflexivity.
  - intros bound. exists (repeat "a"%char (S bound)).
    rewrite filename_length, path_stem_plain, repeat_length. lia.
Qed.

(** C1, amended: the name is never empty, ends in [.md] and has the form
    description, underscore, stem, underscore, time stamp, [.md].  The
    description has 1 to 50 characters, all of them word characters, and
    is [transcript] when the transcript has no letter (the empty and the
    punctuation-only transcript among them); the time stamp is eight
    digits, an underscore and six digits.  The stem is taken as it is:
    the name is safe exactly when the stem is, and is 21 to 70
    characters longer than the stem. *)
Theorem filename_shape (t p : str) (now : datetime) :
  let d := describe t in
  let name := generate_descriptive_filename t p now in
  name = d ++ py "_" ++ path_stem p ++ py "_" ++ strftime_compact now
           ++ py ".md" /\
  endswith (py ".md") name = true /\
  name <> [] /\
  1 <= length d <= 50 /\
  forallb is_word d = true /\
  (exists day_part clock_part,
      strftime_compact now = day_part ++ py "_" ++ clock_part /\
      length day_part = 8 /\ length clock_part = 6 /\
      forallb is_decimal day_part = true /\
      forallb is_decimal clock_part = true) /\
  (forallb (fun c => negb (is_alpha c)) t = true -> d = py "transcript") /\
  forallb filesystem_safe name = forallb filesystem_safe (path_stem p) /\
  length (path_stem p) + 21 <= length name <= length (path_stem p) + 70.
Proof.
  intros d name.
  assert (Hd : Forall (fun c => is_word c = true) d)
    by apply clean_description_word.
  assert (Hlen : 1 <= length d <= 50) by apply clean_description_length.
  assert (Hts := strftime_compact_word now).
  split; [reflexivity|]. split.
  { unfold endswith, name, generate_descriptive_filename.
    rewrite !app_assoc, rev_app_distr. apply startswith_app. }
  split.
  { intros E. apply (f_equal (@length ascii)) in E.
    unfold name in E. rewrite filename_length in E. simpl in E. lia. }
  split; [exact Hlen|]. split.
  { apply forallb_forall. now apply Forall_forall. }
  split; [apply strftime_compact_digits|].
  split.
  { intros Ht. unfold d, describe.
    rewrite raw_description_no_letter; [reflexivity|].
    apply Forall_forall. intros c Hc.
    rewrite forallb_forall in Ht. specialize (Ht c Hc).
    now apply negb_true_iff in Ht. }
  split.
  { unfold name. rewrite filename_parts, !forallb_app. fold d.
    assert (Hhead : forallb filesystem_safe (d ++ py "_") = true).
    { apply forallb_forall. apply Forall_forall. apply word_is_safe.
      apply Forall_app. split; [exact Hd|]. now repeat constructor. }
    assert (Htail : forallb filesystem_safe
                      (py "_" ++ strftime_compact now ++ py ".md") = true).
    { apply forallb_forall. apply Forall_forall.
      apply Forall_app. split; [now repeat constructor|].
      apply Forall_app. split; [now apply word_is_safe|].
      now repeat constructor. }
    rewrite forallb_app in Hhead. rewrite Hhead.
    rewrite !forallb_app in Htail. rewrite Htail.
    now rewrite andb_true_r. }
  unfold name. rewrite filename_length. fold d. lia.
Qed.

Lemma filename_shape_witness :
  describe (py "?!... --- 42") = py "transcript" /\
  forallb filesystem_safe
    (generate_descriptive_filename
       (py "?!... --- 42") (py "rec/talk-01.WAV") (mk_datetime 2024 3 7 9 5 1))
  = true.
Proof.
  destruct (filename_shape (py "?!... --- 42") (py "rec/talk-01.WAV")
              (mk_datetime 2024 3 7 9 5 1))
    as [_ [_ [_ [_ [_ [_ [Hfallback [Hsafe _]]]]]]]].
  split.
  - apply Hfallback. vm_compute. reflexivity.
  - rewrite Hsafe. vm_compute. reflexivity.
Defined.

(** ** The pipeline *)

Lemma model_choice_cases (m : str) :
  str_in m model_choices = true -> m = py "flash" \/ m = py "pro".
Proof.
  unfold str_in, model_choices. simpl. rewrite orb_false_r.
  intros H. apply orb_true_iff in H.
  destruct H as [H | H]; apply str_eqb_eq in H; auto.
Qed.

Lemma model_choice_known (m : str) :
  str_in m model_choices = true ->
  exists name, dict_get m MODEL_OPTIONS = Some name.
Proof.
  intros H. destruct (model_choice_cases m H) as [-> | ->];
    eexists; reflexivity.
Qed.

(** C8: when the input path does not exist, [main] prints its banner,
    asks whether the path exists, prints the file-not-found line and
    returns 1; nothing else happens: no file is read, the key is not
    looked up, the service is not called.  The model is one argparse
    accepts. *)
Theorem missing_file_exits_1 (w : world) (a : args) :
  str_in (model a) model_choices = true ->
  path_exists w (audio_file a) = false ->
  (exists model_name,
     dict_get (model a) MODEL_OPTIONS = Some model_name /\
     run (main a) w =
     (Returned 1,
      [ EvPrint (py "Audio Transcription Tool");
        EvPrint (repeat "="%char 50);
        EvPrint (py "Input file: " ++ audio_file a);
        EvPrint (py "Model: " ++ model_name);
        EvPrint (py "Output directory: " ++ output a);
        EvPrint [];
        EvExists (audio_file a);
        EvPrint (py "Error: Audio file not found: " ++ audio_file a) ])) /\
  existsb is_network (events_of (run (main a) w)) = false /\
  existsb is_file_read (events_of (run (main a) w)) = false.
Proof.
  intros Hm Hex. destruct (model_choice_known _ Hm) as [name Hname].
  assert (Hrun : run (main a) w =
    (Returned 1,
     [ EvPrint (py "Audio Transcription Tool");
       EvPrint (repeat "="%char 50);
       EvPrint (py "Input file: " ++ audio_file a);
       EvPrint (py "Model: " ++ name);
       EvPrint (py "Output directory: " ++ output a);
       EvPrint [];
       EvExists (audio_file a);
       EvPrint (py "Error: Audio file not found: " ++ audio_file a) ])).
  { destruct a as [f m o v]. cbn [audio_file model output] in *.
    run_pipeline. rewrite Hm. run_pipeline. rewrite Hname. run_pipeline.
    rewrite Hex. reflexivity. }
  split; [exists name; split; [exact Hname | exact Hrun]|].
  rewrite Hrun. split; reflexivity.
Qed.

Lemma missing_file_exits_1_witness :
  outcome_of (run (main sample_args) (sample_world false None (inl (ApiError []))))
  = Returned 1 /\
  existsb is_network
    (events_of (run (main sample_args)
                    (sample_world false None (inl (ApiError [])))))
  = false.
Proof.
  destruct (missing_file_exits_1
              (sample_world false None (inl (ApiError []))) sample_args)
    as [[name [_ Hrun]] [Hnet _]]; [reflexivity | reflexivity |].
  split; [now rewrite Hrun | exact Hnet].
Defined.

(** ** The model key *)

Lemma bind_same_start (A B : Type) (m : M A) (k1 k2 : A -> M B)
      (w : world) (st : state) :
  (forall a st', k1 a w st' = k2 a w st') ->
  bind m k1 w st = bind m k2 w st.
Proof.
  intros H. unfold bind. destruct (m w st) as [[a | e] st']; [apply H|].
  reflexivity.
Qed.

Lemma bind_same_rest (A B : Type) (m1 m2 : M A) (k : A -> M B)
      (w : world) (st : state) :
  m1 w st = m2 w st -> bind m1 k w st = bind m2 k w st.
Proof. intros H. unfold bind. now rewrite H. Qed.

Lemma try_except_same (A : Type) (m1 m2 : M A) (h : exn -> M A)
      (w : world) (st : state) :
  m1 w st = m2 w st -> try_except m1 h w st = try_except m2 h w st.
Proof. intros H. unfold try_except. now rewrite H. Qed.

Lemma unknown_key_cases (key : str) :
  dict_mem key MODEL_OPTIONS = false ->
  dict_get key MODEL_OPTIONS = None /\ str_in key model_choices = false.
Proof.
  unfold dict_mem, str_in, model_choices, MODEL_OPTIONS. simpl.
  destruct (str_eqb key _); [discriminate|].
  destruct (str_eqb key _); [discriminate|].
  auto.
Qed.

(** C9: a key that is not in [MODEL_OPTIONS] selects the flash model
    without any error, so [transcribe_audio] runs with it exactly as it
    runs with ['flash']; such a key is stopped by argparse alone, which
    ends the process with status 2 before [main] does anything. *)
Theorem unknown_model_falls_back (w : world) (st : state) (p key : str) :
  dict_mem key MODEL_OPTIONS = false ->
  model_name_for key w st
  = (Returned (py "models/gemini-2.0-flash-exp"), st) /\
  transcribe_audio p key w st = transcribe_audio p DEFAULT_MODEL w st /\
  (forall a, model a = key -> run (main a) w = (Returned 2, [])).
Proof.
  intros Hkey. destruct (unknown_key_cases key Hkey) as [Hget Hin].
  assert (Hname : forall st',
            model_name_for key w st'
            = (Returned (py "models/gemini-2.0-flash-exp"), st')).
  { intros st'. unfold model_name_for, bind, dict_index, ret.
    rewrite Hget. reflexivity. }
  assert (Hdefault : forall st',
            model_name_for DEFAULT_MODEL w st'
            = (Returned (py "models/gemini-2.0-flash-exp"), st'))
    by reflexivity.
  split; [apply Hname|]. split.
  - unfold transcribe_audio. apply try_except_same.
    unfold transcribe_audio_body. apply bind_same_start.
    intros found st'. destruct (negb found); [reflexivity|].
    destruct (negb (is_audio_file p)); [reflexivity|].
    apply bind_same_rest. now rewrite Hname, Hdefault.
  - intros a <-. unfold run, main. rewrite Hin. reflexivity.
Qed.

Lemma unknown_model_falls_back_witness :
  model_name_for (py "turbo") (sample_world true None (inl (ApiError [])))
                 initial_state
  = (Returned (py "models/gemini-2.0-flash-exp"), initial_state).
Proof.
  apply (unknown_model_falls_back
           (sample_world true None (inl (ApiError []))) initial_state
           (py "talk.mp3") (py "turbo")).
  reflexivity.
Defined.

(** ** A blocked response *)

Lemma for_each_log (A : Type) (l : list A) (level : log_level)
      (f : A -> str) (w : world) (st : state) :
  for_each l (fun x => log level (f x)) w st
  = (Returned tt,
     mk_state (trace st ++ map (fun x => EvLog level (f x)) l) (ticks st)).
Proof.
  revert st. induction l as [|x l IH]; intros [tr n]; simpl.
  - unfold ret. now rewrite app_nil_r.
  - unfold bind, log, emit. simpl. rewrite IH. simpl.
    now rewrite <- app_assoc.
Qed.

Lemma report_blocked_run (r : response) (w : world) (st : state) :
  report_blocked r w st
  = (Raised (ValueError blocked_message),
     mk_state
       (trace st
        ++ EvLog WARNING
             (py "Response was blocked or empty. Checking safety ratings.")
        :: map (fun rating => EvLog WARNING (rating_line rating))
               (logged_ratings r))
       (ticks st)).
Proof.
  unfold report_blocked, logged_ratings.
  destruct st as [tr n]. destruct (candidates r) as [|c cs].
  - unfold bind, log, emit, ret, raise. reflexivity.
  - unfold bind at 1 2. unfold log at 1, emit. simpl.
    change (fun rating : safety_rating =>
              log WARNING
                (py "Safety rating: " ++
                 category rating ++ py ": " ++ probability rating))
      with (fun rating => log WARNING (rating_line rating)).
    rewrite for_each_log. simpl. unfold raise.
    now rewrite <- app_assoc.
Qed.

Lemma blocked_when_no_parts (r : response) :
  no_candidate_or_no_parts r -> is_blocked r = true.
Proof.
  unfold is_blocked, usable_parts.
  intros [-> | [c [cs [-> [-> | [ct [-> ->]]]]]]]; reflexivity.
Qed.

Lemma key_present (w : world) :
  api_key_missing w = false ->
  exists c k, getenv w (py "GOOGLE_AI_API_KEY") = Some (c :: k).
Proof.
  unfold api_key_missing.
  destruct (getenv w (py "GOOGLE_AI_API_KEY")) as [[|c k]|];
    try discriminate.
  intros _. exists c, k. reflexivity.
Qed.

Lemma existsb_logs (A : Type) (f : event -> bool) (level : log_level)
      (g : A -> str) (l : list A) :
  (forall m, f (EvLog level m) = false) ->
  existsb f (map (fun x => EvLog level (g x)) l) = false.
Proof.
  intros H. induction l as [|x l IH]; simpl; [reflexivity|].
  now rewrite H, IH.
Qed.

(** The run of [transcribe_audio] on a blocked response. *)
Lemma blocked_transcribe_run (w : world) (p key name : str)
      (data : list Byte.byte) (r : response) :
  dict_get key MODEL_OPTIONS = Some name ->
  path_exists w p = true ->
  is_audio_file p = true ->
  open_read w p = inr data ->
  api_key_missing w = false ->
  generate_content w name TRANSCRIPTION_PROMPT (get_gemini_mime_type p)
                   (b64encode data) = inr r ->
  is_blocked r = true ->
  forall st,
    transcribe_audio p key w st
    = (Raised (ValueError blocked_message),
       mk_state
         (trace st
          ++ events_to_key p name data ++ events_of_request p name data
          ++ EvLog WARNING
               (py "Response was blocked or empty. Checking safety ratings.")
          :: map (fun rating => EvLog WARNING (rating_line rating))
                 (logged_ratings r)
          ++ [EvLog ERROR
                (py "Error transcribing audio: " ++ blocked_message)])
         (ticks st)).
Proof.
  intros Hname Hex Haud Hread Hkey Hresp Hr [tr n].
  destruct (key_present w Hkey) as [c [k Hk]].
  run_pipeline. rewrite Hex, Haud. run_pipeline. rewrite Hname.
  run_pipeline. rewrite Hread. run_pipeline. rewrite Hk.
  run_pipeline. rewrite Hresp. run_pipeline. rewrite Hr.
  rewrite report_blocked_run. run_pipeline.
  unfold events_to_key, events_of_request.
  repeat (rewrite <- app_assoc; cbn [app]). reflexivity.
Qed.

Lemma blocked_main_run (w : world) (a : args) (name : str)
      (data : list Byte.byte) (r : response) :
  str_in (model a) model_choices = true ->
  dict_get (model a) MODEL_OPTIONS = Some name ->
  path_exists w (audio_file a) = true ->
  is_audio_file (audio_file a) = true ->
  open_read w (audio_file a) = inr data ->
  api_key_missing w = false ->
  generate_content w name TRANSCRIPTION_PROMPT
                   (get_gemini_mime_type (audio_file a))
                   (b64encode data) = inr r ->
  is_blocked r = true ->
  run (main a) w
  = (Returned 1,
     main_banner a name
     ++ [EvExists (audio_file a);
         EvPrint (py "Transcribing audio (this may take a while)...")]
     ++ events_to_key (audio_file a) name data
     ++ events_of_request (audio_file a) name data
     ++ EvLog WARNING
          (py "Response was blocked or empty. Checking safety ratings.")
     :: map (fun rating => EvLog WARNING (rating_line rating))
            (logged_ratings r)
     ++ [EvLog ERROR (py "Error transcribing audio: " ++ blocked_message);
         EvPrint (py "Error: " ++ blocked_message);
         EvLog ERROR (py "Transcription failed: " ++ blocked_message)]).
Proof.
  intros Hm Hname Hex Haud Hread Hkey Hresp Hr.
  pose proof (blocked_transcribe_run w (audio_file a) (model a) name data r
                Hname Hex Haud Hread Hkey Hresp Hr) as Hrun.
  destruct a as [f m o v]. cbn [audio_file model output] in *.
  run_main. rewrite Hm. run_main. rewrite Hname. run_main.
  rewrite Hex, Haud. run_main. rewrite Hrun. run_main.
  unfold main_banner, events_to_key, events_of_request.
  cbn [audio_file output app].
  repeat (rewrite <- app_assoc; cbn [app]). reflexivity.
Qed.

(** C7: when the service answers with no candidate, or with a first
    candidate that has no content or no parts, [transcribe_audio] raises
    the blocked-transcription error (a [ValueError] with the message of
    line 194), [main] prints it and returns 1, and no step of
    [save_transcript] takes place: no directory is made, no file is
    written.  The input is a readable file of a supported format, the key
    is set and the model is one argparse accepts. *)
Theorem blocked_response_fails (w : world) (a : args)
        (data : list Byte.byte) (r : response) :
  str_in (model a) model_choices = true ->
  path_exists w (audio_file a) = true ->
  is_audio_file (audio_file a) = true ->
  open_read w (audio_file a) = inr data ->
  api_key_missing w = false ->
  (forall name prompt mime payload,
      generate_content w name prompt mime payload = inr r) ->
  no_candidate_or_no_parts r ->
  outcome_of (run (transcribe_audio (audio_file a) (model a)) w)
  = Raised (ValueError blocked_message) /\
  outcome_of (run (main a) w) = Returned 1 /\
  In (EvPrint (py "Error: " ++ blocked_message)) (events_of (run (main a) w)) /\
  existsb is_save_step (events_of (run (main a) w)) = false /\
  existsb is_file_write (events_of (run (main a) w)) = false.
Proof.
  intros Hm Hex Haud Hread Hkey Hresp Hr.
  destruct (model_choice_known _ Hm) as [name Hname].
  apply blocked_when_no_parts in Hr.
  split.
  - unfold run, outcome_of.
    rewrite (blocked_transcribe_run w (audio_file a) (model a) name data r);
      auto.
  - rewrite (blocked_main_run w a name data r); auto.
    unfold outcome_of, events_of. cbn [fst snd].
    split; [reflexivity|]. split.
    + apply in_or_app. right. apply in_or_app. right.
      apply in_or_app. right. apply in_or_app. right. right.
      apply in_or_app. right. simpl. auto.
    + unfold main_banner, events_to_key, events_of_request.
      split; cbn [app existsb is_save_step is_file_write orb];
        rewrite existsb_app, existsb_logs by reflexivity; reflexivity.
Qed.

Lemma blocked_response_fails_witness :
  let w := sample_world true (Some (py "secret"))
                        (inr (mk_response [] (inr (py "no text")))) in
  outcome_of (run (main sample_args) w) = Returned 1 /\
  existsb is_file_write (events_of (run (main sample_args) w)) = false.
Proof.
  destruct (blocked_response_fails
              (sample_world true (Some (py "secret"))
                            (inr (mk_response [] (inr (py "no text")))))
              sample_args [Byte.x52; Byte.x49; Byte.x46; Byte.x46]
              (mk_response [] (inr (py "no text"))))
    as [_ [Hexit [_ [_ Hwrite]]]]; try reflexivity.
  - left. reflexivity.
  - split; assumption.
Defined.

(** ** A missing key *)

Lemma key_missing_cases (w : world) :
  api_key_missing w = true ->
  getenv w (py "GOOGLE_AI_API_KEY") = None \/
  getenv w (py "GOOGLE_AI_API_KEY") = Some [].
Proof.
  unfold api_key_missing.
  destruct (getenv w (py "GOOGLE_AI_API_KEY")) as [[|c k]|];
    auto; discriminate.
Qed.

(** C6, as stated, fails: with the key unset, [transcribe_audio] has
    asked whether the file exists and has read it before it looks the key
    up. *)
Lemma key_checked_after_file_read :
  run (transcribe_audio (py "talk.mp3") (py "flash"))
      (sample_world true None (inl (ApiError [])))
  = (Raised (ValueError missing_key_message),
     [ EvExists (py "talk.mp3");
       EvLog INFO (py "Using model: models/gemini-2.0-flash-exp");
       EvReadFile (py "talk.mp3");
       EvLog INFO (py "Loaded audio file: talk.mp3 (4 bytes)");
       EvLog INFO (py "MIME type: audio/mpeg");
       EvGetenv (py "GOOGLE_AI_API_KEY");
       EvLog ERROR (py "Error transcribing audio: " ++ missing_key_message) ])
  /\
  existsb is_file_read
    (events_of (run (main sample_args)
                    (sample_world true None (inl (ApiError [])))))
  = true.
Proof. split; vm_compute; reflexivity. Qed.

(** C6, amended: when the key is unset or empty, the run fails, [main]
    returns 1, the service is never called and no step of
    [save_transcript] takes place.  The key is looked up only after the
    input file has been checked and read: on a readable file of a
    supported format, [transcribe_audio] raises the configuration error
    (a [ValueError] with the message of line 73) right after the events
    of [events_to_key], the read of the file among them. *)
Theorem missing_key_fails_before_request (w : world) (a : args) :
  str_in (model a) model_choices = true ->
  api_key_missing w = true ->
  outcome_of (run (main a) w) = Returned 1 /\
  existsb is_network (events_of (run (main a) w)) = false /\
  existsb is_save_step (events_of (run (main a) w)) = false /\
  (forall data,
      path_exists w (audio_file a) = true ->
      is_audio_file (audio_file a) = true ->
      open_read w (audio_file a) = inr data ->
      exists name,
        dict_get (model a) MODEL_OPTIONS = Some name /\
        run (transcribe_audio (audio_file a) (model a)) w
        = (Raised (ValueError missing_key_message),
           events_to_key (audio_file a) name data
           ++ [EvLog ERROR
                 (py "Error transcribing audio: " ++ missing_key_message)])).
Proof.
  intros Hm Hkey.
  destruct (model_choice_known _ Hm) as [name Hname].
  destruct a as [f m o v]. cbn [audio_file model output] in *.
  assert (Hmain :
    outcome_of (run (main (mk_args f m o v)) w) = Returned 1 /\
    existsb is_network (events_of (run (main (mk_args f m o v)) w)) = false /\
    existsb is_save_step (events_of (run (main (mk_args f m o v)) w)) = false).
  { destruct (path_exists w f) eqn:Hex;
      [destruct (is_audio_file f) eqn:Haud;
       [destruct (open_read w f) as [e | data] eqn:Hread;
        [|destruct (key_missing_cases w Hkey) as [Hk | Hk]]|]|];
      clear Hkey; run_with_facts; repeat split; reflexivity. }
  destruct Hmain as [H1 [H2 H3]]. repeat split; try assumption.
  intros data Hex Haud Hread. exists name. split; [exact Hname|].
  destruct (key_missing_cases w Hkey) as [Hk | Hk];
    clear Hkey; run_with_facts; reflexivity.
Qed.

Lemma missing_key_fails_before_request_witness :
  let w := sample_world true (Some []) (inl (ApiError [])) in
  outcome_of (run (main sample_args) w) = Returned 1 /\
  existsb is_network (events_of (run (main sample_args) w)) = false.
Proof.
  destruct (missing_key_fails_before_request
              (sample_world true (Some []) (inl (ApiError []))) sample_args)
    as [Hexit [Hnet _]]; try reflexivity.
  split; assumption.
Defined.

(** ** Extensions *)

Lemma documented_extensions_are_keys :
  dict_keys AUDIO_EXTENSIONS_TO_MIME = documented_extensions.
Proof. reflexivity. Qed.

Lemma supported_lookup (p ext mime : str) :
  In (ext, mime) AUDIO_EXTENSIONS_TO_MIME ->
  same_ignoring_case (path_suffix p) ext = true ->
  dict_get (lower (path_suffix p)) AUDIO_EXTENSIONS_TO_MIME = Some mime.
Proof.
  unfold same_ignoring_case. intros Hin H. apply str_eqb_eq in H.
  rewrite H. simpl in Hin.
  repeat (destruct Hin as [Hin | Hin];
          [inversion Hin; subst; reflexivity|]).
  destruct Hin.
Qed.

Lemma unsupported_lookup (p : str) :
  (forall ext, In ext documented_extensions ->
               same_ignoring_case (path_suffix p) ext = false) ->
  dict_get (lower (path_suffix p)) AUDIO_EXTENSIONS_TO_MIME = None.
Proof.
  intros H.
  assert (Hk : forall k, In k documented_extensions ->
                         str_eqb (lower (path_suffix p)) k = false).
  { intros k Hin. specialize (H k Hin). unfold same_ignoring_case in H.
    simpl in Hin.
    repeat (destruct Hin as [<- | Hin]; [exact H|]). destruct Hin. }
  unfold AUDIO_EXTENSIONS_TO_MIME. cbn [dict_get].
  rewrite !Hk by (simpl; tauto). reflexivity.
Qed.

(** C5: for a path whose extension is, case apart, one of the seven
    supported ones, the MIME type is the one the table gives for it and
    the path is accepted; for any other extension the MIME type is
    [audio/mp4], [is_audio_file] is false, [transcribe_audio] raises and
    neither it nor [main] reaches the service.  The seven extensions are
    the keys of the table. *)
Theorem mime_lookup_and_validation (w : world) (a : args) (key : str) :
  let p := audio_file a in
  dict_keys AUDIO_EXTENSIONS_TO_MIME = documented_extensions /\
  (forall ext mime,
      In (ext, mime) AUDIO_EXTENSIONS_TO_MIME ->
      same_ignoring_case (path_suffix p) ext = true ->
      get_gemini_mime_type p = mime /\ is_audio_file p = true) /\
  ((forall ext, In ext documented_extensions ->
                same_ignoring_case (path_suffix p) ext = false) ->
   get_gemini_mime_type p = py "audio/mp4" /\
   is_audio_file p = false /\
   (exists e, outcome_of (run (transcribe_audio p key) w) = Raised e) /\
   existsb is_network (events_of (run (transcribe_audio p key) w)) = false /\
   existsb is_network (events_of (run (main a) w)) = false /\
   existsb is_file_read (events_of (run (main a) w)) = false).
Proof.
  intros p. split; [reflexivity|]. split.
  - intros ext mime Hin Hext.
    unfold get_gemini_mime_type, is_audio_file, dict_mem.
    now rewrite (supported_lookup p ext mime Hin Hext).
  - intros Hnone.
    assert (Hget := unsupported_lookup p Hnone).
    assert (Haud : is_audio_file p = false).
    { unfold is_audio_file, dict_mem. now rewrite Hget. }
    split; [unfold get_gemini_mime_type; now rewrite Hget|].
    split; [exact Haud|].
    unfold p in *. clear p Hnone Hget.
    destruct a as [f m o v]. cbn [audio_file model output] in *.
    destruct (path_exists w f) eqn:Hex.
    + split; [eexists; run_with_facts; reflexivity|].
      split; [run_with_facts; reflexivity|].
      destruct (str_in m model_choices) eqn:Hm.
      * destruct (model_choice_known _ Hm) as [name Hname].
        split; run_with_facts; reflexivity.
      * split; run_with_facts; reflexivity.
    + split; [eexists; run_with_facts; reflexivity|].
      split; [run_with_facts; reflexivity|].
      destruct (str_in m model_choices) eqn:Hm.
      * destruct (model_choice_known _ Hm) as [name Hname].
        split; run_with_facts; reflexivity.
      * split; run_with_facts; reflexivity.
Qed.

Lemma mime_lookup_and_validation_witness :
  (get_gemini_mime_type (py "rec/Talk.MP3") = py "audio/mpeg" /\
   is_audio_file (py "rec/Talk.MP3") = true) /\
  (is_audio_file (py "notes.txt") = false /\
   existsb is_network
     (events_of (run (main (mk_args (py "notes.txt") (py "pro")
                                    (py "out") true))
                     (sample_world true (Some (py "secret"))
                                   (inl (ApiError [])))))
   = false).
Proof.
  split.
  - destruct (mime_lookup_and_validation
                (sample_world true None (inl (ApiError [])))
                (mk_args (py "rec/Talk.MP3") (py "flash") (py "out") false)
                (py "flash")) as [_ [Hyes _]].
    apply (Hyes (py ".mp3") (py "audio/mpeg")).
    + simpl. auto.
    + reflexivity.
  - destruct (mime_lookup_and_validation
                (sample_world true (Some (py "secret")) (inl (ApiError [])))
                (mk_args (py "notes.txt") (py "pro") (py "out") true)
                (py "pro")) as [_ [_ Hno]].
    destruct Hno as [_ [Hrej [_ [_ [Hnet _]]]]].
    + intros ext Hin. simpl in Hin.
      repeat (destruct Hin as [<- | Hin]; [reflexivity|]). destruct Hin.
    + split; assumption.
Defined.

(** ** Further properties *)

(** X1: a normalized transcript neither starts nor ends with whitespace,
    and stripping it changes nothing. *)
Theorem normalized_transcript_is_trimmed (t : str) :
  let u := normalize_transcript t in
  strip u = u /\
  match u with [] => True | c :: _ => is_space c = false end /\
  match rev u with [] => True | c :: _ => is_space c = false end.
Proof.
  intros u.
  assert (Hu : strip u = u) by apply normalize_stripped.
  split; [exact Hu|]. rewrite <- Hu. unfold strip, rstrip, lstrip. split.
  - set (x := drop_while is_space u).
    assert (Hx := drop_while_head is_space u). fold x in Hx.
    destruct (drop_while_split is_space (rev x)) as [b E].
    apply (f_equal (@rev ascii)) in E.
    rewrite rev_involutive, rev_app_distr in E.
    destruct (rev (drop_while is_space (rev x))) as [|c r]; [exact I|].
    rewrite E in Hx. exact Hx.
  - rewrite rev_involutive. apply drop_while_head.
Qed.

Lemma first_part_text_some (ps : list part) (t : str) :
  first_part_text ps = Some t
  <-> exists before p after,
        ps = before ++ p :: after /\
        Forall (fun q => has_text q = false) before /\
        part_text p = Some t /\ t <> [].
Proof.
  induction ps as [|q ps IH].
  - split; [discriminate|].
    intros [before [p [after [E _]]]]. destruct before; discriminate E.
  - cbn [first_part_text]. destruct (part_text q) as [[|c r]|] eqn:Eq.
    + rewrite IH. split.
      * intros [before [p [after [-> [Hb Hp]]]]].
        exists (q :: before), p, after. split; [reflexivity|].
        split; [|exact Hp]. constructor; [|exact Hb].
        unfold has_text. now rewrite Eq.
      * intros [[|q' before] [p [after [E [Hb [Hp Ht]]]]]];
          injection E as -> ->.
        -- rewrite Eq in Hp. injection Hp as <-. now elim Ht.
        -- exists before, p, after. inversion Hb; subst. auto.
    + split.
      * intros H. injection H as <-. exists [], q, ps.
        repeat split; [constructor | exact Eq | discriminate].
      * intros [[|q' before] [p [after [E [Hb [Hp Ht]]]]]];
          injection E as -> ->.
        -- rewrite Eq in Hp. exact Hp.
        -- inversion Hb as [|? ? Hq _]; subst. unfold has_text in Hq.
           rewrite Eq in Hq. discriminate Hq.
    + rewrite IH. split.
      * intros [before [p [after [-> [Hb Hp]]]]].
        exists (q :: before), p, after. split; [reflexivity|].
        split; [|exact Hp]. constructor; [|exact Hb].
        unfold has_text. now rewrite Eq.
      * intros [[|q' before] [p [after [E [Hb [Hp Ht]]]]]];
          injection E as -> ->.
        -- rewrite Eq in Hp. discriminate Hp.
        -- exists before, p, after. inversion Hb; subst. auto.
Qed.

Lemma first_part_text_none (ps : list part) :
  first_part_text ps = None <-> Forall (fun q => has_text q = false) ps.
Proof.
  induction ps as [|q ps IH]; cbn [first_part_text].
  - split; [constructor | reflexivity].
  - unfold has_text at 1.
    destruct (part_text q) as [[|c r]|] eqn:Eq.
    + rewrite IH. split.
      * intros H. constructor; [|exact H]. unfold has_text. now rewrite Eq.
      * intros H. now inversion H.
    + split; [discriminate|]. intros H. inversion H as [|? ? Hq _]; subst.
      unfold has_text in Hq. rewrite Eq in Hq. discriminate Hq.
    + rewrite IH. split.
      * intros H. constructor; [|exact H]. unfold has_text. now rewrite Eq.
      * intros H. now inversion H.
Qed.

(** X3: when the [text] accessor raises on a response with usable parts,
    the refusal is logged as a warning and nothing else is done.  The
    transcript is then the text of the first part that has a text which
    is not empty: every part before it has no text or an empty one, and
    what comes after it is not looked at.  Extraction fails with the
    error of line 208 exactly when no part has such a text. *)
Theorem extract_text_fallback (r : response) (w : world) (st : state)
        (msg : str) (ps : list part) :
  text r = inr msg ->
  usable_parts r = Some ps ->
  let x := extract_text r w st in
  snd x
  = mk_state
      (trace st ++ [EvLog WARNING (py "Error accessing response.text: " ++ msg)])
      (ticks st) /\
  (forall t,
      fst x = Returned t
      <-> exists before p after,
            ps = before ++ p :: after /\
            Forall (fun q => has_text q = false) before /\
            part_text p = Some t /\ t <> []) /\
  (forall e,
      fst x = Raised e
      <-> Forall (fun q => has_text q = false) ps /\
          e = ValueError
                (py "Could not extract transcription from response.")).
Proof.
  intros Htext Hps. cbv zeta. unfold extract_text.
  rewrite Htext. unfold bind, log, emit. rewrite Hps.
  destruct (first_part_text ps) as [t0|] eqn:E; unfold ret, raise;
    cbn [fst snd]; (split; [reflexivity|]); split.
  - intros t. rewrite <- first_part_text_some, E.
    split; intros H; now injection H as ->.
  - intros e. split; [discriminate|].
    intros [H _]. apply first_part_text_none in H. congruence.
  - intros t. rewrite <- first_part_text_some, E.
    split; discriminate.
  - intros e. rewrite <- first_part_text_none, E. split.
    + intros H. now injection H as <-.
    + now intros [_ ->].
Qed.

Lemma extract_text_fallback_witness :
  let r := mk_response
             [mk_candidate
                (Some (mk_content [mk_part None; mk_part (Some []);
                                   mk_part (Some (py "Hello."));
                                   mk_part (Some (py "Bye."))])) []]
             (inr (py "no text")) in
  fst (extract_text r (sample_world true None (inl (ApiError [])))
                    initial_state)
  = Returned (py "Hello.").
Proof.
  destruct (extract_text_fallback
              (mk_response
                 [mk_candidate
                    (Some (mk_content [mk_part None; mk_part (Some []);
                                       mk_part (Some (py "Hello."));
                                       mk_part (Some (py "Bye."))])) []]
                 (inr (py "no text")))
              (sample_world true None (inl (ApiError []))) initial_state
              (py "no text")
              [mk_part None; mk_part (Some []); mk_part (Some (py "Hello."));
               mk_part (Some (py "Bye."))]
              eq_refl eq_refl) as [_ [H _]].
  apply H.
  exists [mk_part None; mk_part (Some [])], (mk_part (Some (py "Hello."))),
         [mk_part (Some (py "Bye."))].
  repeat split; [repeat constructor | discriminate].
Defined.

(** ** The trace of [transcribe_audio] *)

Lemma filter_logs (A : Type) (f : event -> bool) (level : log_level)
      (g : A -> str) (l : list A) :
  (forall m, f (EvLog level m) = false) ->
  filter f (map (fun x => EvLog level (g x)) l) = [].
Proof.
  intros H. induction l as [|x l IH]; simpl; [reflexivity|].
  now rewrite H, IH.
Qed.

Ltac ask_world :=
  match goal with
  | |- context [str_in ?m model_choices] =>
    destruct (str_in m model_choices) eqn:?
  | |- context [dict_get ?k MODEL_OPTIONS] =>
    destruct (dict_get k MODEL_OPTIONS) eqn:?
  | |- context [path_exists ?w ?p] => destruct (path_exists w p) eqn:?
  | |- context [is_audio_file ?p] => destruct (is_audio_file p) eqn:?
  | |- context [open_read ?w ?p] => destruct (open_read w p) eqn:?
  | |- context [getenv ?w ?k] => destruct (getenv w k) as [[|? ?]|] eqn:?
  | |- context [generate_content ?w ?a ?b ?c ?d] =>
    destruct (generate_content w a b c d) eqn:?
  | |- context [is_blocked ?r] => destruct (is_blocked r) eqn:?
  | |- context [text ?r] => destruct (text r) eqn:?
  | |- context [usable_parts ?r] => destruct (usable_parts r) eqn:?
  | |- context [first_part_text ?ps] => destruct (first_part_text ps) eqn:?
  | |- context [mkdir ?w ?d] => destruct (mkdir w d) eqn:?
  | |- context [stat_size ?w ?d] => destruct (stat_size w d) eqn:?
  | |- context [open_write ?w ?d ?t] => destruct (open_write w d t) eqn:?
  end.

Ltac explore_pipeline :=
  repeat (run_pipeline; rewrite ?report_blocked_run; ask_world);
  run_pipeline; rewrite ?report_blocked_run; run_pipeline.

Ltac tidy_trace := repeat (rewrite <- app_assoc; cbn [app]).

Ltac finish_events :=
  cbn [filter existsb is_network is_save_step is_file_write is_file_read
       orb app];
  rewrite ?existsb_app, ?filter_app, ?existsb_logs, ?filter_logs
    by reflexivity;
  cbn [filter existsb is_network is_save_step is_file_write is_file_read
       orb app].

Lemma key_present_from (w : world) (c : ascii) (k : str) :
  getenv w (py "GOOGLE_AI_API_KEY") = Some (c :: k) ->
  api_key_missing w = false.
Proof. unfold api_key_missing. now intros ->. Qed.

Lemma ends_cons (A : Type) (x z : A) (l : list A) :
  (exists pre, l = pre ++ [z]) -> exists pre, x :: l = pre ++ [z].
Proof. intros [pre ->]. exists (x :: pre). reflexivity. Qed.

Ltac ends_with_last :=
  repeat match goal with
         | |- exists pre, _ :: _ :: _ = _ => apply ends_cons
         | |- exists pre, _ :: (_ ++ _) = _ => apply ends_cons
         end;
  first [ exists []; reflexivity | eexists; reflexivity ].

Lemma transcribe_audio_trace (w : world) (p key : str) (st : state) :
  exists evs,
    snd (transcribe_audio p key w st) = mk_state (trace st ++ evs) (ticks st) /\
    existsb is_save_step evs = false /\
    (filter is_network evs = [] \/
     exists data,
       filter is_network evs
       = [EvGenerate
            match dict_get key MODEL_OPTIONS with
            | Some name => name
            | None => py "models/gemini-2.0-flash-exp"
            end
            (get_gemini_mime_type p) (b64encode data)] /\
       path_exists w p = true /\ is_audio_file p = true /\
       open_read w p = inr data /\ api_key_missing w = false) /\
    match fst (transcribe_audio p key w st) with
    | Raised e =>
      exists pre,
        evs = pre ++ [EvLog ERROR (py "Error transcribing audio: " ++ exn_str e)]
    | Returned t =>
      exists data r raw,
        open_read w p = inr data /\
        generate_content w
          match dict_get key MODEL_OPTIONS with
          | Some name => name
          | None => py "models/gemini-2.0-flash-exp"
          end
          TRANSCRIPTION_PROMPT (get_gemini_mime_type p) (b64encode data)
        = inr r /\
        (text r = inl raw \/
         exists msg ps, text r = inr msg /\ usable_parts r = Some ps /\
                        first_part_text ps = Some raw) /\
        is_blocked r = false /\
        t = normalize_transcript raw /\
        filter is_network evs <> []
    end.
Proof.
  destruct st as [tr n].
  explore_pipeline; tidy_trace; eexists; (split; [reflexivity|]);
    (split; [finish_events; reflexivity|]);
    (split;
     [ finish_events;
       first [ left; reflexivity
             | right; eexists; repeat split; try reflexivity;
               eapply key_present_from; eassumption ]
     | first [ ends_with_last
             | eexists; eexists; eexists;
               split; [reflexivity|];
               split; [eassumption|];
               split; [|split; [eassumption|split;
                                 [reflexivity|finish_events; discriminate]]];
               first [ left; eassumption
                     | right; eexists; eexists; repeat split; eassumption ] ] ]).
Qed.

(** ** The trace of [save_transcript] *)

Lemma save_transcript_trace (w : world) (t p d : str) (st : state) :
  let path :=
    path_join d (generate_descriptive_filename t p (clock w (ticks st))) in
  let report size :=
    render_report (path_name p) (strftime_iso (clock w (S (ticks st))))
                  (format_mib size) t in
  exists evs n',
    snd (save_transcript t p d w st) = mk_state (trace st ++ evs) n' /\
    existsb is_network evs = false /\
    existsb is_file_read evs = false /\
    match fst (save_transcript t p d w st) with
    | Returned out =>
      out = path /\
      exists size,
        mkdir w (path_str d) = None /\
        stat_size w (path_str p) = inr size /\
        open_write w path (report size) = None /\
        filter is_file_write evs = [EvWriteFile path (report size)]
    | Raised e =>
      (exists pre,
         evs = pre ++ [EvLog ERROR (py "Error saving transcript: " ++ exn_str e)])
      /\
      (mkdir w (path_str d) = Some e /\
       filter is_save_step evs = [EvMkdir (path_str d)] \/
       mkdir w (path_str d) = None /\
       stat_size w (path_str p) = inl e /\ filter is_file_write evs = [] \/
       exists size,
         mkdir w (path_str d) = None /\
         stat_size w (path_str p) = inr size /\
         open_write w path (report size) = Some e /\
         filter is_file_write evs = [EvWriteFile path (report size)])
    end.
Proof.
  destruct st as [tr n]. cbv zeta. cbn [ticks].
  explore_pipeline; tidy_trace; eexists; eexists;
    (split; [reflexivity|]);
    (split; [finish_events; reflexivity|]);
    (split; [finish_events; reflexivity|]);
    first [ split; [reflexivity|]; eexists; repeat split;
            first [reflexivity | eassumption | finish_events; reflexivity]
          | split; [ends_with_last|];
            first [ left; repeat split; finish_events; reflexivity
                  | right; left; repeat split; finish_events; reflexivity
                  | right; right; eexists; repeat split;
                    first [reflexivity | eassumption
                          | finish_events; reflexivity] ] ].
Qed.

(** ** The trace of [main] *)

Ltac find_event :=
  repeat first [ left; reflexivity
               | right
               | apply in_or_app; right ].

Ltac settle_failure :=
  split; [eexists; find_event|];
  split; [finish_events; reflexivity|];
  split; [finish_events; cbn [length]; lia|];
  finish_events;
  first [ left; reflexivity
        | right; eexists; eexists; eexists; split;
          [reflexivity | split; [eassumption | reflexivity]] ].

Ltac settle_success :=
  do 4 eexists;
  split; [reflexivity|]; split; [reflexivity|]; split; [reflexivity|];
  split; [eapply key_present_from; eassumption|];
  split; [eassumption|];
  split; [first [ left; eassumption
                | right; eexists; eexists; repeat split; eassumption ]|];
  split; [reflexivity|];
  split; [eassumption|];
  split; [finish_events; reflexivity|];
  split; [eexists; split; [eassumption|];
          split; [reflexivity | finish_events; reflexivity]|];
  split; find_event.

Lemma main_trace (w : world) (a : args) :
  let x := run (main a) w in
  match outcome_of x with
  | Returned 0 =>
    exists data r raw size,
      path_exists w (audio_file a) = true /\
      is_audio_file (audio_file a) = true /\
      open_read w (audio_file a) = inr data /\
      api_key_missing w = false /\
      is_blocked r = false /\
      (text r = inl raw \/
       exists msg ps, text r = inr msg /\ usable_parts r = Some ps /\
                      first_part_text ps = Some raw) /\
      stat_size w (path_str (audio_file a)) = inr size /\
      let t := normalize_transcript raw in
      let path :=
        path_join (output a)
                  (generate_descriptive_filename t (audio_file a) (clock w 0)) in
      let report :=
        render_report (path_name (audio_file a)) (strftime_iso (clock w 1))
                      (format_mib size) t in
      open_write w path report = None /\
      filter is_file_write (events_of x) = [EvWriteFile path report] /\
      (exists name,
          generate_content w name TRANSCRIPTION_PROMPT
            (get_gemini_mime_type (audio_file a)) (b64encode data) = inr r /\
          dict_get (model a) MODEL_OPTIONS = Some name /\
          filter is_network (events_of x)
          = [EvGenerate name (get_gemini_mime_type (audio_file a))
                        (b64encode data)]) /\
      In (EvPrint (py "Transcription completed successfully!")) (events_of x) /\
      In (EvPrint (py "Transcript saved to: " ++ path)) (events_of x)
  | Returned 1 =>
    (exists msg, In (EvPrint (py "Error: " ++ msg)) (events_of x)) /\
    existsb (fun e => match e with
                      | EvPrint l =>
                        str_eqb l (py "Transcription completed successfully!")
                      | _ => false
                      end) (events_of x) = false /\
    length (filter is_network (events_of x)) <= 1 /\
    (filter is_file_write (events_of x) = [] \/
     exists path report e,
       filter is_file_write (events_of x) = [EvWriteFile path report] /\
       open_write w path report = Some e /\
       length (filter is_network (events_of x)) = 1)
  | Returned _ => str_in (model a) model_choices = false /\ events_of x = []
  | Raised _ => False
  end.
Proof.
  destruct a as [f m o v]. cbv zeta. cbn [audio_file model output].
  explore_pipeline; tidy_trace;
    try match goal with
    | |- exists data r raw size, _ => settle_success
    | |- (exists msg, _) /\ _ => settle_failure
    | |- _ /\ _ = [] => split; reflexivity
    end.
Qed.

(** ** What the pipeline does and never does *)

(** X4: [transcribe_audio] takes no step of [save_transcript] and calls
    the service at most once, and only when the file exists, has a
    supported extension, could be read and the key is set.  The request
    names the model of the key (the flash model for an unknown key) and
    carries the MIME type of the extension and the base64 text of the
    bytes read. *)
Theorem transcribe_audio_request_guard (w : world) (p key : str) :
  let x := run (transcribe_audio p key) w in
  existsb is_save_step (events_of x) = false /\
  (filter is_network (events_of x) = [] \/
   exists data,
     filter is_network (events_of x)
     = [EvGenerate
          match dict_get key MODEL_OPTIONS with
          | Some name => name
          | None => py "models/gemini-2.0-flash-exp"
          end
          (get_gemini_mime_type p) (b64encode data)] /\
     path_exists w p = true /\ is_audio_file p = true /\
     open_read w p = inr data /\ api_key_missing w = false).
Proof.
  destruct (transcribe_audio_trace w p key initial_state)
    as [evs [Hst [Hsave [Hnet _]]]].
  unfold run, events_of.
  destruct (transcribe_audio p key w initial_state) as [o st].
  cbn [snd fst] in *. subst st. cbn [trace app]. split; assumption.
Qed.

(** X5: every exception that leaves [transcribe_audio] has been logged:
    the last event of the run is the error line of line 237 with the
    text of that exception. *)
Theorem transcribe_audio_failure_is_logged (w : world) (p key : str)
        (e : exn) :
  outcome_of (run (transcribe_audio p key) w) = Raised e ->
  exists before,
    events_of (run (transcribe_audio p key) w)
    = before ++ [EvLog ERROR (py "Error transcribing audio: " ++ exn_str e)].
Proof.
  destruct (transcribe_audio_trace w p key initial_state)
    as [evs [Hst [_ [_ Hout]]]].
  unfold run, events_of, outcome_of.
  destruct (transcribe_audio p key w initial_state) as [o st].
  cbn [snd fst] in *. subst st. cbn [trace app].
  intros ->. exact Hout.
Qed.

Lemma transcribe_audio_failure_is_logged_witness :
  exists before,
    events_of (run (transcribe_audio (py "talk.mp3") (py "flash"))
                   (sample_world false None (inl (ApiError []))))
    = before
      ++ [EvLog ERROR (py "Error transcribing audio: Audio file not found: talk.mp3")].
Proof.
  apply (transcribe_audio_failure_is_logged
           (sample_world false None (inl (ApiError [])))
           (py "talk.mp3") (py "flash")
           (FileNotFoundError (py "Audio file not found: talk.mp3"))).
  reflexivity.
Defined.

(** X6: a transcript returned by [transcribe_audio] is the normalized
    text of the answer the service gave to the one request made for this
    file: the text of [response.text], or of the first part with a text
    when that accessor fails. *)
Theorem transcribe_audio_returns_normalized (w : world) (p key t : str) :
  outcome_of (run (transcribe_audio p key) w) = Returned t ->
  exists data r raw,
    open_read w p = inr data /\
    generate_content w
      match dict_get key MODEL_OPTIONS with
      | Some name => name
      | None => py "models/gemini-2.0-flash-exp"
      end
      TRANSCRIPTION_PROMPT (get_gemini_mime_type p) (b64encode data)
    = inr r /\
    is_blocked r = false /\
    (text r = inl raw \/
     exists msg ps, text r = inr msg /\ usable_parts r = Some ps /\
                    first_part_text ps = Some raw) /\
    t = normalize_transcript raw.
Proof.
  destruct (transcribe_audio_trace w p key initial_state)
    as [evs [_ [_ [_ Hout]]]].
  unfold run, outcome_of.
  destruct (transcribe_audio p key w initial_state) as [o st].
  cbn [fst] in *. intros ->.
  destruct Hout as [data [r [raw [H1 [H2 [H3 [H4 [H5 _]]]]]]]].
  exists data, r, raw. auto.
Qed.

Lemma transcribe_audio_returns_normalized_witness :
  exists raw,
    py "Good morning." = normalize_transcript raw.
Proof.
  destruct (transcribe_audio_returns_normalized
              (sample_world true (Some (py "secret"))
                 (inr (sample_response (py "Speaker 1: Good morning."))))
              (py "talk.mp3") (py "pro") (py "Good morning."))
    as [_ [_ [raw [_ [_ [_ [_ H]]]]]]]; [reflexivity|].
  exists raw. exact H.
Defined.

(** X7: [save_transcript] reads no file and calls no service.  It
    returns exactly when the directory could be made, the size of the
    audio file could be read and the report could be written; it then
    returns the path of the one file it wrote, which is the output
    directory joined with the name made from the first clock reading, and
    the report carries the second clock reading and the size.  When it
    raises, the exception has been logged last; the directory failure
    comes before any clock reading or write, the size failure before any
    write, and a file was written to only when the write itself failed. *)
Theorem save_transcript_outcome (w : world) (t p d : str) :
  let x := run (save_transcript t p d) w in
  let path := path_join d (generate_descriptive_filename t p (clock w 0)) in
  let report size :=
    render_report (path_name p) (strftime_iso (clock w 1)) (format_mib size) t in
  existsb is_network (events_of x) = false /\
  existsb is_file_read (events_of x) = false /\
  match outcome_of x with
  | Returned out =>
    out = path /\
    exists size,
      mkdir w (path_str d) = None /\
      stat_size w (path_str p) = inr size /\
      open_write w path (report size) = None /\
      filter is_file_write (events_of x) = [EvWriteFile path (report size)]
  | Raised e =>
    (exists before,
        events_of x
        = before ++ [EvLog ERROR (py "Error saving transcript: " ++ exn_str e)])
    /\
    (mkdir w (path_str d) = Some e /\
     filter is_save_step (events_of x) = [EvMkdir (path_str d)] \/
     mkdir w (path_str d) = None /\
     stat_size w (path_str p) = inl e /\
     filter is_file_write (events_of x) = [] \/
     exists size,
       mkdir w (path_str d) = None /\
       stat_size w (path_str p) = inr size /\
       open_write w path (report size) = Some e /\
       filter is_file_write (events_of x) = [EvWriteFile path (report size)])
  end.
Proof.
  destruct (save_transcript_trace w t p d initial_state)
    as [evs [n' [Hst [Hnet [Hread Hout]]]]].
  cbv zeta. unfold run, events_of, outcome_of.
  destruct (save_transcript t p d w initial_state) as [o st].
  cbn [snd fst] in *. subst st. cbn [trace app ticks initial_state] in *.
  split; [exact Hnet|]. split; [exact Hread|]. exact Hout.
Qed.

(** X8: when [main] returns 0, the file existed, was supported and read,
    the key was set, the service was called once and answered with a
    usable response, and exactly one file was written: the report of the
    normalized transcript, under the output directory, by a write that
    succeeded.  The success line and the path of the report were
    printed. *)
Theorem main_success_saves_one_report (w : world) (a : args) :
  outcome_of (run (main a) w) = Returned 0 ->
  exists data r raw size,
    path_exists w (audio_file a) = true /\
    is_audio_file (audio_file a) = true /\
    open_read w (audio_file a) = inr data /\
    api_key_missing w = false /\
    is_blocked r = false /\
    (text r = inl raw \/
     exists msg ps, text r = inr msg /\ usable_parts r = Some ps /\
                    first_part_text ps = Some raw) /\
    stat_size w (path_str (audio_file a)) = inr size /\
    let t := normalize_transcript raw in
    let path :=
      path_join (output a)
                (generate_descriptive_filename t (audio_file a) (clock w 0)) in
    let report :=
      render_report (path_name (audio_file a)) (strftime_iso (clock w 1))
                    (format_mib size) t in
    open_write w path report = None /\
    filter is_file_write (events_of (run (main a) w))
    = [EvWriteFile path report] /\
    (exists name,
        generate_content w name TRANSCRIPTION_PROMPT
          (get_gemini_mime_type (audio_file a)) (b64encode data) = inr r /\
        dict_get (model a) MODEL_OPTIONS = Some name /\
        filter is_network (events_of (run (main a) w))
        = [EvGenerate name (get_gemini_mime_type (audio_file a))
                      (b64encode data)]) /\
    In (EvPrint (py "Transcription completed successfully!"))
       (events_of (run (main a) w)) /\
    In (EvPrint (py "Transcript saved to: " ++ path))
       (events_of (run (main a) w)).
Proof.
  intros H. pose proof (main_trace w a) as Ht. cbv zeta in Ht.
  rewrite H in Ht. exact Ht.
Qed.

Lemma main_success_saves_one_report_witness :
  let w := sample_world true (Some (py "secret"))
             (inr (sample_response (py "Speaker 1: Good morning."))) in
  exists path report,
    filter is_file_write (events_of (run (main sample_args) w))
    = [EvWriteFile path report].
Proof.
  destruct (main_success_saves_one_report
              (sample_world true (Some (py "secret"))
                 (inr (sample_response (py "Speaker 1: Good morning."))))
              sample_args)
    as [data [r [raw [size [_ [_ [_ [_ [_ [_ [_ [_ [H _]]]]]]]]]]]]];
    [reflexivity|].
  eexists. eexists. exact H.
Defined.

(** X9: when [main] returns 1, a line that starts with [Error: ] was
    printed and the success line was not; the service was called at most
    once; and a file was written to only if the service had been called
    and the write itself failed. *)
Theorem main_failure_is_reported (w : world) (a : args) :
  outcome_of (run (main a) w) = Returned 1 ->
  (exists msg, In (EvPrint (py "Error: " ++ msg)) (events_of (run (main a) w)))
  /\
  existsb (fun e => match e with
                    | EvPrint l =>
                      str_eqb l (py "Transcription completed successfully!")
                    | _ => false
                    end) (events_of (run (main a) w)) = false /\
  length (filter is_network (events_of (run (main a) w))) <= 1 /\
  (filter is_file_write (events_of (run (main a) w)) = [] \/
   exists path report e,
     filter is_file_write (events_of (run (main a) w))
     = [EvWriteFile path report] /\
     open_write w path report = Some e /\
     length (filter is_network (events_of (run (main a) w))) = 1).
Proof.
  intros H. pose proof (main_trace w a) as Ht. cbv zeta in Ht.
  rewrite H in Ht. exact Ht.
Qed.

Lemma main_failure_is_reported_witness :
  let w := sample_world true (Some (py "secret")) (inl (ApiError (py "timeout"))) in
  exists msg, In (EvPrint (py "Error: " ++ msg)) (events_of (run (main sample_args) w)).
Proof.
  destruct (main_failure_is_reported
              (sample_world true (Some (py "secret"))
                            (inl (ApiError (py "timeout"))))
              sample_args) as [H _]; [reflexivity|].
  exact H.
Defined.

(** X10: in no world does [main] call the service twice or write two
    files, and it writes only after the service has been called: there
    is no retry and no second report. *)
Theorem main_single_attempt (w : world) (a : args) :
  let evs := events_of (run (main a) w) in
  length (filter is_network evs) <= 1 /\
  length (filter is_file_write evs) <= 1 /\
  length (filter is_file_write evs) <= length (filter is_network evs).
Proof.
  pose proof (main_trace w a) as Ht. cbv zeta in *.
  destruct (outcome_of (run (main a) w)) as [[|[|status]]|e].
  - destruct Ht as [data [r [raw [size Ht]]]].
    destruct Ht as [_ [_ [_ [_ [_ [_ [_ [_ [Hw [[name [_ [_ Hn]]] _]]]]]]]]]].
    rewrite Hw, Hn. simpl. lia.
  - destruct Ht as [_ [_ [Hn [Hw | [path [report [e [Hw [_ Hn']]]]]]]]];
      rewrite Hw; simpl; lia.
  - destruct Ht as [_ Ht]. rewrite Ht. simpl. lia.
  - destruct Ht.
Qed.

(** ** Normalization only deletes *)

(** X11: normalization only deletes: the normalized transcript is the
    extracted text with some characters removed, in the same order, and
    is never longer than it. *)
Theorem normalize_only_deletes (t : str) :
  subsequence (normalize_transcript t) t /\
  length (normalize_transcript t) <= length t.
Proof.
  assert (H : subsequence (normalize_transcript t) t).
  { unfold normalize_transcript.
    apply subsequence_trans with (b := strip_boilerplate t).
    - unfold collapse_single_speaker.
      destruct (length (speaker_labels (strip_boilerplate t)) =? 1);
        [|apply subsequence_refl].
      eapply subsequence_trans; [apply strip_subsequence|].
      eapply subsequence_trans; apply replace_subsequence.
    - unfold strip_boilerplate.
      eapply subsequence_trans; [apply strip_subsequence|].
      eapply subsequence_trans; [apply replace_subsequence|].
      eapply subsequence_trans; apply replace_subsequence. }
  split; [exact H | now apply subsequence_length].
Qed.

(** ** What the speaker scan finds *)

Lemma mentions_iff_plain (i : nat) (line : str) :
  mentions i line = contains (speaker_label i) line.
Proof.
  destruct (contains (speaker_label i) line) eqn:E.
  - unfold mentions. now rewrite E.
  - destruct (mentions i line) eqn:M; [|reflexivity].
    apply bold_label_mentions_plain in M. congruence.
Qed.

(** X12: the speaker numbers found are exactly the numbers from 1 to 9
    whose plain label [Speaker i:] occurs on a line that starts, once
    stripped, with [Speaker ] or [**Speaker ]; the bold test adds nothing,
    as a bold label holds the plain one.  The set has no duplicates and at
    most nine members: a speaker 10 or higher is never counted. *)
Theorem speaker_scan_spec (t : str) :
  NoDup (speaker_labels t) /\
  length (speaker_labels t) <= 9 /\
  forall i,
    In i (speaker_labels t) <->
    1 <= i <= 9 /\
    exists line,
      In line (split_on nl t) /\ is_label_line line = true /\
      contains (speaker_label i) line = true.
Proof.
  assert (Hin : forall i,
    In i (speaker_labels t) <->
    1 <= i <= 9 /\
    exists line,
      In line (split_on nl t) /\ is_label_line line = true /\
      contains (speaker_label i) line = true).
  { intros i. rewrite speaker_labels_In. split.
    - intros [line [H1 [H2 [H3 H4]]]]. apply in_seq in H3.
      rewrite mentions_iff_plain in H4. split; [lia|]. exists line. auto.
    - intros [Hi [line [H1 [H2 H3]]]]. exists line.
      rewrite mentions_iff_plain. repeat split; auto.
      apply in_seq. lia. }
  split; [apply speaker_labels_NoDup|]. split; [|exact Hin].
  change 9 with (length (seq 1 9)).
  apply NoDup_incl_length; [apply speaker_labels_NoDup|].
  intros i Hi. apply Hin in Hi. apply in_seq. lia.
Qed.

(** ** Descriptions made of meaningful words *)

Lemma raw_description_cases (t : str) :
  raw_description t
  = match meaningful_words t with
    | _ :: _ => join (py "_") (firstn 4 (meaningful_words t))
    | [] =>
      join (py "_") (map lower (filter isalpha (firstn 3 (split_ws (strip t)))))
    end.
Proof. reflexivity. Qed.

Lemma take_while_firstn (p : ascii -> bool) (s : str) :
  firstn (length (take_while p s)) s = take_while p s.
Proof.
  induction s as [|c s IH]; simpl; [reflexivity|].
  destruct (p c); simpl; [now rewrite IH | reflexivity].
Qed.

Lemma take_while_Forall (p : ascii -> bool) (s : str) :
  Forall (fun c => p c = true) (take_while p s).
Proof.
  induction s as [|c s IH]; simpl; [constructor|].
  destruct (p c) eqn:E; constructor; assumption.
Qed.

Lemma match_word_some (prev : option ascii) (s : str) (n : nat) :
  match_word prev s = Some n ->
  n = length (take_while is_ascii_letter s) /\ 3 <= n.
Proof.
  unfold match_word.
  destruct (negb _ && (3 <=? length (take_while is_ascii_letter s)) && negb _)
    eqn:E; [|discriminate].
  intros H. inversion H; subst. split; [reflexivity|].
  apply andb_true_iff in E. destruct E as [E _].
  apply andb_true_iff in E. destruct E as [_ E].
  now apply Nat.leb_le in E.
Qed.

(** The words found are runs of at least three ASCII letters. *)
Lemma findall_go_words (s : str) (prev : option ascii) (k : nat) :
  Forall (fun w => 3 <= length w /\
                   Forall (fun c => is_ascii_letter c = true) w)
         (findall_go prev k s).
Proof.
  revert prev k. induction s as [|c s IH]; intros prev k; [constructor|].
  cbn [findall_go]. destruct k as [|k]; [|apply IH].
  destruct (match_word prev (c :: s)) as [[|j]|] eqn:E; try apply IH.
  constructor; [|apply IH].
  apply match_word_some in E. destruct E as [E1 E2].
  rewrite E1, take_while_firstn. split.
  - rewrite <- E1. exact E2.
  - apply take_while_Forall.
Qed.

Lemma lower_ascii_letter (c : ascii) :
  is_ascii_letter c = true -> is_lower_or_underscore (lower_char c) = true.
Proof.
  destruct c as [[] [] [] [] [] [] [] []]; vm_compute; intros H;
    first [reflexivity | discriminate H].
Qed.

Lemma lower_or_underscore_clean (c : ascii) :
  is_lower_or_underscore c = true ->
  kept_char c = true /\ is_dash_or_space c = false /\ is_word c = true.
Proof.
  destruct c as [[] [] [] [] [] [] [] []]; vm_compute; intros H;
    first [repeat split; reflexivity | discriminate H].
Qed.

Lemma join_Forall (P : ascii -> Prop) (sep : str) (l : list str) :
  Forall P sep -> Forall (Forall P) l -> Forall P (join sep l).
Proof.
  intros Hsep. induction 1 as [|x l Hx Hl IH]; [constructor|].
  destruct l as [|y l]; [exact Hx|].
  change (join sep (x :: y :: l)) with (x ++ sep ++ join sep (y :: l)).
  apply Forall_app. split; [exact Hx|].
  apply Forall_app. split; assumption.
Qed.

Lemma scan_unsafe_identity (s : str) :
  Forall (fun c => kept_char c = true) s ->
  scan_sub match_unsafe_char [] 0 s = s.
Proof.
  induction 1 as [|c s Hc Hs IH]; [reflexivity|].
  cbn [scan_sub match_unsafe_char]. fold (kept_char c).
  rewrite Hc. cbn [negb]. now rewrite IH.
Qed.

Lemma scan_runs_identity (s : str) :
  Forall (fun c => is_dash_or_space c = false) s ->
  scan_sub match_dash_space_run (py "_") 0 s = s.
Proof.
  induction 1 as [|c s Hc Hs IH]; [reflexivity|].
  cbn [scan_sub]. unfold match_dash_space_run at 1.
  cbn [take_while]. rewrite Hc. cbn [length]. now rewrite IH.
Qed.

Lemma clean_description_plain (d : str) (c : ascii) (r : str) :
  d = c :: r ->
  Forall (fun c => is_lower_or_underscore c = true) d ->
  clean_description d = firstn 50 d.
Proof.
  intros Hcr Hd. unfold clean_description. cbv zeta.
  rewrite scan_unsafe_identity, scan_runs_identity.
  - assert (Hcut : (if 50 <? length d then firstn 50 d else d) = firstn 50 d).
    { destruct (50 <? length d) eqn:L; [reflexivity|].
      apply Nat.ltb_ge in L. now rewrite firstn_all2. }
    rewrite Hcut, Hcr. reflexivity.
  - revert Hd. apply Forall_impl. intros x Hx.
    now apply lower_or_underscore_clean.
  - revert Hd. apply Forall_impl. intros x Hx.
    now apply lower_or_underscore_clean.
Qed.

Lemma meaningful_words_shape (t : str) :
  Forall (fun w => 3 <= length w /\
                   Forall (fun c => is_lower_or_underscore c = true) w /\
                   str_in w common_words = false)
         (meaningful_words t).
Proof.
  unfold meaningful_words, findall_words.
  assert (H := findall_go_words (preview_of t) None 0).
  induction H as [|w l [Hlen Hw] Hl IH]; [constructor|].
  cbn [filter]. destruct (str_in (lower w) common_words) eqn:E; cbn [negb];
    [exact IH|].
  cbn [map]. constructor; [|exact IH].
  unfold lower. rewrite length_map. split; [exact Hlen|]. split; [|exact E].
  apply Forall_map. revert Hw. apply Forall_impl. apply lower_ascii_letter.
Qed.

(** X13: when the preview of the transcript has a meaningful word (a run
    of three or more ASCII letters between word boundaries that is not a
    stop word), the description is the first four such words, lower-cased
    and joined by underscores, cut to 50 characters; it is made of the
    letters [a] to [z] and underscores only.  Each meaningful word has at
    least three letters and is no stop word. *)
Theorem description_from_meaningful_words (t : str) :
  meaningful_words t <> [] ->
  describe t = firstn 50 (join (py "_") (firstn 4 (meaningful_words t))) /\
  forallb is_lower_or_underscore (describe t) = true /\
  Forall (fun w => 3 <= length w /\
                   Forall (fun c => is_lower_or_underscore c = true) w /\
                   str_in w common_words = false)
         (meaningful_words t).
Proof.
  intros Hne. assert (Hshape := meaningful_words_shape t).
  assert (Hraw : raw_description t
                 = join (py "_") (firstn 4 (meaningful_words t))).
  { rewrite raw_description_cases.
    destruct (meaningful_words t); [congruence | reflexivity]. }
  set (d := join (py "_") (firstn 4 (meaningful_words t))) in *.
  assert (Hd : Forall (fun c => is_lower_or_underscore c = true) d).
  { apply join_Forall; [repeat constructor|].
    apply Forall_forall. intros w Hw. apply in_firstn in Hw.
    rewrite Forall_forall in Hshape. now apply (Hshape w Hw). }
  assert (Hnonempty : exists c r, d = c :: r).
  { unfold d. destruct (meaningful_words t) as [|w l]; [congruence|].
    inversion Hshape as [|? ? [Hlen _] _]; subst.
    destruct w as [|c w]; [simpl in Hlen; lia|].
    destruct l as [|w' l]; simpl; eexists; eexists; reflexivity. }
  assert (Hdesc : describe t = firstn 50 d).
  { unfold describe. rewrite Hraw.
    destruct Hnonempty as [c [r Hcr]].
    now apply (clean_description_plain d c r). }
  split; [exact Hdesc|]. split; [|exact Hshape].
  rewrite Hdesc. apply forallb_forall. apply Forall_forall.
  now apply Forall_firstn_str.
Qed.

Lemma description_from_meaningful_words_witness :
  describe (py "Speaker 1: Well, the quarterly numbers are in.")
  = py "well_quarterly_numbers".
Proof.
  destruct (description_from_meaningful_words
              (py "Speaker 1: Well, the quarterly numbers are in."))
    as [H _]; [vm_compute; discriminate|].
  rewrite H. reflexivity.
Defined.

(** ** Paths and names *)

Lemma split_on_no_sep (sep : ascii) (s : str) :
  Forall (fun f => ~ In sep f) (split_on sep s).
Proof.
  induction s as [|c s IH]; simpl.
  - constructor; [intros [] | constructor].
  - destruct (chr_eqb c sep) eqn:E.
    + constructor; [intros [] | exact IH].
    + apply chr_eqb_neq in E.
      destruct (split_on sep s) as [|f fs].
      * constructor; [|constructor]. intros [H | []]. congruence.
      * inversion IH as [|? ? Hf Hfs]; subst. constructor; [|exact Hfs].
        intros [H | H]; [congruence | now apply Hf].
Qed.

Lemma split_on_whole (sep : ascii) (s : str) :
  ~ In sep s -> split_on sep s = [s].
Proof.
  induction s as [|c s IH]; intros H; [reflexivity|].
  simpl. destruct (chr_eqb c sep) eqn:E.
  - apply chr_eqb_eq in E. subst. exfalso. apply H. now left.
  - rewrite IH; [reflexivity|]. intros Hin. apply H. now right.
Qed.

Lemma split_on_app_sep (sep : ascii) (a b : str) :
  split_on sep (a ++ sep :: b) = split_on sep a ++ split_on sep b.
Proof.
  induction a as [|c a IH]; simpl.
  - now rewrite chr_eqb_refl.
  - destruct (chr_eqb c sep); [now rewrite IH|].
    rewrite IH. destruct (split_on_first sep a) as [f [fs [r [E _]]]].
    now rewrite E.
Qed.

Lemma rfind_char_none (c : ascii) (s : str) :
  ~ In c s -> rfind_char c s = None.
Proof.
  induction s as [|x s IH]; intros H; [reflexivity|].
  simpl. rewrite IH by (intros Hin; apply H; now right).
  destruct (chr_eqb x c) eqn:E; [|reflexivity].
  apply chr_eqb_eq in E. subst. exfalso. apply H. now left.
Qed.

Lemma rfind_char_last (c : ascii) (b e : str) :
  ~ In c e -> rfind_char c (b ++ c :: e) = Some (length b).
Proof.
  intros H. induction b as [|x b IH]; simpl.
  - now rewrite rfind_char_none, chr_eqb_refl.
  - now rewrite IH.
Qed.

Lemma str_eqb_neq (a b : str) : a <> b -> str_eqb a b = false.
Proof.
  intros H. destruct (str_eqb a b) eqn:E; [|reflexivity].
  apply str_eqb_eq in E. congruence.
Qed.

Lemma path_parts_proper (name : str) :
  is_proper_name name -> path_parts name = [name].
Proof.
  intros [H1 [H2 H3]]. unfold path_parts.
  rewrite split_on_whole by exact H3. cbn [filter].
  now rewrite (str_eqb_neq _ _ H1), (str_eqb_neq _ _ H2).
Qed.

Lemma path_parts_under (dir name : str) :
  is_proper_name name ->
  path_parts (dir ++ py "/" ++ name) = path_parts dir ++ [name].
Proof.
  intros H. unfold path_parts.
  change (dir ++ py "/" ++ name) with (dir ++ "/"%char :: name).
  rewrite split_on_app_sep, filter_app. f_equal.
  now apply path_parts_proper.
Qed.

Lemma path_name_proper (pre name : str) :
  is_dir_prefix pre -> is_proper_name name -> path_name (pre ++ name) = name.
Proof.
  intros [-> | [dir ->]] H; unfold path_name.
  - now rewrite path_parts_proper.
  - rewrite <- app_assoc, path_parts_under by exact H. apply last_last.
Qed.

(** X14: for a path that ends in a name [base.ext], whatever directory
    comes before it, [base] not empty and without slash, [ext] not empty
    and without dot or slash: the name is [base.ext], the stem [base],
    the suffix [.ext]; so the path is accepted exactly when [.ext],
    lower-cased, is a key of the MIME table, and the report is named
    description, [base], time stamp. *)
Theorem path_of_named_file (pre base ext : str) :
  is_dir_prefix pre ->
  base <> [] -> ~ In "/"%char base ->
  ext <> [] -> ~ In "."%char ext -> ~ In "/"%char ext ->
  let p := pre ++ base ++ py "." ++ ext in
  path_name p = base ++ py "." ++ ext /\
  path_stem p = base /\
  path_suffix p = py "." ++ ext /\
  is_audio_file p = dict_mem (lower (py "." ++ ext)) AUDIO_EXTENSIONS_TO_MIME /\
  forall t now,
    generate_descriptive_filename t p now
    = describe t ++ py "_" ++ base ++ py "_" ++ strftime_compact now
      ++ py ".md".
Proof.
  intros Hpre Hb Hbs He Hed Hes p.
  assert (Hname : path_name p = base ++ py "." ++ ext).
  { apply path_name_proper; [exact Hpre|]. repeat split.
    - destruct base; [congruence | discriminate].
    - destruct base as [|c [|c' base]]; [congruence | | discriminate].
      destruct ext; [congruence | discriminate].
    - intros H. apply in_app_or in H. destruct H as [H | [H | H]];
        [now apply Hbs | discriminate H | now apply Hes]. }
  assert (Hdot : suffix_dot (base ++ py "." ++ ext) = Some (length base)).
  { unfold suffix_dot. change (base ++ py "." ++ ext) with (base ++ "."%char :: ext).
    rewrite rfind_char_last by exact Hed.
    rewrite length_app. cbn [length].
    destruct base; [congruence|]. destruct ext; [congruence|].
    cbn [length].
    replace (0 <? S (length base)) with true by (symmetry; apply Nat.ltb_lt; lia).
    replace (S (length base) <? S (length base) + S (S (length ext)) - 1)
      with true by (symmetry; apply Nat.ltb_lt; lia).
    reflexivity. }
  assert (Hstem : path_stem p = base).
  { unfold path_stem. rewrite Hname, Hdot.
    now rewrite firstn_app, Nat.sub_diag, firstn_all, app_nil_r. }
  assert (Hsuf : path_suffix p = py "." ++ ext).
  { unfold path_suffix. rewrite Hname, Hdot. apply skipn_length_app. }
  split; [exact Hname|]. split; [exact Hstem|]. split; [exact Hsuf|].
  split.
  - unfold is_audio_file. now rewrite Hsuf.
  - intros t now. unfold generate_descriptive_filename. now rewrite Hstem.
Qed.

Lemma path_of_named_file_witness :
  path_stem (py "/home/ann/My Talks/talk 01.final.MP3") = py "talk 01.final" /\
  is_audio_file (py "/home/ann/My Talks/talk 01.final.MP3") = true.
Proof.
  destruct (path_of_named_file (py "/home/ann/My Talks/") (py "talk 01.final")
                               (py "MP3"))
    as [_ [Hstem [_ [Haud _]]]].
  - right. exists (py "/home/ann/My Talks"). reflexivity.
  - discriminate.
  - simpl. intuition discriminate.
  - discriminate.
  - simpl. intuition discriminate.
  - simpl. intuition discriminate.
  - split; [exact Hstem | exact (eq_trans Haud eq_refl)].
Defined.

(** X15: a name without a usable suffix is never accepted: a name
    without any dot, a name whose only dot is its first character (a
    file called [.mp3]) and a name whose only dot is its last character
    all have an empty suffix, so [is_audio_file] is false for them and
    the MIME lookup gives the default. *)
Theorem name_without_suffix_rejected (pre s name : str) :
  is_dir_prefix pre ->
  s <> [] -> ~ In "."%char s -> ~ In "/"%char s ->
  name = s \/ name = py "." ++ s \/ name = s ++ py "." ->
  path_name (pre ++ name) = name /\
  path_suffix (pre ++ name) = [] /\
  path_stem (pre ++ name) = name /\
  is_audio_file (pre ++ name) = false /\
  get_gemini_mime_type (pre ++ name) = py "audio/mp4".
Proof.
  intros Hpre Hs Hdot Hsep Hname.
  assert (Hproper : is_proper_name name).
  { destruct s as [|c s]; [congruence|].
    destruct Hname as [-> | [-> | ->]]; repeat split; try discriminate.
    - intros E. inversion E; subst. apply Hdot. now left.
    - exact Hsep.
    - intros [H | H]; [discriminate H | now apply Hsep].
    - destruct s; discriminate.
    - intros H. apply in_app_or in H.
      destruct H as [H | [H | []]]; [now apply Hsep | discriminate H]. }
  assert (Hn : path_name (pre ++ name) = name)
    by now apply path_name_proper.
  assert (Hnone : suffix_dot name = None).
  { unfold suffix_dot. destruct Hname as [-> | [-> | ->]].
    - now rewrite rfind_char_none.
    - change (py "." ++ s) with ([] ++ "."%char :: s).
      now rewrite rfind_char_last.
    - change (s ++ py ".") with (s ++ "."%char :: []).
      rewrite rfind_char_last by (intros []).
      rewrite length_app. cbn [length].
      replace (length s <? length s + 1 - 1) with false
        by (symmetry; apply Nat.ltb_ge; lia).
      now rewrite andb_false_r. }
  assert (Hsuf : path_suffix (pre ++ name) = []).
  { unfold path_suffix. now rewrite Hn, Hnone. }
  split; [exact Hn|]. split; [exact Hsuf|]. split.
  - unfold path_stem. now rewrite Hn, Hnone.
  - unfold is_audio_file, get_gemini_mime_type. rewrite Hsuf. split; reflexivity.
Qed.

Lemma name_without_suffix_rejected_witness :
  is_audio_file (py "recordings/.mp3") = false /\
  is_audio_file (py "talk.") = false.
Proof.
  split.
  - apply (name_without_suffix_rejected (py "recordings/") (py "mp3")
                                        (py ".mp3")).
    + right. exists (py "recordings"). reflexivity.
    + discriminate.
    + simpl. intuition discriminate.
    + simpl. intuition discriminate.
    + right. left. reflexivity.
  - apply (name_without_suffix_rejected [] (py "talk") (py "talk.")).
    + left. reflexivity.
    + discriminate.
    + simpl. intuition discriminate.
    + simpl. intuition discriminate.
    + right. right. reflexivity.
Defined.

(** ** Where the report goes *)

Lemma path_root_cases (d : str) :
  path_root d = [] \/ path_root d = py "/" \/ path_root d = py "//".
Proof.
  destruct d as [|c d]; [now left|].
  destruct c as [[] [] [] [] [] [] [] []]; try (left; reflexivity).
  destruct d as [|c d]; [right; left; reflexivity|].
  destruct c as [[] [] [] [] [] [] [] []]; try (right; left; reflexivity).
  destruct d as [|c d]; [right; right; reflexivity|].
  destruct c as [[] [] [] [] [] [] [] []];
    first [right; right; reflexivity | right; left; reflexivity].
Qed.

Lemma path_root_of_word (c : ascii) (r : str) :
  is_word c = true -> path_root (c :: r) = [].
Proof.
  destruct c as [[] [] [] [] [] [] [] []]; intros H;
    first [reflexivity | discriminate H].
Qed.

Lemma split_on_join (l : list str) :
  l <> [] -> Forall (fun x => ~ In "/"%char x) l ->
  split_on "/" (join (py "/") l) = l.
Proof.
  intros Hne H. revert Hne.
  induction H as [|x l Hx Hl IH]; intros Hne;
    [exfalso; now apply Hne|].
  destruct l as [|y l].
  - now apply split_on_whole.
  - change (join (py "/") (x :: y :: l))
      with (x ++ "/"%char :: join (py "/") (y :: l)).
    rewrite split_on_app_sep, split_on_whole by exact Hx.
    rewrite IH by discriminate. reflexivity.
Qed.

Lemma path_parts_are_proper (d : str) : Forall is_proper_name (path_parts d).
Proof.
  apply Forall_forall. intros f Hf. unfold path_parts in Hf.
  apply filter_In in Hf. destruct Hf as [Hin Hok].
  apply andb_true_iff in Hok. destruct Hok as [H1 H2].
  apply negb_true_iff in H1, H2.
  pose proof (split_on_no_sep "/" d) as Hsep.
  rewrite Forall_forall in Hsep. repeat split.
  - intros ->. discriminate H1.
  - intros ->. discriminate H2.
  - now apply Hsep.
Qed.

Lemma filter_proper (l : list str) :
  Forall is_proper_name l ->
  filter (fun comp => negb (str_eqb comp []) && negb (str_eqb comp (py "."))) l
  = l.
Proof.
  induction 1 as [|x l [H1 [H2 _]] Hl IH]; [reflexivity|].
  cbn [filter].
  now rewrite (str_eqb_neq _ _ H1), (str_eqb_neq _ _ H2), IH.
Qed.

Lemma path_parts_join (root : str) (l : list str) :
  root = [] \/ root = py "/" \/ root = py "//" ->
  l <> [] -> Forall is_proper_name l ->
  path_parts (root ++ join (py "/") l) = l.
Proof.
  intros Hroot Hne Hl.
  assert (Hsplit : split_on "/" (join (py "/") l) = l).
  { apply split_on_join; [exact Hne|].
    revert Hl. apply Forall_impl. intros x [_ [_ H]]. exact H. }
  assert (Hhead : forall s,
            split_on "/" ("/"%char :: s) = [] :: split_on "/" s)
    by reflexivity.
  unfold path_parts.
  destruct Hroot as [-> | [-> | ->]].
  - cbn [app]. rewrite Hsplit. now apply filter_proper.
  - change (py "/" ++ join (py "/") l) with ("/"%char :: join (py "/") l).
    rewrite Hhead, Hsplit. cbn [filter str_eqb negb andb].
    now apply filter_proper.
  - change (py "//" ++ join (py "/") l)
      with ("/"%char :: "/"%char :: join (py "/") l).
    rewrite !Hhead, Hsplit. cbn [filter str_eqb negb andb].
    now apply filter_proper.
Qed.

Lemma filename_starts_with_word (t p : str) (now : datetime) :
  exists c r,
    generate_descriptive_filename t p now = c :: r /\ is_word c = true.
Proof.
  unfold generate_descriptive_filename.
  pose proof (clean_description_word (raw_description t)) as Hw.
  pose proof (clean_description_length (raw_description t)) as Hl.
  fold (describe t) in Hw, Hl.
  destruct (describe t) as [|c r]; [simpl in Hl; lia|].
  inversion Hw; subst. eexists. eexists. split; [reflexivity | assumption].
Qed.

Lemma word_not_slash (s : str) :
  Forall (fun c => is_word c = true) s -> ~ In "/"%char s.
Proof.
  intros H Hin. rewrite Forall_forall in H. specialize (H _ Hin).
  discriminate H.
Qed.

Lemma path_name_no_slash (p : str) : ~ In "/"%char (path_name p).
Proof.
  unfold path_name. destruct (path_parts p) as [|x l] eqn:E; [intros []|].
  assert (H : In (last (x :: l) []) (path_parts p)).
  { rewrite E. apply last_In. discriminate. }
  pose proof (path_parts_are_proper p) as Hp. rewrite Forall_forall in Hp.
  now destruct (Hp _ H) as [_ [_ Hs]].
Qed.

Lemma filename_is_proper (t p : str) (now : datetime) :
  is_proper_name (generate_descriptive_filename t p now).
Proof.
  destruct (filename_starts_with_word t p now) as [c [r [E Hc]]].
  repeat split.
  - rewrite E. discriminate.
  - rewrite E. intros H. inversion H; subst. discriminate Hc.
  - unfold generate_descriptive_filename. intros H.
    apply in_app_or in H. destruct H as [H | H];
      [revert H; apply word_not_slash, clean_description_word|].
    apply in_app_or in H. destruct H as [H | H];
      [destruct H as [H | []]; discriminate H|].
    apply in_app_or in H. destruct H as [H | H].
    { apply (path_name_no_slash p). rewrite path_name_stem_suffix.
      apply in_or_app. now left. }
    apply in_app_or in H. destruct H as [H | H];
      [destruct H as [H | []]; discriminate H|].
    apply in_app_or in H. destruct H as [H | H];
      [revert H; apply word_not_slash, strftime_compact_word|].
    simpl in H. intuition discriminate.
Qed.

(** X16: the name made for a report is one proper path component: it is
    not empty, it is not [.], it holds no slash, whatever the transcript
    and the input path are.  Joined to the output directory it is the
    last component of the result, after the components of the directory:
    the report is written directly inside the output directory and
    nowhere else. *)
Theorem report_stays_in_output_directory (t p d : str) (now : datetime) :
  let f := generate_descriptive_filename t p now in
  is_proper_name f /\
  path_join d f = path_root d ++ join (py "/") (path_parts d ++ [f]) /\
  path_parts (path_join d f) = path_parts d ++ [f] /\
  path_name (path_join d f) = f.
Proof.
  intros f.
  assert (Hf : is_proper_name f) by apply filename_is_proper.
  assert (Hjoin : path_join d f
                  = path_root d ++ join (py "/") (path_parts d ++ [f])).
  { unfold path_join.
    destruct (filename_starts_with_word t p now) as [c [r [E Hc]]].
    fold f in E. rewrite E at 1. rewrite (path_root_of_word c r Hc).
    rewrite (path_parts_proper f Hf).
    destruct (path_parts d ++ [f]) as [|x l] eqn:El.
    - destruct (path_parts d); discriminate El.
    - destruct (path_root d); reflexivity. }
  assert (Hparts : path_parts (path_join d f) = path_parts d ++ [f]).
  { rewrite Hjoin. apply path_parts_join.
    - apply path_root_cases.
    - intros E. destruct (path_parts d); discriminate E.
    - apply Forall_app. split; [apply path_parts_are_proper|].
      constructor; [exact Hf | constructor]. }
  split; [exact Hf|]. split; [exact Hjoin|]. split; [exact Hparts|].
  unfold path_name. rewrite Hparts. apply last_last.
Qed.

(** ** Time stamps tell runs apart *)

Lemma digit_char_inj (a b : N) :
  (a < 10)%N -> (b < 10)%N -> digit_char a = digit_char b -> a = b.
Proof.
  intros Ha Hb H. unfold digit_char in H.
  apply (f_equal N_of_ascii) in H.
  rewrite !N_ascii_embedding in H by lia. lia.
Qed.

Lemma dec_fixed_inj (w : nat) :
  forall n m, (n < 10 ^ N.of_nat w)%N -> (m < 10 ^ N.of_nat w)%N ->
              dec_fixed w n = dec_fixed w m -> n = m.
Proof.
  induction w as [|w IH]; intros n m Hn Hm H.
  - simpl in Hn, Hm. lia.
  - rewrite Nat2N.inj_succ, N.pow_succ_r' in Hn, Hm.
    cbn [dec_fixed] in H. apply app_inj_tail in H. destruct H as [H1 H2].
    apply IH in H1;
      [| apply N.Div0.div_lt_upper_bound; lia
       | apply N.Div0.div_lt_upper_bound; lia].
    apply digit_char_inj in H2;
      [| apply N.mod_lt; discriminate | apply N.mod_lt; discriminate].
    rewrite (N.div_mod n 10), (N.div_mod m 10) by discriminate.
    now rewrite H1, H2.
Qed.

Lemma app_same_length (A : Type) (a a' b b' : list A) :
  length a = length a' -> a ++ b = a' ++ b' -> a = a' /\ b = b'.
Proof.
  revert a'. induction a as [|x a IH]; intros [|y a'] Hl H;
    try discriminate Hl.
  - auto.
  - inversion H; subst. destruct (IH a') as [-> ->]; auto.
Qed.

Lemma strftime_compact_inj (t1 t2 : datetime) :
  fits_stamp t1 = true -> fits_stamp t2 = true ->
  strftime_compact t1 = strftime_compact t2 -> t1 = t2.
Proof.
  destruct t1 as [y1 mo1 d1 h1 mi1 s1], t2 as [y2 mo2 d2 h2 mi2 s2].
  unfold fits_stamp, strftime_compact. cbn [year month day hour minute second].
  intros F1 F2 H.
  repeat (apply andb_true_iff in F1; destruct F1 as [F1 ?]).
  repeat (apply andb_true_iff in F2; destruct F2 as [F2 ?]).
  repeat match goal with
         | H : (_ <? _)%N = true |- _ => apply N.ltb_lt in H
         end.
  apply app_same_length in H; [|now rewrite !dec_fixed_length].
  destruct H as [Hy H].
  apply app_same_length in H; [|now rewrite !dec_fixed_length].
  destruct H as [Hmo H].
  apply app_same_length in H; [|now rewrite !dec_fixed_length].
  destruct H as [Hd H].
  apply app_same_length in H; [|reflexivity]. destruct H as [_ H].
  apply app_same_length in H; [|now rewrite !dec_fixed_length].
  destruct H as [Hh H].
  apply app_same_length in H; [|now rewrite !dec_fixed_length].
  destruct H as [Hmi Hs].
  apply (dec_fixed_inj 4) in Hy; [|assumption|assumption].
  apply (dec_fixed_inj 2) in Hmo; [|assumption|assumption].
  apply (dec_fixed_inj 2) in Hd; [|assumption|assumption].
  apply (dec_fixed_inj 2) in Hh; [|assumption|assumption].
  apply (dec_fixed_inj 2) in Hmi; [|assumption|assumption].
  apply (dec_fixed_inj 2) in Hs; [|assumption|assumption].
  now subst.
Qed.

(** X17: for the same transcript and the same input path, two clock
    readings that differ give two different names: names collide only
    within one second. *)
Theorem filename_tells_seconds_apart (t p : str) (now1 now2 : datetime) :
  fits_stamp now1 = true -> fits_stamp now2 = true ->
  now1 <> now2 ->
  str_eqb (generate_descriptive_filename t p now1)
          (generate_descriptive_filename t p now2) = false.
Proof.
  intros F1 F2 Hne. apply str_eqb_neq. intros H. apply Hne.
  unfold generate_descriptive_filename in H.
  do 4 apply app_inv_head in H. apply app_inv_tail in H.
  now apply strftime_compact_inj.
Qed.

Lemma filename_tells_seconds_apart_witness :
  str_eqb (generate_descriptive_filename (py "Hello there") (py "a.mp3")
                                         (mk_datetime 2024 3 7 9 5 1))
          (generate_descriptive_filename (py "Hello there") (py "a.mp3")
                                         (mk_datetime 2024 3 7 9 5 2))
  = false.
Proof.
  apply (filename_tells_seconds_apart (py "Hello there") (py "a.mp3"));
    [reflexivity | reflexivity | discriminate].
Defined.

(** ** The payload *)

Lemma b64_table_check :
  forallb
    (fun a =>
       negb (chr_eqb (b64_char a) "=") &&
       forallb (fun b => negb (chr_eqb (b64_char a) (b64_char b)) || (a =? b)%N)
               (map N.of_nat (seq 0 64)))
    (map N.of_nat (seq 0 64))
  = true.
Proof. vm_compute. reflexivity. Qed.

Lemma in_b64_range (a : N) : (a < 64)%N -> In a (map N.of_nat (seq 0 64)).
Proof.
  intros H. rewrite <- (N2Nat.id a). apply in_map. apply in_seq. lia.
Qed.

Lemma b64_char_not_pad (a : N) : (a < 64)%N -> b64_char a <> "="%char.
Proof.
  intros Ha E. pose proof b64_table_check as H.
  rewrite forallb_forall in H. specialize (H a (in_b64_range a Ha)).
  apply andb_true_iff in H. destruct H as [H _].
  rewrite E, chr_eqb_refl in H. discriminate H.
Qed.

Lemma b64_char_inj (a b : N) :
  (a < 64)%N -> (b < 64)%N -> b64_char a = b64_char b -> a = b.
Proof.
  intros Ha Hb E. pose proof b64_table_check as H.
  rewrite forallb_forall in H. specialize (H a (in_b64_range a Ha)).
  apply andb_true_iff in H. destruct H as [_ H].
  rewrite forallb_forall in H. specialize (H b (in_b64_range b Hb)).
  rewrite E, chr_eqb_refl in H. cbn [negb orb] in H.
  now apply N.eqb_eq in H.
Qed.

Lemma byte_to_N_inj (x y : Byte.byte) : Byte.to_N x = Byte.to_N y -> x = y.
Proof.
  intros H. pose proof (Byte.of_to_N x) as Hx.
  rewrite H, Byte.of_to_N in Hx. now inversion Hx.
Qed.

(** The four sextets of three bytes, and what they determine. *)
Lemma sextets_bounds (x y z : N) :
  (x <= 255)%N -> (y <= 255)%N -> (z <= 255)%N ->
  (x / 4 < 64 /\ (x mod 4) * 16 + y / 16 < 64 /\
   (y mod 16) * 4 + z / 64 < 64 /\ z mod 64 < 64 /\
   (x mod 4) * 16 < 64 /\ (y mod 16) * 4 < 64)%N.
Proof.
  intros Hx Hy Hz.
  pose proof (N.mod_lt x 4 ltac:(discriminate)).
  pose proof (N.mod_lt y 16 ltac:(discriminate)).
  pose proof (N.mod_lt z 64 ltac:(discriminate)).
  assert (x / 4 < 64)%N by (apply N.Div0.div_lt_upper_bound; lia).
  assert (y / 16 < 16)%N by (apply N.Div0.div_lt_upper_bound; lia).
  assert (z / 64 < 4)%N by (apply N.Div0.div_lt_upper_bound; lia).
  lia.
Qed.

Lemma sextets_inj (x y z x' y' z' : N) :
  (y <= 255)%N -> (z <= 255)%N -> (y' <= 255)%N -> (z' <= 255)%N ->
  (x / 4 = x' / 4)%N ->
  ((x mod 4) * 16 + y / 16 = (x' mod 4) * 16 + y' / 16)%N ->
  ((y mod 16) * 4 + z / 64 = (y' mod 16) * 4 + z' / 64)%N ->
  (z mod 64 = z' mod 64)%N ->
  x = x' /\ y = y' /\ z = z'.
Proof.
  intros Hy Hz Hy' Hz' H1 H2 H3 H4.
  pose proof (N.div_mod x 4 ltac:(discriminate)).
  pose proof (N.div_mod x' 4 ltac:(discriminate)).
  pose proof (N.div_mod y 16 ltac:(discriminate)).
  pose proof (N.div_mod y' 16 ltac:(discriminate)).
  pose proof (N.div_mod z 64 ltac:(discriminate)).
  pose proof (N.div_mod z' 64 ltac:(discriminate)).
  pose proof (N.mod_lt x 4 ltac:(discriminate)).
  pose proof (N.mod_lt x' 4 ltac:(discriminate)).
  pose proof (N.mod_lt y 16 ltac:(discriminate)).
  pose proof (N.mod_lt y' 16 ltac:(discriminate)).
  pose proof (N.mod_lt z 64 ltac:(discriminate)).
  pose proof (N.mod_lt z' 64 ltac:(discriminate)).
  assert (y / 16 < 16)%N by (apply N.Div0.div_lt_upper_bound; lia).
  assert (y' / 16 < 16)%N by (apply N.Div0.div_lt_upper_bound; lia).
  assert (z / 64 < 4)%N by (apply N.Div0.div_lt_upper_bound; lia).
  assert (z' / 64 < 4)%N by (apply N.Div0.div_lt_upper_bound; lia).
  lia.
Qed.

Lemma b64encode_length (data : list Byte.byte) (n : nat) :
  length data <= n ->
  length (b64encode data) = 4 * ((length data + 2) / 3).
Proof.
  revert data. induction n as [|n IH]; intros data Hn.
  - destruct data; [reflexivity | simpl in Hn; lia].
  - destruct data as [|a [|b [|c rest]]]; try reflexivity.
    cbn [b64encode length]. rewrite IH by (simpl in Hn; lia).
    replace (S (S (S (length rest))) + 2) with (length rest + 2 + 1 * 3) by lia.
    rewrite Nat.div_add by discriminate. lia.
Qed.

Ltac sextet_facts x y z :=
  pose proof (sextets_bounds (Byte.to_N x) (Byte.to_N y) (Byte.to_N z)
                (Byte.to_N_bounded x) (Byte.to_N_bounded y)
                (Byte.to_N_bounded z)).

Lemma b64encode_inj (n : nat) :
  forall a b, length a <= n -> b64encode a = b64encode b -> a = b.
Proof.
  induction n as [|n IH]; intros a b Hn H.
  - destruct a; [|simpl in Hn; lia].
    destruct b as [|? [|? [|? ?]]]; [reflexivity | discriminate H ..].
  - destruct a as [|x [|y [|z ra]]], b as [|x' [|y' [|z' rb]]];
      try reflexivity; try discriminate H; cbn [b64encode] in H.
    + injection H as H1 H2.
      sextet_facts x x x. sextet_facts x' x' x'.
      apply b64_char_inj in H1, H2; try lia.
      destruct (sextets_inj (Byte.to_N x) 0 0 (Byte.to_N x') 0 0)
        as [E _]; try (cbn; lia).
      now rewrite (byte_to_N_inj _ _ E).
    + injection H as _ _ H3.
      sextet_facts x y' y'. symmetry in H3.
      apply b64_char_not_pad in H3; [destruct H3 | lia].
    + injection H as _ _ H3 _.
      sextet_facts x y' z'. symmetry in H3.
      apply b64_char_not_pad in H3; [destruct H3 | lia].
    + injection H as _ _ H3.
      sextet_facts x y y.
      apply b64_char_not_pad in H3; [destruct H3 | lia].
    + injection H as H1 H2 H3.
      sextet_facts x y y. sextet_facts x' y' y'.
      apply b64_char_inj in H1, H2, H3; try lia.
      destruct (sextets_inj (Byte.to_N x) (Byte.to_N y) 0
                            (Byte.to_N x') (Byte.to_N y') 0)
        as [E1 [E2 _]];
        try apply Byte.to_N_bounded; try (cbn; lia).
      now rewrite (byte_to_N_inj _ _ E1), (byte_to_N_inj _ _ E2).
    + injection H as _ _ _ H4 _.
      sextet_facts x' y' z'. symmetry in H4.
      apply b64_char_not_pad in H4; [destruct H4 | lia].
    + injection H as _ _ H3 _.
      sextet_facts x y z.
      apply b64_char_not_pad in H3; [destruct H3 | lia].
    + injection H as _ _ _ H4 _.
      sextet_facts x y z.
      apply b64_char_not_pad in H4; [destruct H4 | lia].
    + injection H as H1 H2 H3 H4 H5.
      sextet_facts x y z. sextet_facts x' y' z'.
      apply b64_char_inj in H1, H2, H3, H4; try lia.
      destruct (sextets_inj (Byte.to_N x) (Byte.to_N y) (Byte.to_N z)
                            (Byte.to_N x') (Byte.to_N y') (Byte.to_N z'))
        as [E1 [E2 E3]];
        try apply Byte.to_N_bounded; try assumption.
      rewrite (byte_to_N_inj _ _ E1), (byte_to_N_inj _ _ E2),
              (byte_to_N_inj _ _ E3).
      f_equal. f_equal. f_equal. apply IH; [simpl in Hn; lia | assumption].
Qed.

(** X18: the payload sent to the service is the base64 text of the
    bytes read: four characters for every three bytes, the last group
    padded, and two different byte sequences never give the same
    payload. *)
Theorem payload_is_faithful (a b : list Byte.byte) :
  length (b64encode a) = 4 * ((length a + 2) / 3) /\
  (b64encode a = b64encode b <-> a = b).
Proof.
  split.
  - now apply (b64encode_length a (length a)).
  - split; [|now intros ->].
    now apply (b64encode_inj (length a)).
Qed.

(** ** Rejected inputs *)

(** X19: when the input file exists but its extension is not
    supported, [main] prints its banner, asks whether the path exists,
    prints the unsupported-format line and the list of the seven
    supported extensions, and returns 1; the file is not read and the
    service is not called.  The model is one argparse accepts. *)
Theorem unsupported_format_exits_1 (w : world) (a : args) :
  str_in (model a) model_choices = true ->
  path_exists w (audio_file a) = true ->
  is_audio_file (audio_file a) = false ->
  exists model_name,
    dict_get (model a) MODEL_OPTIONS = Some model_name /\
    run (main a) w =
    (Returned 1,
     main_banner a model_name
     ++ [ EvExists (audio_file a);
          EvPrint (py "Error: File is not a supported audio format.");
          EvPrint (py "Supported formats: .mp3, .wav, .ogg, .m4a, .mp4, .aac, .webm") ]).
Proof.
  intros Hm Hex Haud. destruct (model_choice_known _ Hm) as [name Hname].
  exists name. split; [exact Hname|].
  destruct a as [f m o v]. cbn [audio_file model output] in *.
  unfold main_banner. cbn [audio_file output].
  run_with_facts; try reflexivity.
Qed.

Lemma unsupported_format_exits_1_witness :
  outcome_of (run (main (mk_args (py "notes.txt") (py "flash") (py "out") false))
                  (sample_world true None (inl (ApiError []))))
  = Returned 1.
Proof.
  destruct (unsupported_format_exits_1
              (sample_world true None (inl (ApiError [])))
              (mk_args (py "notes.txt") (py "flash") (py "out") false))
    as [name [_ H]]; [reflexivity | reflexivity | reflexivity |].
  now rewrite H.
Defined.

(** X20: [transcribe_audio] checks existence before format.  On a path
    that does not exist it raises [FileNotFoundError] naming the path,
    whatever the extension; on an existing path with an unsupported
    extension it raises the unsupported-format [ValueError] naming the
    path.  In both cases it has only asked whether the path exists and
    logged the error. *)
Theorem transcribe_audio_validation_order (w : world) (p key : str) :
  (path_exists w p = false ->
   run (transcribe_audio p key) w
   = (Raised (FileNotFoundError (py "Audio file not found: " ++ p)),
      [ EvExists p;
        EvLog ERROR (py "Error transcribing audio: Audio file not found: " ++ p) ]))
  /\
  (path_exists w p = true -> is_audio_file p = false ->
   run (transcribe_audio p key) w
   = (Raised (ValueError (py "File is not a supported audio format: " ++ p)),
      [ EvExists p;
        EvLog ERROR
          (py "Error transcribing audio: File is not a supported audio format: "
           ++ p) ])).
Proof.
  split.
  - intros Hex. run_with_facts; try reflexivity.
  - intros Hex Haud. run_with_facts; try reflexivity.
Qed.

Lemma transcribe_audio_validation_order_witness :
  outcome_of (run (transcribe_audio (py "notes.txt") (py "flash"))
                  (sample_world false None (inl (ApiError []))))
  = Raised (FileNotFoundError (py "Audio file not found: notes.txt")) /\
  outcome_of (run (transcribe_audio (py "notes.txt") (py "flash"))
                  (sample_world true None (inl (ApiError []))))
  = Raised (ValueError (py "File is not a supported audio format: notes.txt")).
Proof.
  split.
  - destruct (transcribe_audio_validation_order
                (sample_world false None (inl (ApiError [])))
                (py "notes.txt") (py "flash")) as [H _].
    now rewrite H.
  - destruct (transcribe_audio_validation_order
                (sample_world true None (inl (ApiError [])))
                (py "notes.txt") (py "flash")) as [_ H].
    now rewrite H.
Defined.

(** ** Why [transcribe_audio] fails *)

Lemma key_missing_from (w : world) :
  getenv w (py "GOOGLE_AI_API_KEY") = None \/
  getenv w (py "GOOGLE_AI_API_KEY") = Some [] ->
  api_key_missing w = true.
Proof. unfold api_key_missing. now intros [-> | ->]. Qed.

(** X21: on a supported file that exists, an exception leaves
    [transcribe_audio] for one of five causes, met in this order: the
    file cannot be read; the key is missing or empty; the service
    raises; the response is blocked; the [text] accessor fails and no
    part has a text that is not empty.  The exception of the reader and
    of the service is passed on as it is.  The error of line 210 is not
    among the causes: a response that reaches the fallback has passed
    the test of line 189, so its parts are usable. *)
Theorem transcribe_audio_failure_causes (w : world) (p key : str) (e : exn) :
  path_exists w p = true ->
  is_audio_file p = true ->
  outcome_of (run (transcribe_audio p key) w) = Raised e ->
  let name := match dict_get key MODEL_OPTIONS with
              | Some name => name
              | None => py "models/gemini-2.0-flash-exp"
              end in
  let ask data :=
    generate_content w name TRANSCRIPTION_PROMPT (get_gemini_mime_type p)
                     (b64encode data) in
  open_read w p = inl e
  \/
  exists data,
    open_read w p = inr data /\
    (api_key_missing w = true /\ e = ValueError missing_key_message
     \/
     api_key_missing w = false /\
     (ask data = inl e
      \/
      exists r,
        ask data = inr r /\
        (is_blocked r = true /\ e = ValueError blocked_message
         \/
         exists msg ps,
           is_blocked r = false /\
           text r = inr msg /\ usable_parts r = Some ps /\
           Forall (fun q => has_text q = false) ps /\
           e = ValueError
                 (py "Could not extract transcription from response.")))).
Proof.
  intros Hex Haud. unfold run, outcome_of. cbv zeta.
  run_pipeline. rewrite Hex. run_pipeline. rewrite Haud.
  explore_pipeline; cbn [fst]; intros He;
    try discriminate He; injection He as <-.
  all: try (left; reflexivity).
  all: right; eexists; split; [reflexivity|].
  all: try (left; split; [apply key_missing_from; auto | reflexivity]).
  all: right; split; [eapply key_present_from; eassumption|].
  all: try (left; eassumption).
  all: right; eexists; split; [eassumption|].
  all: try (left; split; [eassumption | reflexivity]).
  all: try match goal with
           | Hb : is_blocked ?r = false, Hu : usable_parts ?r = None |- _ =>
             unfold is_blocked in Hb; rewrite Hu in Hb; discriminate Hb
           end.
  all: right; eexists; eexists;
    repeat split;
    first [eassumption | reflexivity
          | apply first_part_text_none; eassumption].
Qed.

Lemma transcribe_audio_failure_causes_witness :
  exists data,
    open_read (sample_world true (Some (py "secret"))
                            (inl (ApiError (py "quota"))))
              (py "talk.mp3") = inr data /\
    generate_content (sample_world true (Some (py "secret"))
                                   (inl (ApiError (py "quota"))))
                     (py "models/gemini-2.0-flash-exp") TRANSCRIPTION_PROMPT
                     (get_gemini_mime_type (py "talk.mp3")) (b64encode data)
    = inl (ApiError (py "quota")).
Proof.
  destruct (transcribe_audio_failure_causes
              (sample_world true (Some (py "secret"))
                            (inl (ApiError (py "quota"))))
              (py "talk.mp3") (py "flash") (ApiError (py "quota"))
              eq_refl eq_refl eq_refl)
    as [H | [data [Hread [[H _] | [_ [H | [r [H _]]]]]]]];
    try discriminate H.
  exists data. split; [exact Hread | exact H].
Defined.

(** ** [main] as the composition of its two stages *)

Lemma transcribe_audio_frame (w : world) (p key : str) (st : state) :
  transcribe_audio p key w st
  = (fst (run (transcribe_audio p key) w),
     mk_state (trace st ++ snd (run (transcribe_audio p key) w)) (ticks st)).
Proof.
  destruct st as [tr n].
  explore_pipeline; tidy_trace; reflexivity.
Qed.

Lemma save_transcript_frame (w : world) (t p d : str) (tr : list event) :
  save_transcript t p d w (mk_state tr 0)
  = (fst (run (save_transcript t p d) w),
     mk_state (tr ++ snd (run (save_transcript t p d) w))
              (ticks (snd (save_transcript t p d w initial_state)))).
Proof.
  explore_pipeline; tidy_trace; reflexivity.
Qed.

(** X22: on a supported file that exists, a run of [main] is the opening
    lines, then the run of [transcribe_audio], then, if that returned,
    the run of [save_transcript] on its transcript, from the same world.
    An exception of either stage is printed and logged with its own
    text and the status is 1; otherwise the closing lines show the path
    returned by [save_transcript] and the transcript, cut to its first
    200 characters followed by three dots when it is longer, and the
    status is 0. *)
Theorem main_composes_stages (w : world) (a : args) :
  str_in (model a) model_choices = true ->
  path_exists w (audio_file a) = true ->
  is_audio_file (audio_file a) = true ->
  exists model_name,
    dict_get (model a) MODEL_OPTIONS = Some model_name /\
    run (main a) w
    = match run (transcribe_audio (audio_file a) (model a)) w with
      | (Raised e, heard) =>
        (Returned 1,
         main_opening a model_name ++ heard ++ main_failure_lines e)
      | (Returned t, heard) =>
        match run (save_transcript t (audio_file a) (output a)) w with
        | (Raised e, saved) =>
          (Returned 1,
           main_opening a model_name ++ heard ++ saved
           ++ main_failure_lines e)
        | (Returned output_file, saved) =>
          (Returned 0,
           main_opening a model_name ++ heard ++ saved
           ++ main_success_lines t output_file)
        end
      end.
Proof.
  intros Hm Hex Haud.
  destruct (model_choice_known _ Hm) as [name Hname].
  exists name. split; [exact Hname|].
  destruct a as [f m o v]. cbn [audio_file model output] in *.
  pose proof (transcribe_audio_frame w f m) as Hheard.
  set (x := run (transcribe_audio f m) w) in *. clearbody x.
  destruct x as [[t | e] heard]; cbn [fst snd] in Hheard.
  - pose proof (save_transcript_frame w t f o) as Hsaved.
    set (y := run (save_transcript t f o) w) in *. clearbody y.
    destruct y as [[out | e] saved]; cbn [fst snd] in Hsaved;
      run_main; rewrite Hm; run_main; rewrite Hname; run_main;
      rewrite Hex, Haud; run_main; rewrite Hheard; cbn [trace ticks];
      rewrite Hsaved; cbn [trace ticks];
      unfold main_opening, main_banner, main_success_lines,
             main_failure_lines;
      cbn [audio_file output]; tidy_trace; reflexivity.
  - run_main. rewrite Hm. run_main. rewrite Hname. run_main.
    rewrite Hex, Haud. run_main. rewrite Hheard. cbn [trace ticks].
    unfold main_opening, main_banner, main_failure_lines.
    cbn [audio_file output]. tidy_trace. reflexivity.
Qed.

Lemma main_composes_stages_witness :
  run (main sample_args)
      (sample_world true (Some (py "secret")) (inl (ApiError (py "quota"))))
  = (Returned 1,
     main_opening sample_args (py "models/gemini-2.0-flash-exp")
     ++ events_to_key (py "talk.mp3") (py "models/gemini-2.0-flash-exp")
                      [Byte.x52; Byte.x49; Byte.x46; Byte.x46]
     ++ events_of_request (py "talk.mp3") (py "models/gemini-2.0-flash-exp")
                          [Byte.x52; Byte.x49; Byte.x46; Byte.x46]
     ++ [EvLog ERROR (py "Error transcribing audio: quota")]
     ++ main_failure_lines (ApiError (py "quota"))).
Proof.
  destruct (main_composes_stages
              (sample_world true (Some (py "secret"))
                            (inl (ApiError (py "quota"))))
              sample_args)
    as [name [Hname H]]; [reflexivity | reflexivity | reflexivity |].
  injection Hname as <-. exact H.
Defined.

(** ** The description when no meaningful word is found *)

Lemma alpha_lower_clean (c : ascii) :
  is_alpha c = true ->
  kept_char (lower_char c) = true /\ is_dash_or_space (lower_char c) = false.
Proof.
  destruct c as [[] [] [] [] [] [] [] []]; intros H;
    first [split; reflexivity | discriminate H].
Qed.

Lemma isalpha_lower_clean (w : str) :
  isalpha w = true ->
  lower w <> [] /\
  Forall (fun c => kept_char c = true /\ is_dash_or_space c = false) (lower w).
Proof.
  destruct w as [|c w]; [discriminate|]. unfold isalpha. intros H.
  split; [discriminate|].
  apply forallb_forall with (x := c) in H as Hc; [|now left].
  unfold lower. apply Forall_forall. intros x Hx.
  apply in_map_iff in Hx. destruct Hx as [y [<- Hy]].
  apply alpha_lower_clean.
  rewrite forallb_forall in H. now apply H.
Qed.

Lemma clean_description_kept (d : str) :
  Forall (fun c => kept_char c = true /\ is_dash_or_space c = false) d ->
  clean_description d
  = match d with [] => py "transcript" | _ :: _ => firstn 50 d end.
Proof.
  intros Hd. unfold clean_description. cbv zeta.
  rewrite scan_unsafe_identity
    by (eapply Forall_impl; [|exact Hd]; now intros c [H _]).
  rewrite scan_runs_identity
    by (eapply Forall_impl; [|exact Hd]; now intros c [_ H]).
  assert (Hcut : (if 50 <? length d then firstn 50 d else d) = firstn 50 d).
  { destruct (50 <? length d) eqn:L; [reflexivity|].
    apply Nat.ltb_ge in L. now rewrite firstn_all2. }
  rewrite Hcut. destruct d; reflexivity.
Qed.

(** X23: when the preview has no meaningful word and the alphabetic ones
    among the first three whitespace-separated words of the stripped
    transcript are made of ASCII letters, the description is made of
    these: lower-cased, joined by underscores and cut to 50 characters;
    it is [transcript] when none of the three is alphabetic.  It holds
    the letters [a] to [z] and underscores only.  Stop words come back
    this way. *)
Theorem description_without_meaningful_words (t : str) :
  let first_words := filter isalpha (firstn 3 (split_ws (strip t))) in
  meaningful_words t = [] ->
  Forall (fun w => forallb is_ascii_letter w = true) first_words ->
  describe t
  = match first_words with
    | [] => py "transcript"
    | _ :: _ => firstn 50 (join (py "_") (map lower first_words))
    end /\
  forallb is_lower_or_underscore (describe t) = true.
Proof.
  cbv zeta. intros Hm Hascii.
  assert (Hd :
    describe t
    = match filter isalpha (firstn 3 (split_ws (strip t))) with
      | [] => py "transcript"
      | _ :: _ =>
        firstn 50
          (join (py "_")
             (map lower (filter isalpha (firstn 3 (split_ws (strip t))))))
      end).
  { unfold describe. rewrite raw_description_cases, Hm.
    set (ws := filter isalpha (firstn 3 (split_ws (strip t)))).
    assert (Hws : Forall (fun w => isalpha w = true) ws).
    { apply Forall_forall. intros w Hw. now apply filter_In in Hw. }
    clearbody ws.
    assert (Hall :
      Forall (Forall (fun c => kept_char c = true
                               /\ is_dash_or_space c = false))
             (map lower ws)).
    { induction Hws as [|w ws Hw _ IH]; cbn [map]; constructor; [|exact IH].
      now apply isalpha_lower_clean. }
    rewrite clean_description_kept
      by (apply join_Forall; [repeat constructor | exact Hall]).
    destruct ws as [|w ws]; [reflexivity|].
    inversion Hws as [|? ? Hw _]; subst.
    destruct (isalpha_lower_clean w Hw) as [Hne _].
    cbn [map]. destruct (lower w) as [|c r] eqn:E; [now elim Hne|].
    destruct (map lower ws); reflexivity. }
  split; [exact Hd|]. rewrite Hd.
  destruct (filter isalpha (firstn 3 (split_ws (strip t)))) as [|w ws] eqn:E;
    [reflexivity|].
  apply forallb_forall. apply Forall_forall. apply Forall_firstn_str.
  apply join_Forall; [repeat constructor|].
  apply Forall_forall. intros x Hx. apply in_map_iff in Hx.
  destruct Hx as [y [<- Hy]].
  rewrite Forall_forall in Hascii. specialize (Hascii y Hy).
  rewrite forallb_forall in Hascii.
  unfold lower. apply Forall_forall. intros c Hc.
  apply in_map_iff in Hc. destruct Hc as [d [<- Hd']].
  apply lower_ascii_letter. now apply Hascii.
Qed.

Lemma description_without_meaningful_words_witness :
  describe (py "The and you...") = py "the_and".
Proof.
  destruct (description_without_meaningful_words (py "The and you..."))
    as [H _]; [reflexivity | vm_compute; repeat constructor |].
  exact H.
Defined.

(** ** The size shown in the report *)

(** X24: for a size below [2^53] bytes, the size shown in the report is
    a whole number of hundredths of a MiB, written with two decimals,
    that lies within half a hundredth of the size; a size half way
    between two hundredths goes to the even one.  A file of at most 5242
    bytes is shown as [0.00]. *)
Theorem size_shown_to_nearest_hundredth (size : N) :
  (size < 2 ^ 53)%N ->
  exists h,
    format_mib size
    = str_of_N (h / 100) ++ py "." ++ dec_fixed 2 (h mod 100) /\
    (1048576 * h <= 100 * size + 524288)%N /\
    (100 * size <= 1048576 * h + 524288)%N /\
    ((100 * size = 1048576 * h + 524288 \/
      100 * size + 524288 = 1048576 * h)%N -> N.even h = true) /\
    ((size <= 5242)%N -> format_mib size = py "0.00").
Proof.
  intros _. unfold format_mib. cbv zeta.
  pose proof (N.div_mod' (size * 100) 1048576) as Hdiv.
  pose proof (N.mod_lt (size * 100) 1048576 ltac:(discriminate)) as Hlt.
  set (q := (size * 100 / 1048576)%N) in *.
  set (r := ((size * 100) mod 1048576)%N) in *.
  assert (Hsmall : (size <= 5242)%N ->
                   (if (r <? 524288)%N then q
                    else if (524288 <? r)%N then (q + 1)%N
                         else if N.even q then q else (q + 1)%N) = 0%N).
  { intros Hs.
    assert (q = 0%N) as -> by (apply N.div_small; lia).
    assert (r = (size * 100)%N) as -> by (apply N.mod_small; lia).
    destruct (N.ltb_spec (size * 100) 524288) as [_ | H]; [reflexivity|lia]. }
  eexists. split; [reflexivity|].
  split; [|split; [|split]].
  - destruct (N.ltb_spec r 524288); [lia|].
    destruct (N.ltb_spec 524288 r); [lia|].
    destruct (N.even q); lia.
  - destruct (N.ltb_spec r 524288); [lia|].
    destruct (N.ltb_spec 524288 r); [lia|].
    destruct (N.even q); lia.
  - destruct (N.ltb_spec r 524288) as [H1 | H1].
    + intros [H | H]; lia.
    + destruct (N.ltb_spec 524288 r) as [H2 | H2].
      * intros [H | H]; lia.
      * destruct (N.even q) eqn:E; [intros _; exact E|].
        intros _. rewrite N.add_1_r, N.even_succ.
        rewrite <- N.negb_even, E. reflexivity.
  - intros Hs. rewrite (Hsmall Hs). reflexivity.
Qed.

Lemma size_shown_to_nearest_hundredth_witness :
  exists h, format_mib 131072 = str_of_N (h / 100) ++ py "." ++ dec_fixed 2 (h mod 100)
            /\ N.even h = true.
Proof.
  destruct (size_shown_to_nearest_hundredth 131072 eq_refl)
    as [h [Htext [Hlo [Hhi [Heven _]]]]].
  exists h. split; [exact Htext|].
  apply Heven.
  assert (h = 12 \/ h = 13)%N as [-> | ->] by lia; [left | right]; reflexivity.
Defined.

(** ** The diagnostics of a blocked response *)

(** X25: when the service answers with a blocked response,
    [transcribe_audio] logs the warning of line 190, then one warning
    for each safety rating of the first candidate, in their order, as
    [Safety rating: category: probability], then the error, and raises
    the blocked-transcription error; nothing else happens after the
    request. *)
Theorem blocked_response_logs_ratings (w : world) (p key : str)
        (data : list Byte.byte) (r : response) :
  let name := match dict_get key MODEL_OPTIONS with
              | Some name => name
              | None => py "models/gemini-2.0-flash-exp"
              end in
  path_exists w p = true ->
  is_audio_file p = true ->
  open_read w p = inr data ->
  api_key_missing w = false ->
  generate_content w name TRANSCRIPTION_PROMPT (get_gemini_mime_type p)
                   (b64encode data) = inr r ->
  is_blocked r = true ->
  run (transcribe_audio p key) w
  = (Raised (ValueError blocked_message),
     events_to_key p name data ++ events_of_request p name data
     ++ [EvLog WARNING
           (py "Response was blocked or empty. Checking safety ratings.")]
     ++ map (fun rating =>
               EvLog WARNING
                     (py "Safety rating: " ++ category rating ++ py ": "
                      ++ probability rating))
            match candidates r with
            | c :: _ => safety_ratings c
            | [] => []
            end
     ++ [EvLog ERROR (py "Error transcribing audio: " ++ blocked_message)]).
Proof.
  cbv zeta. intros Hex Haud Hread Hkey Hresp Hr.
  destruct (key_present w Hkey) as [c [k Hk]].
  destruct (dict_get key MODEL_OPTIONS) as [name|] eqn:Hname;
    run_pipeline; rewrite Hex, Haud; run_pipeline; rewrite ?Hname;
    run_pipeline; rewrite Hread; run_pipeline; rewrite Hk;
    run_pipeline; rewrite Hresp; run_pipeline; rewrite Hr;
    rewrite report_blocked_run; run_pipeline;
    unfold events_to_key, events_of_request, logged_ratings, rating_line;
    tidy_trace; reflexivity.
Qed.

Lemma blocked_response_logs_ratings_witness :
  let r := mk_response
             [mk_candidate None [mk_rating (py "HARASSMENT") (py "HIGH");
                                 mk_rating (py "HATE_SPEECH") (py "LOW")]]
             (inr (py "no text")) in
  filter (fun e => match e with EvLog WARNING _ => true | _ => false end)
         (events_of (run (transcribe_audio (py "talk.mp3") (py "pro"))
                         (sample_world true (Some (py "secret")) (inr r))))
  = [ EvLog WARNING
        (py "Response was blocked or empty. Checking safety ratings.");
      EvLog WARNING (py "Safety rating: HARASSMENT: HIGH");
      EvLog WARNING (py "Safety rating: HATE_SPEECH: LOW") ].
Proof.
  cbv zeta.
  rewrite (blocked_response_logs_ratings
             (sample_world true (Some (py "secret"))
                (inr (mk_response
                        [mk_candidate None
                           [mk_rating (py "HARASSMENT") (py "HIGH");
                            mk_rating (py "HATE_SPEECH") (py "LOW")]]
                        (inr (py "no text")))))
             (py "talk.mp3") (py "pro")
             [Byte.x52; Byte.x49; Byte.x46; Byte.x46]
             (mk_response
                [mk_candidate None
                   [mk_rating (py "HARASSMENT") (py "HIGH");
                    mk_rating (py "HATE_SPEECH") (py "LOW")]]
                (inr (py "no text"))));
    reflexivity.
Defined.
